(** * ai-hedge-fund: workflow engine, resilient LLM invocation, incremental cache

    A shallow embedding of the Python sources

      - [src/data/cache.py]          (module [Cache])
      - [src/utils/parsing.py] and the tail of [run_hedge_fund] in [src/main.py]
      - [src/utils/llm.py]
      - [src/graph/builder.py]
      - [src/agents/fundamentals.py]  (modules [Fundamentals] and [Dividends])
      - the ticker list of the command line in [src/main.py]

    Python exceptions are modelled by the [outcome] type: a call either
    returns a value or raises.  Dictionaries with string keys are [gmap string];
    Python lists are lists. *)

From stdpp Require Import base option list gmap strings.
From Stdlib Require Import Ascii ZArith QArith Qround Lia Lqa.

#[local] Set Warnings "-register-all".
#[local] Open Scope string_scope.
#[local] Open Scope list_scope.
#[local] Open Scope nat_scope.

(** ** Exceptions and outcomes *)

Inductive exn : Type :=
  | KeyError (field : string)
  | TypeError
  | ValueError (msg : string)
  | ValidationError
  | JSONDecodeError
  | ProviderError.

Inductive outcome (A : Type) : Type :=
  | Return (a : A)
  | Raise (e : exn).
Arguments Return {A} a.
Arguments Raise {A} e.

Definition bind {A B : Type} (m : outcome A) (k : A -> outcome B) : outcome B :=
  match m with
  | Return a => k a
  | Raise e => Raise e
  end.

Notation "'do' x <- m ; k" := (bind m (fun x => k))
  (at level 10, x name, m at level 100, k at level 200).

(** [try: body / except ...: handler]. *)
Definition try_except {A : Type} (body : outcome A) (handler : exn -> outcome A) : outcome A :=
  match body with
  | Return a => Return a
  | Raise e => handler e
  end.

(** ** The incremental cache ([src/data/cache.py]) *)

Module Cache.
Section cache.
(** Field values of a cached record; Python compares them with [==]. *)
Context {V : Type} `{EqDecision V}.

(** A cached record is a [dict] from field names to values. *)
Abbreviation record := (gmap string V).

(** [item[key_field]]: raises [KeyError] when the field is absent. *)
Definition getitem (key_field : string) (item : record) : outcome V :=
  match item !! key_field with
  | Some v => Return v
  | None => Raise (KeyError key_field)
  end.

(** [{item[key_field] for item in existing}], evaluated left to right. *)
Fixpoint key_set (key_field : string) (items : list record) : outcome (list V) :=
  match items with
  | [] => Return []
  | item :: rest =>
      do k <- getitem key_field item;
      do ks <- key_set key_field rest;
      Return (k :: ks)
  end.

(** [[item for item in new_data if item[key_field] not in existing_keys]]. *)
Fixpoint fresh_items (key_field : string) (existing_keys : list V)
    (new_data : list record) : outcome (list record) :=
  match new_data with
  | [] => Return []
  | item :: rest =>
      do k <- getitem key_field item;
      do tl <- fresh_items key_field existing_keys rest;
      Return (if decide (k ∈ existing_keys) then tl else item :: tl)
  end.

(** Python's [not existing] for [existing : list | None]. *)
Definition falsy (existing : option (list record)) : bool :=
  match existing with
  | None | Some [] => true
  | Some (_ :: _) => false
  end.

(** [Cache._merge_data]. *)
Definition _merge_data (existing : option (list record)) (new_data : list record)
    (key_field : string) : outcome (list record) :=
  if falsy existing then Return new_data
  else
    let existing := default [] existing in
    do existing_keys <- key_set key_field existing;
    do fresh <- fresh_items key_field existing_keys new_data;
    Return (existing ++ fresh).

(** The six per-kind dictionaries of a [Cache] instance. *)
Record Cache : Type := mkCache {
  _prices_cache : gmap string (list record);
  _financial_metrics_cache : gmap string (list record);
  _line_items_cache : gmap string (list record);
  _insider_trades_cache : gmap string (list record);
  _company_news_cache : gmap string (list record);
  _dividends_cache : gmap string (list record)
}.

(** [Cache()]: [__init__] creates six empty dictionaries. *)
Definition init : Cache := mkCache ∅ ∅ ∅ ∅ ∅ ∅.

Definition get_prices (self : Cache) (ticker : string) := _prices_cache self !! ticker.
Definition get_financial_metrics (self : Cache) (ticker : string) :=
  _financial_metrics_cache self !! ticker.
Definition get_line_items (self : Cache) (ticker : string) := _line_items_cache self !! ticker.
Definition get_insider_trades (self : Cache) (ticker : string) :=
  _insider_trades_cache self !! ticker.
Definition get_company_news (self : Cache) (ticker : string) :=
  _company_news_cache self !! ticker.
Definition get_dividends (self : Cache) (ticker : string) := _dividends_cache self !! ticker.

(** The setters return the updated cache; when [_merge_data] raises, the
    assignment never happens and the exception propagates. *)
Definition set_prices (self : Cache) (ticker : string) (data : list record) : outcome Cache :=
  do merged <- _merge_data (get_prices self ticker) data "time";
  Return (mkCache (<[ticker := merged]> (_prices_cache self))
            (_financial_metrics_cache self) (_line_items_cache self)
            (_insider_trades_cache self) (_company_news_cache self) (_dividends_cache self)).

Definition set_financial_metrics (self : Cache) (ticker : string) (data : list record)
    : outcome Cache :=
  do merged <- _merge_data (get_financial_metrics self ticker) data "report_period";
  Return (mkCache (_prices_cache self)
            (<[ticker := merged]> (_financial_metrics_cache self)) (_line_items_cache self)
            (_insider_trades_cache self) (_company_news_cache self) (_dividends_cache self)).

Definition set_line_items (self : Cache) (ticker : string) (data : list record)
    : outcome Cache :=
  do merged <- _merge_data (get_line_items self ticker) data "report_period";
  Return (mkCache (_prices_cache self) (_financial_metrics_cache self)
            (<[ticker := merged]> (_line_items_cache self))
            (_insider_trades_cache self) (_company_news_cache self) (_dividends_cache self)).

Definition set_insider_trades (self : Cache) (ticker : string) (data : list record)
    : outcome Cache :=
  do merged <- _merge_data (get_insider_trades self ticker) data "filing_date";
  Return (mkCache (_prices_cache self) (_financial_metrics_cache self) (_line_items_cache self)
            (<[ticker := merged]> (_insider_trades_cache self))
            (_company_news_cache self) (_dividends_cache self)).

Definition set_company_news (self : Cache) (ticker : string) (data : list record)
    : outcome Cache :=
  do merged <- _merge_data (get_company_news self ticker) data "date";
  Return (mkCache (_prices_cache self) (_financial_metrics_cache self) (_line_items_cache self)
            (_insider_trades_cache self)
            (<[ticker := merged]> (_company_news_cache self)) (_dividends_cache self)).

Definition set_dividends (self : Cache) (ticker : string) (data : list record)
    : outcome Cache :=
  do merged <- _merge_data (get_dividends self ticker) data "ex_dividend_date";
  Return (mkCache (_prices_cache self) (_financial_metrics_cache self) (_line_items_cache self)
            (_insider_trades_cache self) (_company_news_cache self)
            (<[ticker := merged]> (_dividends_cache self))).

(** *** A uniform view of the six get/set pairs *)

Inductive kind : Type :=
  Prices | FinancialMetrics | LineItems | InsiderTrades | CompanyNews | Dividends.

#[global] Instance kind_eq_dec : EqDecision kind.
Proof. solve_decision. Defined.

(** The uniqueness field each setter passes as [key_field]. *)
Definition key_field (k : kind) : string :=
  match k with
  | Prices => "time"
  | FinancialMetrics | LineItems => "report_period"
  | InsiderTrades => "filing_date"
  | CompanyNews => "date"
  | Dividends => "ex_dividend_date"
  end.

Definition get (k : kind) (self : Cache) (ticker : string) : option (list record) :=
  match k with
  | Prices => get_prices self ticker
  | FinancialMetrics => get_financial_metrics self ticker
  | LineItems => get_line_items self ticker
  | InsiderTrades => get_insider_trades self ticker
  | CompanyNews => get_company_news self ticker
  | Dividends => get_dividends self ticker
  end.

Definition set (k : kind) (self : Cache) (ticker : string) (data : list record)
    : outcome Cache :=
  match k with
  | Prices => set_prices self ticker data
  | FinancialMetrics => set_financial_metrics self ticker data
  | LineItems => set_line_items self ticker data
  | InsiderTrades => set_insider_trades self ticker data
  | CompanyNews => set_company_news self ticker data
  | Dividends => set_dividends self ticker data
  end.

(** A sequence of set operations, run in order; the first exception stops it. *)
Definition set_op : Type := kind * string * list record.

Fixpoint run_sets (ops : list set_op) (self : Cache) : outcome Cache :=
  match ops with
  | [] => Return self
  | (k, ticker, data) :: rest =>
      do self' <- set k self ticker data;
      run_sets rest self'
  end.

(** The uniqueness-field values of a stored sequence ([None]: field absent). *)
Definition key_values (k : kind) (items : list record) : list (option V) :=
  (fun item : record => item !! key_field k) <$> items.

Definition has_key (k : kind) (item : record) : Prop := is_Some (item !! key_field k).

End cache.
Arguments Cache V : clear implicits.
Arguments set_op V : clear implicits.
End Cache.

(** ** Python values and strings *)

(** The Python values the modelled functions handle: what [json.loads]
    returns, what a schema field holds.  A float is kept as its decimal
    literal, since nothing here computes with it; a dictionary keeps its
    insertion order; [VClass] is a class object such as [str], named by its
    printed name. *)
Inductive value : Type :=
  | VNone
  | VBool (b : bool)
  | VInt (n : Z)
  | VFloat (literal : string)
  | VStr (s : string)
  | VList (items : list value)
  | VDict (entries : list (string * value))
  | VClass (name : string).

(** [d.get(key)] on the entries of a dictionary. *)
Fixpoint dict_get (entries : list (string * value)) (key : string) : option value :=
  match entries with
  | [] => None
  | (k, v) :: rest => if String.eqb k key then Some v else dict_get rest key
  end.

(** [d[key] = v]: replaces the value of an existing key in place, appends a
    new key. *)
Fixpoint dict_set (entries : list (string * value)) (key : string) (v : value)
    : list (string * value) :=
  match entries with
  | [] => [(key, v)]
  | (k, w) :: rest =>
      if String.eqb k key then (k, v) :: rest else (k, w) :: dict_set rest key v
  end.

(** Strings are sequences of code points below 256. *)
Module Str.

Definition chr (n : nat) : string := String (Ascii.ascii_of_nat n) EmptyString.
Definition newline : string := chr 10.
Definition dquote : string := chr 34.

Fixpoint drop (n : nat) (s : string) : string :=
  match n, s with
  | S n', String _ s' => drop n' s'
  | _, _ => s
  end.

Fixpoint take (n : nat) (s : string) : string :=
  match n, s with
  | S n', String c s' => String c (take n' s')
  | _, _ => EmptyString
  end.

(** [s.find(sub)]: the lowest index at which [sub] occurs, [None] for -1. *)
Fixpoint find (sub s : string) : option nat :=
  if String.prefix sub s then Some 0
  else match s with
       | EmptyString => None
       | String _ s' => option_map S (find sub s')
       end.

(** [str.isspace] on one code point below 256. *)
Definition is_space (c : Ascii.ascii) : bool :=
  let n := Ascii.nat_of_ascii c in
  ((9 <=? n) && (n <=? 13)) || ((28 <=? n) && (n <=? 32)) || (n =? 133) || (n =? 160).

Fixpoint lstrip (s : string) : string :=
  match s with
  | String c s' => if is_space c then lstrip s' else s
  | EmptyString => EmptyString
  end.

Fixpoint rstrip (s : string) : string :=
  match s with
  | EmptyString => EmptyString
  | String c s' =>
      match rstrip s' with
      | EmptyString => if is_space c then EmptyString else String c EmptyString
      | r => String c r
      end
  end.

(** [s.strip()]. *)
Definition strip (s : string) : string := rstrip (lstrip s).

End Str.

(** ** A reference decoder for [json.loads]

    Python's [json] module is not part of the repository.  The functions
    that call it take the decoder as a parameter, and what is proved of them
    holds for every decoder, whatever it raises; [Json.loads] below follows
    the grammar of Python's decoder and serves to evaluate them on concrete
    texts.  It raises what CPython's decoder raises on a string:
    [JSONDecodeError], and the [ValueError] of [int] on a literal of more
    than 4300 digits (CPython 3.11 and later, and the security releases
    before it).  Not modelled: the [RecursionError] of a nesting deeper than
    the interpreter's stack allows, which depends on the state of the
    interpreter; and an escape [\uXXXX] above U+00FF, which falls outside the
    modelled alphabet and is refused. *)
Module Json.

Definition is_ws (c : Ascii.ascii) : bool :=
  let n := Ascii.nat_of_ascii c in (n =? 32) || (n =? 9) || (n =? 10) || (n =? 13).

Fixpoint skip_ws (s : string) : string :=
  match s with
  | String c s' => if is_ws c then skip_ws s' else s
  | EmptyString => EmptyString
  end.

Definition is_digit (c : Ascii.ascii) : bool :=
  let n := Ascii.nat_of_ascii c in (48 <=? n) && (n <=? 57).

(** The longest prefix of digits, and what follows it. *)
Fixpoint digits (s : string) : string * string :=
  match s with
  | String c s' =>
      if is_digit c then let '(d, rest) := digits s' in (String c d, rest)
      else (EmptyString, s)
  | EmptyString => (EmptyString, EmptyString)
  end.

Fixpoint nat_of_digits (acc : N) (d : string) : N :=
  match d with
  | String c d' => nat_of_digits (acc * 10 + (N.of_nat (Ascii.nat_of_ascii c) - 48)) d'
  | EmptyString => acc
  end.

Definition hex_digit (c : Ascii.ascii) : option nat :=
  let n := Ascii.nat_of_ascii c in
  if (48 <=? n) && (n <=? 57) then Some (n - 48)
  else if (65 <=? n) && (n <=? 70) then Some (n - 55)
  else if (97 <=? n) && (n <=? 102) then Some (n - 87)
  else None.

(** The body of a string literal, after its opening quote. *)
Fixpoint scan_string (s : string) : option (string * string) :=
  match s with
  | EmptyString => None
  | String c s' =>
      let n := Ascii.nat_of_ascii c in
      if n =? 34 then Some (EmptyString, s')
      else if n =? 92 then
        match s' with
        | String e s'' =>
            let m := Ascii.nat_of_ascii e in
            let plain (code : nat) :=
              match scan_string s'' with
              | Some (body, rest) => Some (String (Ascii.ascii_of_nat code) body, rest)
              | None => None
              end in
            if m =? 34 then plain 34
            else if m =? 92 then plain 92
            else if m =? 47 then plain 47
            else if m =? 98 then plain 8
            else if m =? 102 then plain 12
            else if m =? 110 then plain 10
            else if m =? 114 then plain 13
            else if m =? 116 then plain 9
            else if m =? 117 then
              match s'' with
              | String h1 (String h2 (String h3 (String h4 s3))) =>
                  match hex_digit h1, hex_digit h2, hex_digit h3, hex_digit h4 with
                  | Some 0, Some 0, Some a, Some b =>
                      match scan_string s3 with
                      | Some (body, rest) =>
                          Some (String (Ascii.ascii_of_nat (16 * a + b)) body, rest)
                      | None => None
                      end
                  | _, _, _, _ => None
                  end
              | _ => None
              end
            else None
        | EmptyString => None
        end
      else if n <? 32 then None
      else
        match scan_string s' with
        | Some (body, rest) => Some (String c body, rest)
        | None => None
        end
  end.

(** [sys.int_info.default_max_str_digits]: [int] refuses, with a
    [ValueError], to convert a literal of more digits. *)
Definition max_str_digits : nat := 4300.

(** A number: an optional minus sign, an integer part (a single 0, or digits
    not starting with 0), an optional fraction and an optional exponent; an
    [int] without fraction and exponent, a [float] with one of them. *)
Definition scan_number (s : string) : outcome (value * string) :=
  let '(neg, s1) :=
    match s with
    | String "-"%char s' => (true, s')
    | _ => (false, s)
    end in
  let '(int_part, s2) :=
    match s1 with
    | String "0"%char s' => ("0", s')
    | _ => digits s1
    end in
  match int_part with
  | EmptyString => Raise JSONDecodeError
  | _ =>
      let '(frac, s3) :=
        match s2 with
        | String "."%char s' =>
            match digits s' with
            | (EmptyString, _) => (EmptyString, s2)
            | (d, rest) => (String "."%char d, rest)
            end
        | _ => (EmptyString, s2)
        end in
      let '(exp, s4) :=
        match s3 with
        | String e s' =>
            if (Ascii.eqb e "e"%char || Ascii.eqb e "E"%char)%bool then
              let '(sign, s'') :=
                match s' with
                | String "+"%char t => ("+", t)
                | String "-"%char t => ("-", t)
                | _ => (EmptyString, s')
                end in
              match digits s'' with
              | (EmptyString, _) => (EmptyString, s3)
              | (d, rest) => (String e (sign +:+ d), rest)
              end
            else (EmptyString, s3)
        | EmptyString => (EmptyString, s3)
        end in
      let sign := if neg then "-" else EmptyString in
      match frac, exp with
      | EmptyString, EmptyString =>
          if max_str_digits <? String.length int_part
          then Raise (ValueError "Exceeds the limit (4300 digits) for integer string conversion")
          else
            let n := Z.of_N (nat_of_digits 0 int_part) in
            Return (VInt (if neg then - n else n)%Z, s4)
      | _, _ => Return (VFloat (sign +:+ int_part +:+ frac +:+ exp), s4)
      end
  end.

(** One JSON value at the head of [s]; [fuel] bounds the nesting depth and
    the number of members.  The first error met ends the scan. *)
Fixpoint scan_value (fuel : nat) (s : string) : outcome (value * string) :=
  match fuel with
  | O => Raise JSONDecodeError
  | S fuel =>
      let fix scan_items (n : nat) (s : string) : outcome (list value * string) :=
        match n with
        | O => Raise JSONDecodeError
        | S n =>
            match scan_value fuel s with
            | Return (v, rest) =>
                match skip_ws rest with
                | String "]"%char rest' => Return ([v], rest')
                | String ","%char rest' =>
                    match scan_items n (skip_ws rest') with
                    | Return (vs, rest'') => Return (v :: vs, rest'')
                    | Raise e => Raise e
                    end
                | _ => Raise JSONDecodeError
                end
            | Raise e => Raise e
            end
        end in
      let fix scan_members (n : nat) (s : string)
          : outcome (list (string * value) * string) :=
        match n with
        | O => Raise JSONDecodeError
        | S n =>
            match s with
            | String q s1 =>
                if Ascii.nat_of_ascii q =? 34 then
                  match scan_string s1 with
                  | Some (key, s2) =>
                      match skip_ws s2 with
                      | String ":"%char s3 =>
                          match scan_value fuel (skip_ws s3) with
                          | Return (v, s4) =>
                              match skip_ws s4 with
                              | String "}"%char rest => Return ([(key, v)], rest)
                              | String ","%char rest =>
                                  match scan_members n (skip_ws rest) with
                                  | Return (kvs, rest') => Return ((key, v) :: kvs, rest')
                                  | Raise e => Raise e
                                  end
                              | _ => Raise JSONDecodeError
                              end
                          | Raise e => Raise e
                          end
                      | _ => Raise JSONDecodeError
                      end
                  | None => Raise JSONDecodeError
                  end
                else Raise JSONDecodeError
            | EmptyString => Raise JSONDecodeError
            end
        end in
      if String.prefix "null" s then Return (VNone, Str.drop 4 s)
      else if String.prefix "true" s then Return (VBool true, Str.drop 4 s)
      else if String.prefix "false" s then Return (VBool false, Str.drop 5 s)
      else if String.prefix "NaN" s then Return (VFloat "NaN", Str.drop 3 s)
      else if String.prefix "Infinity" s then Return (VFloat "Infinity", Str.drop 8 s)
      else if String.prefix "-Infinity" s then Return (VFloat "-Infinity", Str.drop 9 s)
      else
        match s with
        | String "["%char s' =>
            match skip_ws s' with
            | String "]"%char rest => Return (VList [], rest)
            | s'' =>
                match scan_items (String.length s) s'' with
                | Return (vs, rest) => Return (VList vs, rest)
                | Raise e => Raise e
                end
            end
        | String "{"%char s' =>
            match skip_ws s' with
            | String "}"%char rest => Return (VDict [], rest)
            | s'' =>
                match scan_members (String.length s) s'' with
                | Return (kvs, rest) =>
                    Return (VDict (fold_left (fun d kv => dict_set d (fst kv) (snd kv)) kvs []),
                            rest)
                | Raise e => Raise e
                end
            end
        | String q s' =>
            if Ascii.nat_of_ascii q =? 34 then
              match scan_string s' with
              | Some (body, rest) => Return (VStr body, rest)
              | None => Raise JSONDecodeError
              end
            else scan_number s
        | EmptyString => Raise JSONDecodeError
        end
  end.

(** One value, surrounded by white space only. *)
Definition decode (s : string) : outcome value :=
  match scan_value (S (String.length s)) (skip_ws s) with
  | Return (v, rest) =>
      match skip_ws rest with
      | EmptyString => Return v
      | _ => Raise JSONDecodeError
      end
  | Raise e => Raise e
  end.

(** [json.loads(s)] for a string [s]: the decoded value, [JSONDecodeError]
    for a text that is not JSON, [ValueError] for an integer literal beyond
    the digit limit. *)
Definition loads (s : string) : outcome value := decode s.

End Json.

(** ** Parsing the final message ([src/utils/parsing.py], [src/main.py]) *)

Module Parsing.
Section parsing.
(** [json.loads]. *)
Variable json_loads : string -> outcome value.

(** [parse_json_response]. *)
Definition parse_json_response (response_content : value) : outcome value :=
  match response_content with
  | VStr s =>
      try_except
        (json_loads s)
        (fun e =>
           match e with
           | JSONDecodeError => Return VNone
           | _ => Return VNone
           end)
  | _ => Return VNone
  end.

(** The end of [run_hedge_fund]: the [decisions] field of the returned
    dictionary, from the content of the last message of the final state. *)
Definition run_hedge_fund_decisions (content : value) : outcome value :=
  do parsed_response <- parse_json_response content;
  Return (match parsed_response with
          | VDict entries => default VNone (dict_get entries "decisions")
          | _ => VNone
          end).

End parsing.
End Parsing.

(** ** The resilient invoker ([src/utils/llm.py]) *)

Module Llm.

(** The options of a [Literal[...]] annotation. *)
Inductive literal : Type :=
  | LStr (s : string)
  | LInt (n : Z)
  | LBool (b : bool)
  | LNone.

Definition literal_value (l : literal) : value :=
  match l with
  | LStr s => VStr s
  | LInt n => VInt n
  | LBool b => VBool b
  | LNone => VNone
  end.

(** The annotation of a schema field, by what [create_default_response]
    asks of it: equality with [str], [float], [int]; [__origin__] (present
    on [ADict], [AList], [AOptional], [ALiteral]; [dict] for [ADict] only);
    [__args__] (present on the same four). *)
Inductive annotation : Type :=
  | AStr
  | AFloat
  | AInt
  | ABool
  | AAny
  | ADict (key val : annotation)
  | AList (elem : annotation)
  | AOptional (arg : annotation)
  | ALiteral (first : literal) (others : list literal).

(** The printed name of the class object an annotation denotes. *)
Fixpoint class_name (a : annotation) : string :=
  match a with
  | AStr => "str"
  | AFloat => "float"
  | AInt => "int"
  | ABool => "bool"
  | AAny => "Any"
  | ADict k v => "dict[" +:+ class_name k +:+ ", " +:+ class_name v +:+ "]"
  | AList e => "list[" +:+ class_name e +:+ "]"
  | AOptional a => "Optional[" +:+ class_name a +:+ "]"
  | ALiteral _ _ => "Literal"
  end.

(** [model_class.model_fields.items()]: field names with their annotations. *)
Definition schema : Type := list (string * annotation).

(** A model instance: its field values, in the order of the fields. *)
Definition instance : Type := list (string * value).

Definition literal_matches (v : value) (l : literal) : bool :=
  match v, l with
  | VStr s, LStr s' => String.eqb s s'
  | VInt n, LInt n' => Z.eqb n n'
  | VBool b, LBool b' => Bool.eqb b b'
  | VNone, LNone => true
  | _, _ => false
  end.

(** pydantic's validation of one field value.  A value has to be of the
    field's type already ([int] also serves a [float] field).  Not modelled:
    the conversions of pydantic's lax mode, which also takes the text of a
    number for a number field, and which stores as a float the [int] given
    for a [float] field.  On the values [create_default_response]
    synthesizes the two agree. *)
Fixpoint accepts (a : annotation) (v : value) {struct a} : bool :=
  match a, v with
  | AStr, VStr _ => true
  | AFloat, VFloat _ => true
  | AFloat, VInt _ => true
  | AInt, VInt _ => true
  | ABool, VBool _ => true
  | AAny, _ => true
  | ADict k val, VDict entries =>
      forallb (fun kv => accepts k (VStr (fst kv)) && accepts val (snd kv)) entries
  | AList e, VList items => forallb (accepts e) items
  | AOptional _, VNone => true
  | AOptional a', _ => accepts a' v
  | ALiteral l ls, _ => existsb (literal_matches v) (l :: ls)
  | _, _ => false
  end.

(** The call of a model class on keyword arguments: every field is required
    and validated; keys that name no field are ignored. *)
Fixpoint construct (fields : schema) (kwargs : list (string * value)) : outcome instance :=
  match fields with
  | [] => Return []
  | (field_name, a) :: rest =>
      match dict_get kwargs field_name with
      | Some v =>
          if accepts a v
          then do tl <- construct rest kwargs; Return ((field_name, v) :: tl)
          else Raise ValidationError
      | None => Raise ValidationError
      end
  end.

(** The call of [pydantic_model] on the unpacked [parsed_result]: a
    [TypeError] unless [parsed_result] is a mapping. *)
Definition construct_from (fields : schema) (parsed_result : value) : outcome instance :=
  match parsed_result with
  | VDict entries => construct fields entries
  | _ => Raise TypeError
  end.

(** An instance conforms to a schema when it holds, field by field, a value
    its annotation accepts. *)
Definition conforms (fields : schema) (inst : instance) : Prop :=
  Forall2 (fun f kv => fst f = fst kv /\ accepts (snd f) (snd kv) = true) fields inst.

(** The body of the loop of [create_default_response] for one field. *)
Definition default_value (a : annotation) : value :=
  match a with
  | AStr => VStr "Error in analysis, using default"
  | AFloat => VFloat "0.0"
  | AInt => VInt 0
  | ADict _ _ => VDict []
  | ALiteral first _ => literal_value first
  | AList e => VClass (class_name e)
  | AOptional a' => VClass (class_name a')
  | ABool | AAny => VNone
  end.

(** The dictionary [default_values] once the loop is over. *)
Definition default_values (model_class : schema) : list (string * value) :=
  fold_left (fun d f => dict_set d (fst f) (default_value (snd f))) model_class [].

(** [create_default_response]. *)
Definition create_default_response (model_class : schema) : outcome instance :=
  construct model_class (default_values model_class).

(** [re.sub] of the non-greedy pattern for a [think] element (DOTALL) by the
    empty string: at each opening tag that has a closing tag after it, the
    text up to and including the first such closing tag is dropped; [skip]
    counts the code points still to drop. *)
Fixpoint strip_think (skip : nat) (s : string) : string :=
  match s with
  | EmptyString => EmptyString
  | String c s' =>
      match skip with
      | S k => strip_think k s'
      | O =>
          if String.prefix "<think>" s then
            match Str.find "</think>" (Str.drop 7 s) with
            | Some j => strip_think (7 + j + 8 - 1) s'
            | None => s
            end
          else String c (strip_think 0 s')
      end
  end.

Section invoker.
(** [json.loads]. *)
Variable json_loads : string -> outcome value.

(** The text between the first opening fence tagged json and the next fence. *)
Definition fenced_json (content : string) : option string :=
  match Str.find "```json" content with
  | Some json_start =>
      let json_text_start := Str.drop (json_start + 7) content in
      match Str.find "```" json_text_start with
      | Some json_end => Some (Str.strip (Str.take json_end json_text_start))
      | None => None
      end
  | None => None
  end.

(** The inner [try] around the fenced block: [Some v] is [return v];
    [None] is the fall through after [JSONDecodeError]; any other exception
    goes on to the outer handler. *)
Definition try_block (json_text : string) : outcome (option value) :=
  try_except
    (do v <- json_loads json_text; Return (Some v))
    (fun e =>
       match e with
       | JSONDecodeError => Return None
       | _ => Raise e
       end).

(** The [try] around the whole content. *)
Definition try_content (content : string) : outcome value :=
  try_except
    (json_loads content)
    (fun e =>
       match e with
       | JSONDecodeError => Return VNone
       | _ => Raise e
       end).

(** [extract_json_from_response]; [VNone] is Python's [None]. *)
Definition extract_json_from_response (content : string) : value :=
  let content := Str.strip (strip_think 0 content) in
  let body :=
    do returned <-
      match fenced_json content with
      | Some json_text => try_block json_text
      | None => Return None
      end;
    match returned with
    | Some v => Return v
    | None => try_content content
    end in
  match body with
  | Return r => r
  | Raise _ => VNone
  end.

(** [get_model_info] of [src/llm/models.py] (not among the sources): only
    [has_json_mode()] of its result is used. *)
Record model_info : Type := { has_json_mode : bool }.

(** The model provider: what [llm.invoke(prompt)] does on the attempt of a
    given number - for the plain model, the content of the message it
    returns; for the model wrapped by [with_structured_output], the
    instance it returns. *)
Record provider : Type := {
  invoke_text : string -> nat -> outcome string;
  invoke_structured : string -> schema -> nat -> outcome instance
}.

Section call.
Variables (llm : provider) (info : option model_info).
Variables (prompt : string) (pydantic_model : schema).
Variables (max_retries : nat) (default_factory : option (outcome instance)).

(** [model_info and not model_info.has_json_mode()]. *)
Definition manual_json : bool :=
  match info with
  | Some i => negb (has_json_mode i)
  | None => false
  end.

(** The body of the [try] of one attempt. *)
Definition attempt_once (attempt : nat) : outcome instance :=
  if manual_json then
    do content <- invoke_text llm prompt attempt;
    match extract_json_from_response content with
    | VNone => Raise (ValueError "Failed to parse JSON from LLM response")
    | parsed_result => construct_from pydantic_model parsed_result
    end
  else invoke_structured llm prompt pydantic_model attempt.

(** What is returned after the final failed attempt. *)
Definition fallback : outcome instance :=
  match default_factory with
  | Some made => made
  | None => create_default_response pydantic_model
  end.

(** The loop over [range(max_retries)]; the second component counts the
    calls of [llm.invoke]. *)
Fixpoint retry (attempts : list nat) (calls : nat) : outcome instance * nat :=
  match attempts with
  | [] => (create_default_response pydantic_model, calls)
  | attempt :: rest =>
      match attempt_once attempt with
      | Return result => (Return result, S calls)
      | Raise _ =>
          if attempt =? max_retries - 1 then (fallback, S calls)
          else retry rest (S calls)
      end
  end.

(** [call_llm]. *)
Definition call_llm : outcome instance * nat := retry (seq 0 max_retries) 0.

End call.
End invoker.
End Llm.

(** ** The workflow graph ([src/graph/builder.py]) *)

Module Graph.

(** langgraph's [END]. *)
Definition END : string := "__end__".

(** langgraph's [StateGraph], as far as the builder uses it: the nodes by
    name, in the order they were added; the edges that [add_edge] is called
    for, a set of pairs of names; and, apart from them, the key handed to
    [set_entry_point] - in langgraph one more edge, from [START] to the key
    (see [workflow_edges]).  The callable attached to a node plays no part in
    the shape of the graph and is left out. *)
Record StateGraph : Type := mkGraph {
  nodes : list string;
  edges : list (string * string);
  entry_point : option string
}.

(** [StateGraph(AgentState)]. *)
Definition new_graph : StateGraph := mkGraph [] [] None.

(** [add_node]: a name already present is refused. *)
Definition add_node (name : string) (workflow : StateGraph) : outcome StateGraph :=
  if decide (name ∈ nodes workflow) then Raise (ValueError "Node already present")
  else Return (mkGraph (nodes workflow ++ [name]) (edges workflow) (entry_point workflow)).

(** [add_edge]: adds the pair to the set of edges. *)
Definition add_edge (start_key end_key : string) (workflow : StateGraph) : StateGraph :=
  if decide ((start_key, end_key) ∈ edges workflow) then workflow
  else mkGraph (nodes workflow) (edges workflow ++ [(start_key, end_key)])
         (entry_point workflow).

(** [set_entry_point]: langgraph adds the edge from [START] to the key; it
    is the one edge kept in the field [entry_point], not in [edges]. *)
Definition set_entry_point (key : string) (workflow : StateGraph) : StateGraph :=
  mkGraph (nodes workflow) (edges workflow) (Some key).

Section builder.
(** The keys of [ANALYST_CONFIG] ([src/utils/analysts.py], not among the
    sources), in the order of the dictionary. *)
Variable ANALYST_CONFIG : list string.

(** The node name in [analyst_node_details[key]]. *)
Definition node_name (key : string) : string := key +:+ "_agent".

(** The list [agents_to_use] once the selection is processed. *)
Definition select_agents (selected_agents : option (list string)) : list string :=
  match selected_agents with
  | None => ANALYST_CONFIG
  | Some selected =>
      let agents_to_use := filter (fun agent => agent ∈ ANALYST_CONFIG) selected in
      match agents_to_use, selected with
      | [], _ :: _ => ANALYST_CONFIG
      | _, _ => agents_to_use
      end
  end.

(** The first loop: a node per analyst, and an edge to it from the start node. *)
Fixpoint add_analysts (agents_to_use : list string) (workflow : StateGraph)
    : outcome StateGraph :=
  match agents_to_use with
  | [] => Return workflow
  | agent_key :: rest =>
      do workflow <- add_node (node_name agent_key) workflow;
      add_analysts rest (add_edge "start_node" (node_name agent_key) workflow)
  end.

(** The second loop: an edge from every analyst to risk management. *)
Fixpoint connect_analysts (agents_to_use : list string) (workflow : StateGraph)
    : StateGraph :=
  match agents_to_use with
  | [] => workflow
  | agent_key :: rest =>
      connect_analysts rest (add_edge (node_name agent_key) "risk_management_agent" workflow)
  end.

(** [build_agent_workflow]. *)
Definition build_agent_workflow (selected_agents : option (list string))
    : outcome StateGraph :=
  do workflow <- add_node "start_node" new_graph;
  let agents_to_use := select_agents selected_agents in
  do workflow <- add_analysts agents_to_use workflow;
  do workflow <- add_node "risk_management_agent" workflow;
  do workflow <- add_node "portfolio_manager" workflow;
  let workflow := connect_analysts agents_to_use workflow in
  let workflow :=
    match agents_to_use with
    | [] => add_edge "start_node" "risk_management_agent" workflow
    | _ :: _ => workflow
    end in
  let workflow := add_edge "risk_management_agent" "portfolio_manager" workflow in
  let workflow := add_edge "portfolio_manager" END workflow in
  Return (set_entry_point "start_node" workflow).

End builder.

(** *** Reading a graph *)

Definition out_edges (g : StateGraph) (n : string) : list (string * string) :=
  filter (fun e => e.1 = n) (edges g).

Definition in_edges (g : StateGraph) (n : string) : list (string * string) :=
  filter (fun e => e.2 = n) (edges g).

(** The nodes every workflow has. *)
Definition fixed_nodes : list string :=
  ["start_node"; "risk_management_agent"; "portfolio_manager"].

(** The analysis nodes of a graph: all its other nodes. *)
Definition analysis_nodes (g : StateGraph) : list string :=
  filter (fun n => n ∉ fixed_nodes) (nodes g).

Definition edge (g : StateGraph) : relation string :=
  fun a b => (a, b) ∈ edges g.

(** langgraph's [START]. *)
Definition START : string := "__start__".

(** The set [workflow.edges] of langgraph: the edges added by [add_edge],
    and the edge from [START] that [set_entry_point] adds. *)
Definition workflow_edges (g : StateGraph) : list (string * string) :=
  edges g ++
  match entry_point g with
  | Some key => [(START, key)]
  | None => []
  end.

(** No node reaches itself along one or more edges. *)
Definition acyclic (g : StateGraph) : Prop := forall n, ~ tc (edge g) n n.

End Graph.

(** ** The fundamentals analyst ([src/agents/fundamentals.py]) *)

Module Fundamentals.

(** Floats are read as the rationals they denote, thresholds as the decimals
    written in the source, and the arithmetic on them is exact.  The
    interpreter rounds where this model does not: in the sums of the amounts
    of a year, in the product and the quotients that are compared with a
    threshold, and in a threshold whose decimal is no float (0.15, 0.20, 0.10,
    0.8, 0.03).  Which sub-signal a ticker gets can therefore differ, by a
    rounding, from the one the interpreter computes; what is proved of the
    analyst does not rest on it.  [Dividends], below, has the loop over the
    dividends with the arithmetic left open. *)
Definition gt (x y : Q) : bool := negb (Qle_bool x y).
Definition lt (x y : Q) : bool := negb (Qle_bool y x).
Definition ge (x y : Q) : bool := Qle_bool y x.

(** The truth value of an optional float: [None] and zero are false. *)
Definition truthy (x : option Q) : bool :=
  match x with
  | Some v => negb (Qeq_bool v 0%Q)
  | None => false
  end.

(** [metric is not None and metric > threshold]. *)
Definition above (metric : option Q) (threshold : Q) : bool :=
  match metric with
  | Some m => gt m threshold
  | None => false
  end.

(** [sum(... for metric, threshold in thresholds)]. *)
Definition score (thresholds : list (option Q * Q)) : nat :=
  length (filter (fun mt => above (fst mt) (snd mt) = true) thresholds).

(** The fields of the financial metrics the agent reads. *)
Record FinancialMetrics : Type := {
  return_on_equity : option Q;
  net_margin : option Q;
  operating_margin : option Q;
  revenue_growth : option Q;
  earnings_growth : option Q;
  book_value_growth : option Q;
  current_ratio : option Q;
  debt_to_equity : option Q;
  free_cash_flow_per_share : option Q;
  earnings_per_share : option Q;
  price_to_earnings_ratio : option Q;
  price_to_book_ratio : option Q;
  price_to_sales_ratio : option Q
}.

Record Dividend : Type := {
  dividend_type : string;
  cash_amount : Q;
  ex_dividend_date : string
}.

Record Price : Type := { close : Q }.

(** A line item of the annual search; [None] also when the attribute is
    missing. *)
Record LineItem : Type := { annual_earnings_per_share : option Q }.

(** The data provider ([src/tools/api.py], not among the sources); an empty
    list stands for no data. *)
Record api : Type := {
  get_financial_metrics : string -> string -> list FinancialMetrics;
  get_dividend_history : string -> list Dividend;
  get_prices : string -> string -> string -> list Price;
  search_line_items : string -> string -> list LineItem
}.

(** What the agent emits for a ticker; the formatted detail texts of the
    reasoning are left out, its five signals are kept. *)
Record entry : Type := {
  signal : string;
  confidence : Q;
  reasoning : list (string * string)
}.

(** [a if score >= 2 else b if score == 0 else "neutral"]. *)
Definition grade (high low : string) (n : nat) : string :=
  if 2 <=? n then high else if n =? 0 then low else "neutral".

Definition profitability_signal (metrics : FinancialMetrics) : string :=
  grade "bullish" "bearish"
    (score [ (return_on_equity metrics, (15 # 100)%Q);
             (net_margin metrics, (20 # 100)%Q);
             (operating_margin metrics, (15 # 100)%Q) ]).

Definition growth_signal (metrics : FinancialMetrics) : string :=
  grade "bullish" "bearish"
    (score [ (revenue_growth metrics, (10 # 100)%Q);
             (earnings_growth metrics, (10 # 100)%Q);
             (book_value_growth metrics, (10 # 100)%Q) ]).

Definition health_score (metrics : FinancialMetrics) : nat :=
  (if truthy (current_ratio metrics) && above (current_ratio metrics) (15 # 10)%Q
   then 1 else 0) +
  (if truthy (debt_to_equity metrics) &&
      match debt_to_equity metrics with Some d => lt d (5 # 10)%Q | None => false end
   then 1 else 0) +
  (if truthy (free_cash_flow_per_share metrics) && truthy (earnings_per_share metrics) &&
      match free_cash_flow_per_share metrics, earnings_per_share metrics with
      | Some f, Some e => gt f (e * (8 # 10))%Q
      | _, _ => false
      end
   then 1 else 0).

Definition financial_health_signal (metrics : FinancialMetrics) : string :=
  grade "bullish" "bearish" (health_score metrics).

Definition price_ratios_signal (metrics : FinancialMetrics) : string :=
  grade "bearish" "bullish"
    (score [ (price_to_earnings_ratio metrics, (25 # 1)%Q);
             (price_to_book_ratio metrics, (3 # 1)%Q);
             (price_to_sales_ratio metrics, (5 # 1)%Q) ]).

(** [dividends_by_year[year] += amount], the year entered with 0.0 first. *)
Fixpoint add_to_year (by_year : list (string * Q)) (year : string) (amount : Q)
    : list (string * Q) :=
  match by_year with
  | [] => [(year, (0 + amount)%Q)]
  | (y, total) :: rest =>
      if String.eqb y year then (y, (total + amount)%Q) :: rest
      else (y, total) :: add_to_year rest year amount
  end.

(** The loop over the dividend history. *)
Fixpoint group_by_year (dividend_history : list Dividend) (by_year : list (string * Q))
    : list (string * Q) :=
  match dividend_history with
  | [] => by_year
  | div :: rest =>
      if String.eqb (dividend_type div) "CD" && gt (cash_amount div) 0%Q &&
         negb (String.eqb (ex_dividend_date div) "")
      then group_by_year rest
             (add_to_year by_year (Str.take 4 (ex_dividend_date div)) (cash_amount div))
      else group_by_year rest by_year
  end.

(** [sorted(years, reverse=True)] on strings. *)
Fixpoint insert_desc (year : string) (sorted : list string) : list string :=
  match sorted with
  | [] => [year]
  | y :: rest => if String.leb y year then year :: sorted else y :: insert_desc year rest
  end.

Definition sorted_desc (years : list string) : list string :=
  fold_right insert_desc [] years.

Fixpoint lookup_year (by_year : list (string * Q)) (year : string) : Q :=
  match by_year with
  | [] => 0%Q
  | (y, total) :: rest => if String.eqb y year then total else lookup_year rest year
  end.

(** [latest_full_year_dividend_total]: the total of the latest year before the
    current one, or of the latest year at all when there is none. *)
Definition latest_total (by_year : list (string * Q)) (current_year_str : string) : Q :=
  let sorted_div_years := sorted_desc (fst <$> by_year) in
  match filter (fun year_s => String.ltb year_s current_year_str = true) sorted_div_years with
  | latest_full_div_year_str :: _ => lookup_year by_year latest_full_div_year_str
  | [] =>
      match sorted_div_years with
      | first :: _ => lookup_year by_year first
      | [] => 0%Q
      end
  end.

Definition dividend_score (total : Q) (current_price latest_annual_eps : option Q)
    (years : nat) : nat :=
  (if truthy current_price && gt total 0%Q &&
      match current_price with Some p => gt (total / p)%Q (3 # 100)%Q | None => false end
   then 1 else 0) +
  (if truthy latest_annual_eps && above latest_annual_eps 0%Q && gt total 0%Q &&
      match latest_annual_eps with
      | Some eps => ge (total / eps)%Q (25 # 100)%Q && ge (75 # 100)%Q (total / eps)%Q
      | None => false
      end
   then 1 else 0) +
  (if 3 <=? years then 1 else 0).

Definition dividend_signal (total : Q) (current_price latest_annual_eps : option Q)
    (years : nat) : string :=
  let n := dividend_score total current_price latest_annual_eps years in
  if 2 <=? n then "bullish"
  else if (n =? 0) && Qeq_bool total 0%Q then "bearish"
  else "neutral".

(** [signals.count(s)]. *)
Definition count (s : string) (signals : list string) : nat :=
  length (filter (fun x => x = s) signals).

(** [round(x, 2)]: to the nearest hundredth, ties to the even one. *)
Definition round2 (x : Q) : Q :=
  let scaled := (x * 100)%Q in
  let n := Qfloor scaled in
  let rest := (scaled - inject_Z n)%Q in
  let up := if Qle_bool rest (1 # 2)%Q
            then Qeq_bool rest (1 # 2)%Q && Z.odd n
            else true in
  (inject_Z (if up then n + 1 else n)%Z / 100)%Q.

(** The overall signal and the confidence, from the five signals. *)
Definition overall (signals : list string) (reasoning : list (string * string)) : entry :=
  let bullish_signals := count "bullish" signals in
  let bearish_signals := count "bearish" signals in
  let overall_signal :=
    if bearish_signals <? bullish_signals then "bullish"
    else if bullish_signals <? bearish_signals then "bearish"
    else "neutral" in
  let total_signals := length signals in
  {| signal := overall_signal;
     confidence :=
       (round2 (inject_Z (Z.of_nat (Nat.max bullish_signals bearish_signals))
                / inject_Z (Z.of_nat total_signals)) * 100)%Q;
     reasoning := reasoning |}.

Section agent.
(** The data provider. *)
Variable provider : api.
(** The year of a date in the format year-month-day, as [strptime] and [str]
    give it; [None] when [strptime] raises [ValueError]. *)
Variable year_of_date : string -> option string.

(** The dividend block: the total of the latest full year, and the number
    of distinct years with a cash dividend.  [strptime] is called only when
    there is a dividend history. *)
Definition dividend_summary (dividend_history : list Dividend) (end_date : string)
    : outcome (Q * nat) :=
  match dividend_history with
  | [] => Return (0%Q, 0)
  | _ :: _ =>
      match year_of_date end_date with
      | None => Raise (ValueError "time data does not match format")
      | Some current_year_str =>
          let dividends_by_year := group_by_year dividend_history [] in
          Return (latest_total dividends_by_year current_year_str, length dividends_by_year)
      end
  end.

(** The body of the loop for a ticker that has financial metrics. *)
Definition analyse (ticker end_date : string) (metrics : FinancialMetrics) : outcome entry :=
  let dividend_history := get_dividend_history provider ticker in
  let current_price :=
    match get_prices provider ticker end_date end_date with
    | first :: _ => Some (close first)
    | [] => None
    end in
  let latest_annual_eps :=
    match search_line_items provider ticker end_date with
    | first :: _ => annual_earnings_per_share first
    | [] => None
    end in
  do summary <- dividend_summary dividend_history end_date;
  let signals :=
    [ profitability_signal metrics;
      growth_signal metrics;
      financial_health_signal metrics;
      price_ratios_signal metrics;
      dividend_signal (fst summary) current_price latest_annual_eps (snd summary) ] in
  Return (overall signals
            (zip ["profitability_signal"; "growth_signal"; "financial_health_signal";
                  "price_ratios_signal"; "dividend_signal"] signals)).

(** The loop over the tickers: a ticker without financial metrics is passed
    over ([continue]). *)
Fixpoint analyse_all (tickers : list string) (end_date : string)
    (fundamental_analysis : gmap string entry) : outcome (gmap string entry) :=
  match tickers with
  | [] => Return fundamental_analysis
  | ticker :: rest =>
      match get_financial_metrics provider ticker end_date with
      | [] => analyse_all rest end_date fundamental_analysis
      | metrics :: _ =>
          do result <- analyse ticker end_date metrics;
          analyse_all rest end_date (<[ticker := result]> fundamental_analysis)
      end
  end.

(** [fundamentals_agent], on the tickers, the end date and the analyst signals
    of the state; it returns the analyst signals with its own entry set. *)
Definition fundamentals_agent (tickers : list string) (end_date : string)
    (analyst_signals : gmap string (gmap string entry))
    : outcome (gmap string (gmap string entry)) :=
  do fundamental_analysis <- analyse_all tickers end_date ∅;
  Return (<["fundamentals_agent" := fundamental_analysis]> analyst_signals).

End agent.
End Fundamentals.

(** ** The command line ([src/main.py]) *)

Module Main.

(** [s.split(",")]: the segments between the commas, the empty ones
    included; the empty string has one, empty, segment. *)
Fixpoint split_comma (s : string) : list string :=
  match s with
  | EmptyString => [EmptyString]
  | String c s' =>
      if Ascii.eqb c ","%char then EmptyString :: split_comma s'
      else match split_comma s' with
           | segment :: rest => String c segment :: rest
           | [] => [String c EmptyString]
           end
  end.

(** The list [tickers] of the command line: every segment of the argument,
    stripped. *)
Definition parse_tickers (tickers : string) : list string :=
  Str.strip <$> split_comma tickers.

End Main.

(** ** The yearly dividend totals, in floats ([src/agents/fundamentals.py]) *)

(** The loop that files the dividends of a history under their years, once
    more, with the arithmetic of the amounts left open: [F] stands for the
    floats of the interpreter, [add] for their addition - which rounds -,
    [zero] for 0.0 and [is_positive] for the comparison with 0.0.  Nothing is
    assumed of them; with the rationals and their addition the loop is
    [Fundamentals.group_by_year]. *)
Module Dividends.
Section loop.
Context {D F : Type}.
Variables (dividend_type : D -> string) (cash_amount : D -> F)
  (ex_dividend_date : D -> string).
Variables (zero : F) (add : F -> F -> F) (is_positive : F -> bool).

(** [dividends_by_year[year] += amount], the year entered with 0.0 first. *)
Fixpoint add_to_year (by_year : list (string * F)) (year : string) (amount : F)
    : list (string * F) :=
  match by_year with
  | [] => [(year, add zero amount)]
  | (y, total) :: rest =>
      if String.eqb y year then (y, add total amount) :: rest
      else (y, total) :: add_to_year rest year amount
  end.

(** The condition under which the loop counts a dividend. *)
Definition counted (div : D) : bool :=
  String.eqb (dividend_type div) "CD" && is_positive (cash_amount div) &&
  negb (String.eqb (ex_dividend_date div) "").

(** The loop over the dividend history. *)
Fixpoint group_by_year (dividend_history : list D) (by_year : list (string * F))
    : list (string * F) :=
  match dividend_history with
  | [] => by_year
  | div :: rest =>
      if counted div
      then group_by_year rest
             (add_to_year by_year (Str.take 4 (ex_dividend_date div)) (cash_amount div))
      else group_by_year rest by_year
  end.

(** [dividends_by_year.get(year)]. *)
Fixpoint get (by_year : list (string * F)) (year : string) : option F :=
  match by_year with
  | [] => None
  | (y, total) :: rest => if String.eqb y year then Some total else get rest year
  end.

End loop.
End Dividends.

(* ===================================================================== *)
(** * Properties *)
(* ===================================================================== *)

Lemma bind_Return {A B} (m : outcome A) (k : A -> outcome B) (b : B) :
  bind m k = Return b -> exists a, m = Return a /\ k a = Return b.
Proof. destruct m as [a|e]; simpl; [eauto | discriminate]. Qed.

Lemma filter_drop_all {A} (P : A -> Prop) `{forall x, Decision (P x)} (l : list A) :
  (forall x, x ∈ l -> ~ P x) -> filter P l = [].
Proof.
  induction l as [|x l IH]; intros Hl; [done|].
  rewrite filter_cons_False by (apply Hl; left).
  apply IH. intros y Hy. apply Hl. by right.
Qed.

Lemma filter_keep_all {A} (P : A -> Prop) `{forall x, Decision (P x)} (l : list A) :
  (forall x, x ∈ l -> P x) -> filter P l = l.
Proof.
  induction l as [|x l IH]; intros Hl; [done|].
  rewrite filter_cons_True by (apply Hl; left).
  f_equal. apply IH. intros y Hy. apply Hl. by right.
Qed.

(** ** The incremental cache *)

Module CacheFacts.
Import Cache.
Section facts.
Context {V : Type} `{EqDecision V}.
Implicit Types (item : gmap string V) (items data old : list (gmap string V)).
Implicit Types (self : Cache V) (kf ticker : string) (k : kind).

Definition present kf item : Prop := is_Some (item !! kf).
Definition absent kf item : Prop := item !! kf = None.

(** The records of [data] whose key does not occur among the keys of [old]. *)
Definition unseen kf old data : list (gmap string V) :=
  filter (fun item => item !! kf ∉ (fun o : gmap string V => o !! kf) <$> old) data.

Lemma present_or_absent kf items :
  Forall (present kf) items \/ Exists (absent kf) items.
Proof.
  induction items as [|item rest [IH|IH]]; [left; constructor | |].
  - destruct (item !! kf) as [v|] eqn:E.
    + left. constructor; [by exists v | done].
    + right. by left.
  - right. by right.
Qed.

Lemma key_set_present kf items :
  Forall (present kf) items ->
  exists ks, key_set kf items = Return ks /\
             (fun o : gmap string V => o !! kf) <$> items = Some <$> ks.
Proof.
  induction 1 as [|item rest [v Hv] _ (ks & IH1 & IH2)]; [by exists []|].
  exists (v :: ks). cbn. unfold getitem. rewrite Hv. cbn. rewrite IH1. cbn.
  split; [done|]. by rewrite IH2.
Qed.

Lemma key_set_absent kf items :
  Exists (absent kf) items -> key_set kf items = Raise (KeyError kf).
Proof.
  induction 1 as [item rest Hx|item rest _ IH]; cbn; unfold getitem.
  - by rewrite Hx.
  - destruct (item !! kf); [cbn; by rewrite IH | done].
Qed.

Lemma fresh_items_present kf ks old data :
  (fun o : gmap string V => o !! kf) <$> old = Some <$> ks ->
  Forall (present kf) data ->
  fresh_items kf ks data = Return (unseen kf old data).
Proof.
  intros Hks. induction 1 as [|item rest [v Hv] _ IH]; [done|].
  unfold unseen in *. rewrite filter_cons, Hks, Hv.
  cbn [fresh_items]. unfold getitem. rewrite Hv. cbn [bind]. rewrite IH, Hks. cbn [bind].
  f_equal.
  destruct (decide (v ∈ ks)) as [Hin|Hin].
  - rewrite decide_False; [done|]. intros Hn. apply Hn.
    by apply list_elem_of_fmap_2.
  - rewrite decide_True; [done|]. intros (v' & [= ->] & Hv')%list_elem_of_fmap. done.
Qed.

Lemma fresh_items_absent kf ks data :
  Exists (absent kf) data -> fresh_items kf ks data = Raise (KeyError kf).
Proof.
  induction 1 as [item rest Hx|item rest _ IH]; cbn; unfold getitem.
  - by rewrite Hx.
  - destruct (item !! kf); [cbn; by rewrite IH | done].
Qed.

(** Nothing cached (or an empty list cached): the new list is taken as is. *)
Lemma merge_falsy existing data kf :
  falsy existing = true -> _merge_data existing data kf = Return data.
Proof. unfold _merge_data. by intros ->. Qed.

(** A non-empty list cached, every record carrying the field. *)
Lemma merge_present old data kf :
  old <> [] -> Forall (present kf) old -> Forall (present kf) data ->
  _merge_data (Some old) data kf = Return (old ++ unseen kf old data).
Proof.
  intros Hne Hold Hdata. unfold _merge_data.
  destruct old as [|o old']; [done|]. simpl falsy; simpl default.
  destruct (key_set_present _ _ Hold) as (ks & -> & Hks). cbn [bind].
  by rewrite (fresh_items_present _ _ _ _ Hks Hdata).
Qed.

(** A non-empty list cached, some record (old or new) without the field. *)
Lemma merge_absent old data kf :
  old <> [] -> Exists (absent kf) (old ++ data) ->
  _merge_data (Some old) data kf = Raise (KeyError kf).
Proof.
  intros Hne Hex. unfold _merge_data.
  destruct old as [|o old']; [done|]. simpl falsy; simpl default.
  destruct (present_or_absent kf (o :: old')) as [Hold|Hold].
  - destruct (key_set_present _ _ Hold) as (ks & -> & _). cbn [bind].
    apply Exists_app in Hex as [Hex|Hex].
    + exfalso. apply Exists_exists in Hex as (x & Hx & Hn).
      rewrite Forall_forall in Hold. destruct (Hold x Hx) as [v Hv].
      unfold absent in Hn. congruence.
    + by rewrite (fresh_items_absent _ _ _ Hex).
  - by rewrite (key_set_absent _ _ Hold).
Qed.

(** The cache after the assignment [self._<kind>_cache[ticker] = merged]. *)
Definition store k self ticker (merged : list (gmap string V)) : Cache V :=
  match k with
  | Prices =>
      mkCache (<[ticker := merged]> (_prices_cache self))
        (_financial_metrics_cache self) (_line_items_cache self)
        (_insider_trades_cache self) (_company_news_cache self) (_dividends_cache self)
  | FinancialMetrics =>
      mkCache (_prices_cache self)
        (<[ticker := merged]> (_financial_metrics_cache self)) (_line_items_cache self)
        (_insider_trades_cache self) (_company_news_cache self) (_dividends_cache self)
  | LineItems =>
      mkCache (_prices_cache self) (_financial_metrics_cache self)
        (<[ticker := merged]> (_line_items_cache self))
        (_insider_trades_cache self) (_company_news_cache self) (_dividends_cache self)
  | InsiderTrades =>
      mkCache (_prices_cache self) (_financial_metrics_cache self) (_line_items_cache self)
        (<[ticker := merged]> (_insider_trades_cache self))
        (_company_news_cache self) (_dividends_cache self)
  | CompanyNews =>
      mkCache (_prices_cache self) (_financial_metrics_cache self) (_line_items_cache self)
        (_insider_trades_cache self)
        (<[ticker := merged]> (_company_news_cache self)) (_dividends_cache self)
  | Dividends =>
      mkCache (_prices_cache self) (_financial_metrics_cache self) (_line_items_cache self)
        (_insider_trades_cache self) (_company_news_cache self)
        (<[ticker := merged]> (_dividends_cache self))
  end.

Lemma set_unfold k self ticker data :
  set k self ticker data =
  do merged <- _merge_data (get k self ticker) data (key_field k);
  Return (store k self ticker merged).
Proof. by destruct k. Qed.

Lemma get_store_eq k self ticker merged :
  get k (store k self ticker merged) ticker = Some merged.
Proof. destruct k; apply lookup_insert_eq. Qed.

Lemma get_store_ne k k' self ticker ticker' merged :
  (k', ticker') <> (k, ticker) ->
  get k' (store k self ticker merged) ticker' = get k' self ticker'.
Proof.
  intros Hne. destruct k, k'; try reflexivity;
    apply lookup_insert_ne; congruence.
Qed.

Lemma store_store k self ticker merged merged' :
  store k (store k self ticker merged) ticker merged' = store k self ticker merged'.
Proof. destruct k; cbn; f_equal; apply insert_insert_eq. Qed.

Lemma unseen_sublist kf old data : unseen kf old data `sublist_of` data.
Proof. apply sublist_filter. Qed.

Lemma unseen_present kf old data :
  Forall (present kf) data -> Forall (present kf) (unseen kf old data).
Proof.
  rewrite !Forall_forall. intros Hd x Hx. apply Hd.
  eapply elem_of_sublist; [done | apply unseen_sublist].
Qed.

(** Once merged, nothing of [data] is unseen any more. *)
Lemma unseen_after_merge kf old data :
  unseen kf (old ++ unseen kf old data) data = [].
Proof.
  apply filter_drop_all. intros x Hx Hnot. apply Hnot. rewrite fmap_app, elem_of_app.
  destruct (decide (x !! kf ∈ (fun o : gmap string V => o !! kf) <$> old)) as [Hin|Hin];
    [by left|right].
  apply list_elem_of_fmap_2. by apply list_elem_of_filter.
Qed.

Lemma unseen_self kf data : unseen kf data data = [].
Proof.
  apply filter_drop_all. intros x Hx Hnot. apply Hnot.
  by apply list_elem_of_fmap_2.
Qed.

Lemma falsy_false (existing : option (list (gmap string V))) :
  falsy existing = false -> exists old, existing = Some old /\ old <> [].
Proof. destruct existing as [[|o old]|]; try discriminate. by exists (o :: old). Qed.

Lemma falsy_true (existing : option (list (gmap string V))) :
  falsy existing = true -> default [] existing = [].
Proof. by destruct existing as [[|o old]|]. Qed.

(** What a successful merge returns. *)
Lemma merge_Return existing data kf merged :
  _merge_data existing data kf = Return merged ->
  (falsy existing = true /\ merged = data) \/
  (exists old, existing = Some old /\ old <> [] /\
     Forall (present kf) old /\ Forall (present kf) data /\
     merged = old ++ unseen kf old data).
Proof.
  destruct (falsy existing) eqn:F.
  - rewrite (merge_falsy _ _ _ F). intros [= <-]. by left.
  - apply falsy_false in F as (old & -> & Hne). intros Hm. right.
    exists old. split; [done|]. split; [done|].
    destruct (present_or_absent kf (old ++ data)) as [Hp|Ha].
    + apply Forall_app in Hp as [Ho Hd].
      rewrite (merge_present _ _ _ Hne Ho Hd) in Hm. by injection Hm as <-.
    + by rewrite (merge_absent _ _ _ Hne Ha) in Hm.
Qed.

(** *** Entries stay duplicate-free when every batch is *)

(** A batch of new records that repeats no uniqueness-field value. *)
Definition batch_distinct (op : set_op V) : Prop :=
  let '(k, _, data) := op in NoDup (key_values k data).

(** A batch of new records that all carry the uniqueness field. *)
Definition batch_keyed (op : set_op V) : Prop :=
  let '(k, _, data) := op in Forall (has_key k) data.

Definition entries_distinct self : Prop :=
  forall k ticker items, get k self ticker = Some items -> NoDup (key_values k items).

Definition entries_keyed self : Prop :=
  forall k ticker items, get k self ticker = Some items -> Forall (has_key k) items.

Lemma get_init k ticker : get k (init : Cache V) ticker = None.
Proof.
  destruct k; unfold get, get_prices, get_financial_metrics, get_line_items,
    get_insider_trades, get_company_news, get_dividends, init; cbn;
    by rewrite lookup_empty.
Qed.

Lemma key_values_unseen k old data :
  NoDup (key_values k old) -> NoDup (key_values k data) ->
  NoDup (key_values k (old ++ unseen (key_field k) old data)).
Proof.
  intros Ho Hd. unfold key_values. rewrite fmap_app. apply NoDup_app.
  split; [done|]. split.
  - intros x Hx (item & -> & Hitem)%list_elem_of_fmap.
    by apply list_elem_of_filter in Hitem as [Hnot _].
  - eapply sublist_NoDup; [exact Hd|]. apply fmap_sublist, unseen_sublist.
Qed.

(** An entry of the cache after a store is the stored list or an old entry. *)
Lemma get_store_cases k k' self ticker ticker' merged items :
  get k' (store k self ticker merged) ticker' = Some items ->
  (k' = k /\ items = merged) \/ get k' self ticker' = Some items.
Proof.
  destruct (decide ((k', ticker') = (k, ticker))) as [[= -> ->]|Hne].
  - rewrite get_store_eq. intros [= <-]. by left.
  - rewrite get_store_ne by done. by right.
Qed.

Lemma set_distinct k self ticker data self' :
  entries_distinct self -> NoDup (key_values k data) ->
  set k self ticker data = Return self' -> entries_distinct self'.
Proof.
  intros Hself Hnd. rewrite set_unfold. intros (merged & Hm & [= <-])%bind_Return.
  intros k' ticker' items [[-> ->]|Hold]%get_store_cases; [|by apply (Hself k' ticker')].
  apply merge_Return in Hm as [[_ ->]|(old & Hget & _ & _ & _ & ->)]; [done|].
  apply key_values_unseen; [|done]. by apply (Hself k ticker).
Qed.

Lemma run_sets_distinct ops self self' :
  entries_distinct self -> Forall batch_distinct ops ->
  run_sets ops self = Return self' -> entries_distinct self'.
Proof.
  intros Hself Hops. revert self Hself.
  induction Hops as [|[[k ticker] data] ops Hop _ IH]; intros self Hself; cbn.
  - by intros [= <-].
  - intros (self1 & H1 & Hrest)%bind_Return.
    apply (IH self1); [|done]. by apply (set_distinct k self ticker data).
Qed.

Lemma set_keyed k self ticker data :
  entries_keyed self -> Forall (has_key k) data ->
  exists self', set k self ticker data = Return self' /\ entries_keyed self'.
Proof.
  intros Hself Hkeys. rewrite set_unfold.
  assert (exists merged, _merge_data (get k self ticker) data (key_field k) = Return merged /\
            Forall (has_key k) merged) as (merged & -> & Hm).
  { destruct (falsy (get k self ticker)) eqn:F.
    - exists data. by rewrite merge_falsy.
    - apply falsy_false in F as (old & Hget & Hne).
      pose proof (Hself _ _ _ Hget) as Ho. rewrite Hget.
      exists (old ++ unseen (key_field k) old data).
      split; [by apply merge_present|].
      apply Forall_app. split; [done|]. by apply unseen_present. }
  eexists. split; [done|].
  intros k' ticker' items [[-> ->]|Hold]%get_store_cases; [done|].
  by apply (Hself k' ticker').
Qed.

Lemma run_sets_keyed ops self :
  entries_keyed self -> Forall batch_keyed ops ->
  exists self', run_sets ops self = Return self'.
Proof.
  intros Hself Hops. revert self Hself.
  induction Hops as [|[[k ticker] data] ops Hop _ IH]; intros self Hself; [by exists self|].
  destruct (set_keyed k self ticker data Hself Hop) as (self1 & E & H1).
  cbn. rewrite E. cbn. by apply IH.
Qed.

Lemma set_appends k self ticker data self' :
  set k self ticker data = Return self' ->
  exists fresh, get k self' ticker = Some (default [] (get k self ticker) ++ fresh) /\
                fresh `sublist_of` data.
Proof.
  rewrite set_unfold. intros (merged & Hm & [= <-])%bind_Return.
  rewrite get_store_eq.
  apply merge_Return in Hm as [[F ->]|(old & -> & _ & _ & _ & ->)].
  - exists data. by rewrite (falsy_true _ F).
  - exists (unseen (key_field k) old data). split; [done|]. apply unseen_sublist.
Qed.

(** C2 (as amended): starting from a fresh cache, when no batch handed to a
    setter repeats a uniqueness-field value, every sequence of set operations
    that completes leaves every entry without two records of the same
    uniqueness-field value - and it completes when the records of every batch
    carry the field.  Every successful set keeps the records already
    stored, in their order, and appends a subsequence of the new records after
    them. *)
Theorem set_keeps_entries_unique (ops : list (set_op V)) :
  Forall batch_distinct ops ->
  (forall self, run_sets ops init = Return self ->
     forall k ticker items, get k self ticker = Some items -> NoDup (key_values k items)) /\
  (Forall batch_keyed ops -> exists self, run_sets ops init = Return self) /\
  (forall k self ticker data self',
     set k self ticker data = Return self' ->
     exists fresh, get k self' ticker = Some (default [] (get k self ticker) ++ fresh) /\
                   fresh `sublist_of` data).
Proof.
  intros Hops. split; [|split].
  - intros self Hrun. apply (run_sets_distinct ops init self); [|done..].
    intros k ticker items. by rewrite get_init.
  - intros Hkeyed. apply run_sets_keyed; [|done].
    intros k ticker items. by rewrite get_init.
  - apply set_appends.
Qed.

(** C3: with every new record carrying the uniqueness field, setting the same
    list twice is the same as setting it once - the same final cache, or the
    same exception out of the first call. *)
Theorem set_idempotent k self ticker data :
  Forall (has_key k) data ->
  (do self1 <- set k self ticker data; set k self1 ticker data) = set k self ticker data.
Proof.
  intros Hdata. rewrite set_unfold.
  destruct (_merge_data (get k self ticker) data (key_field k)) as [merged|e] eqn:Hm; [|done].
  cbn [bind]. rewrite set_unfold, get_store_eq.
  assert (_merge_data (Some merged) data (key_field k) = Return merged) as ->.
  { apply merge_Return in Hm as [[F ->]|(old & E & Hne & Ho & Hd & ->)].
    - destruct data as [|d data']; [done|].
      rewrite merge_present by done. by rewrite unseen_self, app_nil_r.
    - rewrite merge_present.
      + by rewrite unseen_after_merge, app_nil_r.
      + intros [? _]%app_eq_nil. done.
      + apply Forall_app. split; [done|]. by apply unseen_present.
      + done. }
  cbn [bind]. by rewrite store_store.
Qed.

(** C7 (as amended): the setters do not validate records.  When a non-empty
    sequence is already cached for the entity, a record without the uniqueness
    field - old or new - makes the set raise [KeyError] (and the cache is
    left as it was); when nothing, or an empty sequence, is cached, the new
    records are stored as they are, without any check. *)
Theorem set_missing_field k self ticker data :
  (forall old, get k self ticker = Some old -> old <> [] ->
     Exists (fun item => ~ has_key k item) (old ++ data) ->
     set k self ticker data = Raise (KeyError (key_field k))) /\
  (falsy (get k self ticker) = true ->
     exists self', set k self ticker data = Return self' /\
                   get k self' ticker = Some data).
Proof.
  split.
  - intros old Hget Hne Hex. rewrite set_unfold, Hget, merge_absent; [done..|].
    eapply Exists_impl; [done|]. intros item Hitem. unfold absent, has_key in *.
    destruct (item !! key_field k) eqn:E; [|done]. destruct Hitem. by eexists.
  - intros F. rewrite set_unfold, merge_falsy by done.
    eexists. split; [done|]. apply get_store_eq.
Qed.

End facts.
End CacheFacts.

Module CacheExamples.
Import Cache CacheFacts.

(** A price record of one day, as the data provider returns it. *)
Definition bar (day close : string) : gmap string string :=
  {[ "time" := day; "close" := close ]}.

(** A record that lacks the [time] field. *)
Definition bad_bar (close : string) : gmap string string := {[ "close" := close ]}.

Definition overlapping : list (set_op string) :=
  [ (Prices, "AAPL", [bar "2024-01-02" "185.6"; bar "2024-01-03" "184.2"]);
    (Prices, "AAPL", [bar "2024-01-03" "184.2"; bar "2024-01-04" "181.9"]);
    (Dividends, "AAPL", []) ].

Lemma overlapping_distinct : Forall batch_distinct overlapping.
Proof. repeat constructor; by (apply (bool_decide_unpack _); vm_compute). Defined.

Lemma overlapping_keyed : Forall batch_keyed overlapping.
Proof. repeat constructor; by eexists. Defined.

(** C2, counterexample: the first set for an entity stores the new list as it
    is, so a batch that repeats a record is stored with the repetition. *)
Lemma set_stores_duplicates :
  ~ (forall (ops : list (set_op string)) (self : Cache string),
       run_sets ops init = Return self ->
       forall k ticker items, get k self ticker = Some items -> NoDup (key_values k items)).
Proof.
  intros H.
  pose (twice := [bar "2024-01-02" "185.6"; bar "2024-01-02" "185.6"]).
  specialize (H [(Prices, "AAPL", twice)] _ eq_refl Prices "AAPL" twice (lookup_insert_eq _ _ _)).
  apply NoDup_cons in H as [Hnotin _]. apply Hnotin. left.
Qed.

Lemma set_keeps_entries_unique_witness :
  Forall batch_distinct overlapping /\
  exists self, run_sets overlapping init = Return self /\
    forall k ticker items, get k self ticker = Some items -> NoDup (key_values k items).
Proof.
  split; [exact overlapping_distinct|].
  destruct (set_keeps_entries_unique overlapping overlapping_distinct)
    as (Hdistinct & Hruns & _).
  destruct (Hruns overlapping_keyed) as [self Hself].
  exists self. split; [exact Hself | exact (Hdistinct self Hself)].
Defined.

Lemma set_idempotent_witness :
  let data := [bar "2024-01-02" "185.6"; bar "2024-01-03" "184.2"] in
  Forall (has_key Prices) data /\
  (do self1 <- set Prices init "AAPL" data; set Prices self1 "AAPL" data)
  = set Prices init "AAPL" data.
Proof.
  intros data. assert (Forall (has_key Prices) data) as Hd by (repeat constructor; by eexists).
  split; [exact Hd|]. exact (set_idempotent Prices init "AAPL" data Hd).
Defined.

(** C7, counterexample: with nothing cached for the entity, a record without
    the uniqueness field is stored and no error is signalled. *)
Lemma set_accepts_missing_field :
  ~ (forall k (self : Cache string) ticker data,
       Exists (fun item => ~ has_key k item) (default [] (get k self ticker) ++ data) ->
       exists e, set k self ticker data = Raise e).
Proof.
  intros H. destruct (H Prices init "AAPL" [bad_bar "185.6"]) as [e He].
  - left. intros [v Hv]. by vm_compute in Hv.
  - discriminate He.
Qed.

Lemma set_missing_field_witness :
  let old := [bar "2024-01-02" "185.6"] in
  let self := mkCache {[ "AAPL" := old ]} ∅ ∅ ∅ ∅ ∅ in
  let data := [bad_bar "184.2"] in
  (get Prices self "AAPL" = Some old /\ old <> [] /\
   Exists (fun item => ~ has_key Prices item) (old ++ data)) /\
  set Prices self "AAPL" data = Raise (KeyError "time") /\
  (falsy (get Prices (@init string) "AAPL") = true /\
   exists self', set Prices init "AAPL" data = Return self' /\
                 get Prices self' "AAPL" = Some data).
Proof.
  intros old self data.
  assert (get Prices self "AAPL" = Some old) as H1 by apply lookup_singleton_eq.
  assert (old <> []) as H2 by discriminate.
  assert (Exists (fun item => ~ has_key Prices item) (old ++ data)) as H3.
  { right. left. intros [v Hv]. by vm_compute in Hv. }
  assert (falsy (get Prices (@init string) "AAPL") = true) as H4 by reflexivity.
  split; [by repeat split|]. split.
  - exact (proj1 (set_missing_field Prices self "AAPL" data) old H1 H2 H3).
  - split; [exact H4|].
    exact (proj2 (set_missing_field Prices init "AAPL" data) H4).
Defined.

End CacheExamples.

(** ** Parsing the final message *)

Module ParsingFacts.
Import Parsing.

(** What [parse_json_response] does, whatever the decoder does: it never
    raises; it returns [None] for an input that is not a string and for a
    string on which the decoder raises, and otherwise the decoded value as it
    is.  [run_hedge_fund] reads [decisions] from a dictionary only, so its
    [decisions] field is [None], not an exception, when the content of the
    last message is not a JSON object. *)
Theorem parse_json_response_total (json_loads : string -> outcome value) (content : value) :
  (exists r, parse_json_response json_loads content = Return r) /\
  ((forall s, content <> VStr s) -> parse_json_response json_loads content = Return VNone) /\
  (forall s e, content = VStr s -> json_loads s = Raise e ->
     parse_json_response json_loads content = Return VNone) /\
  (forall s v, content = VStr s -> json_loads s = Return v ->
     parse_json_response json_loads content = Return v) /\
  ((forall s entries, content = VStr s -> json_loads s <> Return (VDict entries)) ->
     run_hedge_fund_decisions json_loads content = Return VNone).
Proof.
  assert (forall s, parse_json_response json_loads (VStr s) =
            Return (match json_loads s with Return v => v | Raise _ => VNone end)) as Hstr.
  { intros s. cbn. destruct (json_loads s) as [v|[]]; reflexivity. }
  split; [|split; [|split; [|split]]].
  - destruct content; eauto.
  - intros Hns. destruct content; try reflexivity. by destruct (Hns s).
  - intros s e -> He. by rewrite Hstr, He.
  - intros s v -> Hv. by rewrite Hstr, Hv.
  - intros Hobj. unfold run_hedge_fund_decisions.
    destruct content; try reflexivity. rewrite Hstr. cbn.
    destruct (json_loads s) as [v|e] eqn:E; [|reflexivity].
    destruct v; try reflexivity. by destruct (Hobj s entries).
Qed.

(** C10: the docstring of [parse_json_response] promises a dictionary, its
    annotation a dictionary or [None], and so does the claim; handed the text
    of a JSON list, the function returns the list.  It is neither a
    dictionary nor [None]; only the guard of [run_hedge_fund] turns it into a
    [decisions] field that is [None]. *)
Theorem parse_json_response_list :
  parse_json_response Json.loads (VStr "[1, 2]") = Return (VList [VInt 1; VInt 2]) /\
  parse_json_response Json.loads (VStr "[1, 2]") <> Return VNone /\
  (forall entries,
     parse_json_response Json.loads (VStr "[1, 2]") <> Return (VDict entries)) /\
  run_hedge_fund_decisions Json.loads (VStr "[1, 2]") = Return VNone.
Proof.
  split; [reflexivity|]. split; [by vm_compute|]. split; [|reflexivity].
  intros entries. by vm_compute.
Qed.

Example parse_json_response_not_a_string :
  parse_json_response Json.loads (VList [VStr "{}"]) = Return VNone /\
  parse_json_response Json.loads VNone = Return VNone.
Proof. split; reflexivity. Qed.

Example parse_json_response_malformed :
  parse_json_response Json.loads (VStr "{decisions: 1") = Return VNone.
Proof. reflexivity. Qed.

Lemma parse_json_response_total_witness :
  let content := VStr "not json" in
  (forall s entries, content = VStr s -> Json.loads s <> Return (VDict entries)) /\
  run_hedge_fund_decisions Json.loads content = Return VNone.
Proof.
  intros content.
  assert (forall s entries, content = VStr s -> Json.loads s <> Return (VDict entries)) as Hc.
  { intros s entries [= <-]. vm_compute. discriminate. }
  split; [exact Hc|].
  exact (proj2 (proj2 (proj2 (proj2 (parse_json_response_total Json.loads content)))) Hc).
Defined.

End ParsingFacts.

(** ** The resilient invoker *)

Module LlmFacts.
Import Llm.

(** *** Text helpers *)

Lemma drop_append (a b : string) : Str.drop (String.length a) (a +:+ b) = b.
Proof. induction a as [|c a IH]; cbn; [by destruct b | exact IH]. Qed.

Lemma drop_add (n m : nat) (s : string) : Str.drop (n + m) s = Str.drop m (Str.drop n s).
Proof.
  revert s. induction n as [|n IH]; intros s; cbn; [done|].
  destruct s as [|c s]; [by destruct m | apply IH].
Qed.

Lemma strip_think_skip (s : string) (n : nat) :
  strip_think n s = strip_think 0 (Str.drop n s).
Proof.
  revert n. induction s as [|c s IH]; intros n; [by destruct n|].
  destruct n as [|n]; [done|]. cbn [strip_think Str.drop]. apply IH.
Qed.

Lemma prefix_append (p s : string) : String.prefix p (p +:+ s) = true.
Proof.
  induction p as [|c p IH]; [by destruct s|].
  change (String c p +:+ s) with (String c (p +:+ s)).
  change (String.prefix (String c p) (String c (p +:+ s)))
    with (if Ascii.ascii_dec c c then String.prefix p (p +:+ s) else false).
  by destruct (Ascii.ascii_dec c c).
Qed.

Lemma strip_think_open (c : Ascii.ascii) (s' : string) (j : nat) :
  String.prefix "<think>" (String c s') = true ->
  Str.find "</think>" (Str.drop 7 (String c s')) = Some j ->
  strip_think 0 (String c s') = strip_think (7 + j + 8 - 1) s'.
Proof. cbn [strip_think]. by intros -> ->. Qed.

(** A leading [think] element goes, and what follows it is treated in turn. *)
Lemma strip_think_block (body rest : string) :
  Str.find "</think>" (body +:+ "</think>" +:+ rest) = Some (String.length body) ->
  strip_think 0 ("<think>" +:+ body +:+ "</think>" +:+ rest) = strip_think 0 rest.
Proof.
  intros Hfind.
  change ("<think>" +:+ body +:+ "</think>" +:+ rest)
    with (String "<"%char ("think>" +:+ body +:+ "</think>" +:+ rest)).
  rewrite (strip_think_open _ _ (String.length body));
    [|exact (prefix_append "<think>" _)|exact Hfind].
  rewrite strip_think_skip.
  replace (7 + String.length body + 8 - 1) with (6 + (String.length body + 8)) by lia.
  rewrite drop_add.
  change (Str.drop 6 ("think>" +:+ body +:+ "</think>" +:+ rest))
    with (body +:+ "</think>" +:+ rest).
  rewrite drop_add, drop_append. reflexivity.
Qed.

(** *** Extraction *)

Section extract.
Variable json_loads : string -> outcome value.

(** What the parser of the whole text gives: the decoded value, or [None]
    when the decoder raises. *)
Definition whole_text (text : string) : value :=
  match json_loads text with
  | Return v => v
  | Raise _ => VNone
  end.

Lemma try_content_value (text : string) :
  match try_content json_loads text with
  | Return r => r
  | Raise _ => VNone
  end = whole_text text.
Proof.
  unfold try_content, try_except, whole_text.
  destruct (json_loads text) as [v|e]; [done|]. by destruct e.
Qed.

(** The two parsers in their order, after the mark-up and the white space
    around the text are gone; nothing is assumed of the decoder. *)
Lemma extract_unfold (content : string) :
  extract_json_from_response json_loads content =
  let text := Str.strip (strip_think 0 content) in
  match fenced_json text with
  | Some block =>
      match json_loads block with
      | Return v => v
      | Raise JSONDecodeError => whole_text text
      | Raise _ => VNone
      end
  | None => whole_text text
  end.
Proof.
  unfold extract_json_from_response. cbn zeta.
  destruct (fenced_json _) as [block|]; [|cbn [bind]; apply try_content_value].
  unfold try_block, try_except.
  destruct (json_loads block) as [v|e]; [done|].
  destruct e; cbn [bind]; try done. apply try_content_value.
Qed.

(** The response of the extraction scenario, its payload and the mapping the
    payload denotes. *)
Definition scenario_payload : string :=
  "{" +:+ Str.dquote +:+ "signal" +:+ Str.dquote +:+ ":"
      +:+ Str.dquote +:+ "bullish" +:+ Str.dquote +:+ "}".

Definition scenario_response : string :=
  "<think>ignored</think>```json" +:+ Str.newline +:+ scenario_payload
    +:+ Str.newline +:+ "```".

Definition scenario_mapping : value := VDict [("signal", VStr "bullish")].

(** C6 (as amended): whatever the decoder does, [extract_json_from_response]
    works on the text left once the [think] elements and the surrounding
    white space are removed - a leading [think] element, in particular, is
    dropped.  On that text it first decodes the content of the json-tagged
    fenced block and returns its value.  Without such a block, or when the
    decoder refuses the block with a [JSONDecodeError], it decodes the whole
    text and returns its value, or [None] when the decoder raises.  When the
    decoder raises anything else on the block, the result is [None] and the
    whole text is not tried.  So [None] is returned only when the parser tried
    last raises - on the block, another exception than [JSONDecodeError] - or
    decodes the JSON value null.  The response of the extraction scenario
    yields the mapping from [signal] to [bullish]. *)
Theorem extract_json_order (content : string) :
  let text := Str.strip (strip_think 0 content) in
  let block_refused :=
    fenced_json text = None \/
    exists block, fenced_json text = Some block /\ json_loads block = Raise JSONDecodeError in
  (forall body rest,
     Str.find "</think>" (body +:+ "</think>" +:+ rest) = Some (String.length body) ->
     extract_json_from_response json_loads ("<think>" +:+ body +:+ "</think>" +:+ rest) =
     extract_json_from_response json_loads rest) /\
  (forall block v, fenced_json text = Some block -> json_loads block = Return v ->
     extract_json_from_response json_loads content = v) /\
  (block_refused ->
   extract_json_from_response json_loads content =
   match json_loads text with Return v => v | Raise _ => VNone end) /\
  (forall block e, fenced_json text = Some block -> json_loads block = Raise e ->
     e <> JSONDecodeError ->
     extract_json_from_response json_loads content = VNone) /\
  (extract_json_from_response json_loads content = VNone ->
   (exists block, fenced_json text = Some block /\
      (json_loads block = Return VNone \/
       exists e, json_loads block = Raise e /\ e <> JSONDecodeError)) \/
   (block_refused /\
      (json_loads text = Return VNone \/ exists e, json_loads text = Raise e))) /\
  (json_loads scenario_payload = Return scenario_mapping ->
   extract_json_from_response json_loads scenario_response = scenario_mapping).
Proof.
  intros text block_refused.
  assert (whole_text text = VNone ->
          json_loads text = Return VNone \/ exists e, json_loads text = Raise e) as Hwhole.
  { unfold whole_text. destruct (json_loads text) as [v|e]; [intros ->; by left|].
    intros _. right. by exists e. }
  split; [|split; [|split; [|split; [|split]]]].
  - intros body rest Hfind. unfold extract_json_from_response.
    by rewrite (strip_think_block _ _ Hfind).
  - intros block v Hb Hv. rewrite extract_unfold. cbn zeta. fold text. by rewrite Hb, Hv.
  - intros [Hb|(block & Hb & He)]; rewrite extract_unfold; cbn zeta; fold text;
      rewrite Hb; [|rewrite He]; reflexivity.
  - intros block e Hb He Hne. rewrite extract_unfold. cbn zeta. fold text.
    rewrite Hb, He. by destruct e.
  - rewrite extract_unfold. cbn zeta. fold text. unfold block_refused.
    destruct (fenced_json text) as [block|]; [|intros Hn; right; split; [by left | auto]].
    destruct (json_loads block) as [v|e] eqn:Eb.
    + intros ->. left. exists block. split; [done|]. by left.
    + assert (e = JSONDecodeError \/ e <> JSONDecodeError) as [->|Hne]
        by (destruct e; (by left) || (by right)).
      * intros Hn. right. split; [|auto]. right. by exists block.
      * intros _. left. exists block. split; [done|]. right. by exists e.
  - intros Hp. rewrite extract_unfold. cbn zeta.
    change (Str.strip (strip_think 0 scenario_response))
      with ("```json" +:+ Str.newline +:+ scenario_payload +:+ Str.newline +:+ "```").
    change (fenced_json ("```json" +:+ Str.newline +:+ scenario_payload
                           +:+ Str.newline +:+ "```"))
      with (Some scenario_payload).
    cbn match. by rewrite Hp.
Qed.

End extract.

Lemma extract_json_order_witness :
  Json.loads scenario_payload = Return scenario_mapping /\
  extract_json_from_response Json.loads scenario_response = scenario_mapping.
Proof.
  split; [reflexivity|].
  exact (proj2 (proj2 (proj2 (proj2 (proj2
    (extract_json_order Json.loads scenario_response))))) eq_refl).
Defined.

(** A string of [n] digits. *)
Fixpoint ones (n : nat) : string :=
  match n with
  | O => EmptyString
  | S n => String "1"%char (ones n)
  end.

(** A reply that is one JSON string, in which a fenced block holds an
    integer of 4301 digits. *)
Definition long_integer_reply : string :=
  Str.dquote +:+ "```json " +:+ ones 4301 +:+ " ```" +:+ Str.dquote.

(** C6, counterexample: [None] is returned although the two parsers have not
    both failed.  The text null has no fenced block and is valid JSON: the
    whole-text parser decodes it, and what it decodes is [None].  In the
    reply with the long integer the decoder raises [ValueError] on the
    block, and the whole text - a JSON string - is never tried. *)
Lemma extract_none_without_two_failures :
  let only_when_both_fail (content : string) :=
    extract_json_from_response Json.loads content = VNone ->
    let text := Str.strip (strip_think 0 content) in
    (fenced_json text = None \/
     exists block e, fenced_json text = Some block /\ Json.loads block = Raise e) /\
    exists e, Json.loads text = Raise e in
  ~ only_when_both_fail "null" /\ ~ only_when_both_fail long_integer_reply.
Proof.
  cbn zeta. split.
  - intros H. destruct (H eq_refl) as [_ [e He]]. vm_compute in He. discriminate He.
  - intros H. assert (extract_json_from_response Json.loads long_integer_reply = VNone) as E
      by (by vm_compute).
    destruct (H E) as [_ [e He]]. vm_compute in He. discriminate He.
Qed.

(** The reply with the long integer, step by step. *)
Example extract_long_integer :
  fenced_json long_integer_reply = Some (ones 4301) /\
  Json.loads (ones 4301) =
    Raise (ValueError "Exceeds the limit (4300 digits) for integer string conversion") /\
  (exists n, Json.loads (ones 4300) = Return (VInt n)) /\
  (exists body, Json.loads long_integer_reply = Return (VStr body)) /\
  extract_json_from_response Json.loads long_integer_reply = VNone.
Proof.
  split; [by vm_compute|]. split; [by vm_compute|].
  split; [eexists; vm_compute; reflexivity|].
  split; [|by vm_compute]. eexists. vm_compute. reflexivity.
Qed.

(** Without a fenced block the whole text is decoded; a block the decoder
    refuses, in a text it refuses too, gives [None]. *)
Example extract_whole_text :
  extract_json_from_response Json.loads "<think>hm</think>  [1, 2] "
  = VList [VInt 1; VInt 2].
Proof. reflexivity. Qed.

Example extract_nothing :
  extract_json_from_response Json.loads ("```json" +:+ Str.newline +:+ "{oops" +:+ "```")
  = VNone.
Proof. reflexivity. Qed.

(** *** Dictionaries, construction and defaults *)

Lemma dict_get_set_eq (d : list (string * value)) (k : string) (v : value) :
  dict_get (dict_set d k v) k = Some v.
Proof.
  induction d as [|[k' w] d IH]; cbn; [by rewrite String.eqb_refl|].
  destruct (String.eqb k' k) eqn:E; cbn; rewrite E; [done | exact IH].
Qed.

Lemma dict_get_set_ne (d : list (string * value)) (k k' : string) (v : value) :
  k <> k' -> dict_get (dict_set d k v) k' = dict_get d k'.
Proof.
  intros Hne. induction d as [|[k0 w] d IH]; cbn.
  - by apply String.eqb_neq in Hne as ->.
  - destruct (String.eqb k0 k) eqn:E; cbn; [|by rewrite IH].
    apply String.eqb_eq in E as ->. by apply String.eqb_neq in Hne as ->.
Qed.

Definition assign_default (d : list (string * value)) (f : string * annotation) :=
  dict_set d (fst f) (default_value (snd f)).

Lemma default_values_other (fields : schema) (acc : list (string * value)) (n : string) :
  n ∉ fst <$> fields ->
  dict_get (fold_left assign_default fields acc) n = dict_get acc n.
Proof.
  revert acc. induction fields as [|[m a] fields IH]; intros acc Hn; [done|].
  cbn in *. apply not_elem_of_cons in Hn as [Hne Hn].
  rewrite IH by done. unfold assign_default. cbn. by apply dict_get_set_ne.
Qed.

Lemma default_values_field (fields : schema) (acc : list (string * value)) n a :
  NoDup (fst <$> fields) -> (n, a) ∈ fields ->
  dict_get (fold_left assign_default fields acc) n = Some (default_value a).
Proof.
  revert acc. induction fields as [|[m b] fields IH]; intros acc Hnd Hin.
  - by apply elem_of_nil in Hin.
  - cbn in *. apply NoDup_cons in Hnd as [Hm Hnd].
    apply elem_of_cons in Hin as [[= -> ->]|Hin]; [|by apply IH].
    rewrite default_values_other by done. apply dict_get_set_eq.
Qed.

(** What [default_values] holds for a field of the model. *)
Lemma default_values_get (model_class : schema) n a :
  NoDup (fst <$> model_class) -> (n, a) ∈ model_class ->
  dict_get (default_values model_class) n = Some (default_value a).
Proof. apply default_values_field. Qed.

(** A constructed instance holds, for every field, the keyword argument of
    its name, and the field's annotation accepts it. *)
Lemma construct_Return (fields : schema) (kwargs : list (string * value)) (inst : instance) :
  construct fields kwargs = Return inst ->
  conforms fields inst /\
  Forall2 (fun f kv => dict_get kwargs (fst f) = Some (snd kv)) fields inst.
Proof.
  revert inst. induction fields as [|[n a] fields IH]; intros inst; cbn.
  - intros [= <-]. split; constructor.
  - destruct (dict_get kwargs n) as [v|] eqn:Hv; [|done].
    destruct (accepts a v) eqn:Ha; [|done].
    intros (tl & Htl & [= <-])%bind_Return. destruct (IH _ Htl) as [IH1 IH2].
    split; constructor; done.
Qed.

Lemma construct_accepted (fields : schema) (kwargs : list (string * value)) :
  Forall (fun f => exists v, dict_get kwargs (fst f) = Some v /\ accepts (snd f) v = true)
    fields ->
  exists inst, construct fields kwargs = Return inst.
Proof.
  induction 1 as [|[n a] fields (v & Hv & Ha) _ [tl IH]]; cbn; [by eexists|].
  cbn in Hv, Ha. rewrite Hv, Ha, IH. cbn. by eexists.
Qed.

(** The field kinds the default synthesiser serves with a value of the
    field's own type. *)
Definition served (a : annotation) : Prop :=
  match a with
  | AStr | AFloat | AInt | ADict _ _ | ALiteral _ _ => True
  | _ => False
  end.

Lemma literal_matches_refl (l : literal) : literal_matches (literal_value l) l = true.
Proof.
  destruct l as [s|n|b|]; cbn; [apply String.eqb_refl|apply Z.eqb_refl|by destruct b|done].
Qed.

Lemma served_default_accepted (a : annotation) :
  served a -> accepts a (default_value a) = true.
Proof.
  destruct a; cbn; try done. intros _.
  rewrite literal_matches_refl. by destruct first.
Qed.

Lemma create_default_response_served (model_class : schema) :
  NoDup (fst <$> model_class) -> Forall (fun f => served (snd f)) model_class ->
  exists inst, create_default_response model_class = Return inst /\
               conforms model_class inst.
Proof.
  intros Hnd Hs. unfold create_default_response.
  destruct (construct_accepted model_class (default_values model_class)) as [inst Hinst].
  - rewrite Forall_forall in *. intros [n a] Hin. exists (default_value a). cbn. split.
    + by apply default_values_get.
    + apply served_default_accepted. by apply (Hs (n, a)).
  - exists inst. split; [done|]. by apply construct_Return in Hinst as [? _].
Qed.

(** *** The retry loop *)

Section call.
Variable json_loads : string -> outcome value.
Variables (llm : provider) (info : option model_info).
Variables (prompt : string) (model_class : schema).
Variables (max_retries : nat) (default_factory : option (outcome instance)).

Abbreviation attempt := (attempt_once json_loads llm info prompt model_class).
Abbreviation loop := (retry json_loads llm info prompt model_class max_retries default_factory).

(** When every attempt raises, the loop makes them all and ends in the
    fallback. *)
Lemma retry_all_fail (len a : nat) :
  a + S len = max_retries ->
  (forall k, k < max_retries -> exists e, attempt k = Raise e) ->
  loop (seq a (S len)) a = (fallback model_class default_factory, max_retries).
Proof.
  revert a. induction len as [|len IH]; intros a Hsum Hfail.
  - cbn. destruct (Hfail a) as [e ->]; [lia|].
    replace (a =? max_retries - 1) with true by (symmetry; apply Nat.eqb_eq; lia).
    f_equal. lia.
  - cbn [seq retry]. destruct (Hfail a) as [e ->]; [lia|].
    replace (a =? max_retries - 1) with false by (symmetry; apply Nat.eqb_neq; lia).
    apply (IH (S a)); [lia | done].
Qed.

(** A result the caller can use: a returned instance that conforms. *)
Definition good (r : outcome instance) : Prop :=
  exists inst, r = Return inst /\ conforms model_class inst.

Lemma retry_good (len a : nat) :
  a + len = max_retries ->
  (forall k inst, attempt k = Return inst -> conforms model_class inst) ->
  good (fallback model_class default_factory) ->
  good (create_default_response model_class) ->
  exists r n, loop (seq a len) a = (r, n) /\ n <= max_retries /\ good r.
Proof.
  intros Hsum Hatt Hfb Hdef. revert a Hsum.
  induction len as [|len IH]; intros a Hsum; cbn [seq retry].
  - exists (create_default_response model_class), a. split; [done|]. split; [lia | done].
  - destruct (attempt a) as [inst|e] eqn:E.
    + exists (Return inst), (S a). split; [done|]. split; [lia|].
      exists inst. split; [done|]. by apply (Hatt a).
    + destruct (a =? max_retries - 1).
      * exists (fallback model_class default_factory), (S a).
        split; [done|]. split; [lia | done].
      * apply (IH (S a)). lia.
Qed.

End call.

Lemma call_llm_all_fail json_loads llm info prompt model_class max_retries default_factory :
  (forall k, k < max_retries ->
     exists e, attempt_once json_loads llm info prompt model_class k = Raise e) ->
  call_llm json_loads llm info prompt model_class max_retries default_factory =
  (match max_retries with
   | 0 => create_default_response model_class
   | S _ => fallback model_class default_factory
   end, max_retries).
Proof.
  intros Hfail. unfold call_llm. destruct max_retries as [|m]; [done|].
  apply retry_all_fail; [lia | done].
Qed.

Lemma call_llm_good json_loads llm info prompt model_class max_retries default_factory :
  (forall k inst, attempt_once json_loads llm info prompt model_class k = Return inst ->
     conforms model_class inst) ->
  good model_class (fallback model_class default_factory) ->
  good model_class (create_default_response model_class) ->
  exists r n,
    call_llm json_loads llm info prompt model_class max_retries default_factory = (r, n) /\
    n <= max_retries /\ good model_class r.
Proof. intros. apply retry_good; [lia | done..]. Qed.

(** Every call of the provider raises. *)
Definition always_fails (llm : provider) : Prop :=
  forall prompt model_class k,
    (exists e, invoke_text llm prompt k = Raise e) /\
    (exists e, invoke_structured llm prompt model_class k = Raise e).

Lemma attempt_once_fails json_loads llm info prompt model_class k :
  always_fails llm ->
  exists e, attempt_once json_loads llm info prompt model_class k = Raise e.
Proof.
  intros Hf. destruct (Hf prompt model_class k) as [[e1 H1] [e2 H2]].
  unfold attempt_once. destruct (manual_json info); [rewrite H1 | rewrite H2]; by eexists.
Qed.

Lemma attempt_once_conforms json_loads llm info prompt model_class k inst :
  (forall k inst, invoke_structured llm prompt model_class k = Return inst ->
     conforms model_class inst) ->
  attempt_once json_loads llm info prompt model_class k = Return inst ->
  conforms model_class inst.
Proof.
  intros Hs. unfold attempt_once. destruct (manual_json info); [|apply Hs].
  intros (content & _ & H)%bind_Return.
  destruct (extract_json_from_response json_loads content); try discriminate H.
  cbn in H. by apply construct_Return in H as [? _].
Qed.

(** Where [call_llm] is safe: for a schema whose fields are of the kinds the
    default synthesiser serves - [str], [float], [int], a parameterised
    [dict], [Literal] - a provider whose structured results conform to the
    schema, and a fallback factory that, when supplied, returns a conforming
    value, [call_llm] calls the provider at most [max_retries] times and
    returns a value conforming to the schema, without raising.  When the
    provider fails on every attempt it returns the fallback after exactly
    [max_retries] calls - without a factory, the synthesized default, every
    field populated. *)
Theorem call_llm_returns json_loads llm info prompt model_class max_retries default_factory :
  NoDup (fst <$> model_class) ->
  Forall (fun f => served (snd f)) model_class ->
  (forall k inst, invoke_structured llm prompt model_class k = Return inst ->
     conforms model_class inst) ->
  (forall made, default_factory = Some made ->
     exists inst, made = Return inst /\ conforms model_class inst) ->
  (exists inst n,
     call_llm json_loads llm info prompt model_class max_retries default_factory
       = (Return inst, n) /\
     n <= max_retries /\ conforms model_class inst) /\
  (always_fails llm ->
   exists inst,
     call_llm json_loads llm info prompt model_class max_retries default_factory
       = (Return inst, max_retries) /\
     conforms model_class inst /\
     (default_factory = None -> create_default_response model_class = Return inst)).
Proof.
  intros Hnd Hserved Hstruct Hfactory.
  pose proof (create_default_response_served model_class Hnd Hserved) as Hdef.
  assert (good model_class (fallback model_class default_factory)) as Hfb.
  { unfold fallback. destruct default_factory as [made|]; [by apply Hfactory | done]. }
  split.
  - destruct (call_llm_good json_loads llm info prompt model_class max_retries
                default_factory) as (r & n & E & Hn & inst & -> & Hinst); try done.
    + intros k inst. by apply attempt_once_conforms.
    + by exists inst, n.
  - intros Hfail. rewrite call_llm_all_fail
      by (intros k _; by apply attempt_once_fails).
    destruct max_retries as [|m].
    + destruct Hdef as (inst & E & Hc). exists inst. by rewrite E.
    + destruct Hfb as (inst & E & Hc). exists inst. rewrite E.
      split; [done|]. split; [done|]. intros ->. exact E.
Qed.

(** What the synthesized default holds in a field, by the field's annotation;
    nothing is said of a parameterised annotation other than [dict] and
    [Literal]. *)
Definition synthesized (a : annotation) (v : value) : Prop :=
  match a with
  | AStr => v = VStr "Error in analysis, using default"
  | AFloat => v = VFloat "0.0"
  | AInt => v = VInt 0
  | ADict _ _ => v = VDict []
  | ALiteral first _ => v = literal_value first
  | ABool | AAny => v = VNone
  | AList _ | AOptional _ => True
  end.

Lemma default_value_synthesized (a : annotation) : synthesized a (default_value a).
Proof. by destruct a. Qed.

Lemma construct_get (fields : schema) (kwargs : list (string * value)) inst n a :
  construct fields kwargs = Return inst ->
  NoDup (fst <$> fields) -> (n, a) ∈ fields ->
  dict_get inst n = dict_get kwargs n.
Proof.
  revert inst. induction fields as [|[m b] fields IH]; intros inst Hc Hnd Hin.
  - by apply elem_of_nil in Hin.
  - cbn in Hc, Hnd. apply NoDup_cons in Hnd as [Hm Hnd].
    destruct (dict_get kwargs m) as [v|] eqn:Hv; [|done].
    destruct (accepts b v); [|done].
    apply bind_Return in Hc as (tl & Htl & [= <-]). cbn.
    apply elem_of_cons in Hin as [[= -> ->]|Hin].
    + by rewrite String.eqb_refl.
    + assert (m <> n) as Hne.
      { intros ->. apply Hm. by apply (list_elem_of_fmap_2 fst _ (n, a)). }
      apply String.eqb_neq in Hne as ->. by apply IH.
Qed.

(** C5 (as amended): when every attempt up to the final one has failed and
    no fallback factory is supplied, [call_llm] returns what
    [create_default_response] makes of the schema.  The synthesized default
    assigns the text "Error in analysis, using default" to a [str] field, 0.0
    to a [float] field, 0 to an [int] field, an empty mapping to a
    parameterised [dict] field, the first declared option to a [Literal]
    field, and [None] to a field whose annotation has no type arguments. *)
Theorem default_response_values json_loads llm info prompt model_class max_retries :
  NoDup (fst <$> model_class) ->
  (forall k, k < max_retries ->
     exists e, attempt_once json_loads llm info prompt model_class k = Raise e) ->
  fst (call_llm json_loads llm info prompt model_class max_retries None)
    = create_default_response model_class /\
  (forall field_name a, (field_name, a) ∈ model_class ->
     exists v, dict_get (default_values model_class) field_name = Some v /\
               synthesized a v /\
               (forall inst, create_default_response model_class = Return inst ->
                  dict_get inst field_name = Some v)).
Proof.
  intros Hnd Hfail. split.
  - rewrite call_llm_all_fail by done. by destruct max_retries.
  - intros n a Hin. exists (default_value a).
    pose proof (default_values_get model_class n a Hnd Hin) as Hget.
    split; [done|]. split; [apply default_value_synthesized|].
    intros inst Hinst. by rewrite (construct_get _ _ _ _ _ Hinst Hnd Hin).
Qed.

(** *** Concrete runs *)

(** The schema of an analyst's signal. *)
Definition signal_model : schema :=
  [ ("signal", ALiteral (LStr "bullish") [LStr "bearish"; LStr "neutral"]);
    ("confidence", AFloat);
    ("reasoning", AStr) ].

(** A schema with a [bool] field. *)
Definition flag_model : schema := [ ("is_final", ABool) ].

(** A provider that is down. *)
Definition dead : provider :=
  {| invoke_text := fun _ _ => Raise ProviderError;
     invoke_structured := fun _ _ _ => Raise ProviderError |}.

Lemma dead_always_fails : always_fails dead.
Proof. intros prompt model_class k. split; by eexists. Qed.

(** C1: the docstring of [create_default_response] promises a safe default
    and [call_llm] an instance of the model, as the claim does.  For a model
    with a [bool] field and a provider that is down, the default synthesized
    for the field is [None]; the model class refuses it, inside the handler
    of the last attempt, and the validation error leaves [call_llm] after the
    third call.  With a factory that returns an instance the same call
    returns it. *)
Theorem call_llm_bool_field_run :
  default_values flag_model = [("is_final", VNone)] /\
  create_default_response flag_model = Raise ValidationError /\
  call_llm Json.loads dead None "prompt" flag_model 3 None = (Raise ValidationError, 3) /\
  call_llm Json.loads dead None "prompt" flag_model 3
    (Some (Return [("is_final", VBool false)]))
  = (Return [("is_final", VBool false)], 3).
Proof. repeat split; reflexivity. Qed.

Lemma signal_model_nodup : NoDup (fst <$> signal_model).
Proof. by (apply (bool_decide_unpack _); vm_compute). Defined.

Lemma signal_model_served : Forall (fun f => served (snd f)) signal_model.
Proof. repeat constructor. Defined.

Lemma call_llm_returns_witness :
  always_fails dead /\
  exists inst,
    call_llm Json.loads dead (Some {| has_json_mode := false |}) "prompt" signal_model 3 None
      = (Return inst, 3) /\
    conforms signal_model inst /\
    create_default_response signal_model = Return inst.
Proof.
  split; [exact dead_always_fails|].
  assert (forall k inst, invoke_structured dead "prompt" signal_model k = Return inst ->
            conforms signal_model inst) as Hstruct by (intros k inst H; discriminate H).
  assert (forall made, @None (outcome instance) = Some made ->
            exists inst, made = Return inst /\ conforms signal_model inst) as Hfactory
    by (intros made H; discriminate H).
  destruct (proj2 (call_llm_returns Json.loads dead (Some {| has_json_mode := false |})
              "prompt" signal_model 3 None signal_model_nodup signal_model_served
              Hstruct Hfactory) dead_always_fails) as (inst & Hcall & Hconf & Hdef).
  exists inst. split; [exact Hcall|]. split; [exact Hconf | exact (Hdef eq_refl)].
Defined.

(** C5, counterexample: the default of a string field is a fixed message, not
    the empty string. *)
Lemma default_string_is_not_empty :
  ~ (forall (model_class : schema) (field_name : string),
       NoDup (fst <$> model_class) -> (field_name, AStr) ∈ model_class ->
       dict_get (default_values model_class) field_name = Some (VStr "")).
Proof.
  intros H.
  assert (("reasoning", AStr) ∈ signal_model) as Hin by (do 2 right; left).
  specialize (H signal_model "reasoning" signal_model_nodup Hin).
  vm_compute in H. discriminate H.
Qed.

Lemma default_response_values_witness :
  fst (call_llm Json.loads dead None "prompt" signal_model 3 None)
    = create_default_response signal_model /\
  (forall field_name a, (field_name, a) ∈ signal_model ->
     exists v, dict_get (default_values signal_model) field_name = Some v /\
               synthesized a v /\
               (forall inst, create_default_response signal_model = Return inst ->
                  dict_get inst field_name = Some v)).
Proof.
  apply (default_response_values Json.loads dead None "prompt" signal_model 3
           signal_model_nodup).
  intros k _. apply attempt_once_fails, dead_always_fails.
Defined.

Example default_response_of_signal_model :
  create_default_response signal_model =
  Return [ ("signal", VStr "bullish"); ("confidence", VFloat "0.0");
           ("reasoning", VStr "Error in analysis, using default") ].
Proof. reflexivity. Qed.

End LlmFacts.

(** ** The workflow graph *)

Module GraphFacts.
Import Graph.

(** *** Lists and names *)

(** Among the edges from the members of a duplicate-free list to one target,
    exactly one leaves a given member. *)
Lemma filter_source_one (l : list string) (a target : string) :
  NoDup l -> a ∈ l ->
  filter (fun e : string * string => e.1 = a) ((fun x => (x, target)) <$> l) = [(a, target)].
Proof.
  induction 1 as [|x l Hx Hnd IH]; intros Hin; [by apply elem_of_nil in Hin|].
  cbn [fmap list_fmap]. apply elem_of_cons in Hin as [->|Hin].
  - rewrite filter_cons_True by done. f_equal.
    apply filter_drop_all. intros e (y & -> & Hy)%list_elem_of_fmap. cbn. by intros ->.
  - rewrite filter_cons_False; [by apply IH|]. cbn. by intros ->.
Qed.

Lemma length_append (s t : string) :
  String.length (s +:+ t) = String.length s + String.length t.
Proof.
  induction s as [|c s IH]; [done|].
  change (String c s +:+ t) with (String c (s +:+ t)). cbn. by rewrite IH.
Qed.

Lemma append_inj_r (t s1 s2 : string) : s1 +:+ t = s2 +:+ t -> s1 = s2.
Proof.
  revert s2. induction s1 as [|c s1 IH]; intros [|d s2] Heq; [done| | |].
  - apply (f_equal String.length) in Heq. rewrite !length_append in Heq. cbn in Heq. lia.
  - apply (f_equal String.length) in Heq. rewrite !length_append in Heq. cbn in Heq. lia.
  - change (String c s1 +:+ t) with (String c (s1 +:+ t)) in Heq.
    change (String d s2 +:+ t) with (String d (s2 +:+ t)) in Heq.
    injection Heq as -> Heq. f_equal. by apply IH.
Qed.

Fixpoint last_char (s : string) : option Ascii.ascii :=
  match s with
  | EmptyString => None
  | String c EmptyString => Some c
  | String _ s' => last_char s'
  end.

Lemma last_char_append (s t : string) : t <> "" -> last_char (s +:+ t) = last_char t.
Proof.
  intros Ht. induction s as [|c s IH]; [done|].
  change (String c s +:+ t) with (String c (s +:+ t)).
  cbn [last_char]. rewrite <- IH.
  destruct (s +:+ t) eqn:E; [|done].
  destruct s; [by destruct Ht | discriminate E].
Qed.

Lemma node_name_last (key : string) : last_char (node_name key) = Some "t"%char.
Proof. unfold node_name. by rewrite last_char_append. Qed.

Lemma node_name_inj (k1 k2 : string) : node_name k1 = node_name k2 -> k1 = k2.
Proof. apply append_inj_r. Qed.

(** An analyst's node is none of the fixed nodes, unless the analyst is
    registered under the key [risk_management]; it is never [END]. *)
Lemma node_name_not_fixed (key : string) :
  key <> "risk_management" -> node_name key ∉ fixed_nodes.
Proof.
  intros Hkey Hin. pose proof (node_name_last key) as Hlast.
  unfold fixed_nodes in Hin. rewrite !elem_of_cons in Hin.
  destruct Hin as [E|[E|[E|E]]].
  - rewrite E in Hlast. discriminate Hlast.
  - apply Hkey. by apply node_name_inj.
  - rewrite E in Hlast. discriminate Hlast.
  - by apply elem_of_nil in E.
Qed.

Lemma node_name_not_END (key : string) : node_name key <> END.
Proof.
  intros E. pose proof (node_name_last key) as Hlast.
  rewrite E in Hlast. discriminate Hlast.
Qed.

(** *** The shape of a built graph *)

(** The edges of the graph with analysis nodes [A]. *)
Definition built_edges (A : list string) : list (string * string) :=
  ((fun a => ("start_node", a)) <$> A) ++
  ((fun a => (a, "risk_management_agent")) <$> A) ++
  match A with
  | [] => [("start_node", "risk_management_agent")]
  | _ :: _ => []
  end ++
  [("risk_management_agent", "portfolio_manager"); ("portfolio_manager", END)].

Definition built (A : list string) : StateGraph :=
  mkGraph ("start_node" :: A ++ ["risk_management_agent"; "portfolio_manager"])
    (built_edges A) (Some "start_node").

(** Names that can be added as analysis nodes. *)
Definition fresh_names (A : list string) : Prop :=
  NoDup A /\ Forall (fun a => a ∉ fixed_nodes) A.

Section shape.
Variable ANALYST_CONFIG : list string.

Lemma add_analysts_Return (agents done : list string) (w w' : StateGraph) :
  nodes w = "start_node" :: done ->
  edges w = (fun a => ("start_node", a)) <$> done ->
  add_analysts agents w = Return w' ->
  let A := node_name <$> agents in
  NoDup A /\ Forall (fun a => a ∉ "start_node" :: done) A /\
  w' = mkGraph ("start_node" :: done ++ A)
         ((fun a => ("start_node", a)) <$> (done ++ A)) (entry_point w).
Proof.
  revert done w. induction agents as [|key agents IH]; intros done w Hn He; cbn.
  - intros [= <-]. split; [constructor|]. split; [constructor|].
    rewrite app_nil_r, <- Hn, <- He. by destruct w.
  - unfold add_node. rewrite Hn. case_decide as Hin; [done|]. cbn [bind].
    unfold add_edge. cbn [edges nodes entry_point]. rewrite He.
    rewrite decide_False; last first.
    { intros (a & [= <-] & Ha)%list_elem_of_fmap. apply Hin. by right. }
    intros Hrest. eapply (IH (done ++ [node_name key])) in Hrest; cbn [nodes edges].
    + destruct Hrest as (Hnd & Hfresh & ->). cbn [entry_point].
      split; [|split].
      * constructor; [|done]. intros Hk. rewrite Forall_forall in Hfresh.
        apply (Hfresh _ Hk). right. apply elem_of_app. right. by left.
      * constructor; [done|]. eapply Forall_impl; [exact Hfresh|].
        intros a Ha Hin'. apply Ha. apply elem_of_cons in Hin' as [->|Hin']; [by left|].
        right. apply elem_of_app. by left.
      * by rewrite <- !app_assoc.
    + done.
    + by rewrite fmap_app.
Qed.

Lemma add_analysts_fresh (agents done : list string) (w : StateGraph) :
  nodes w = "start_node" :: done ->
  edges w = (fun a => ("start_node", a)) <$> done ->
  let A := node_name <$> agents in
  NoDup A -> Forall (fun a => a ∉ "start_node" :: done) A ->
  exists w', add_analysts agents w = Return w'.
Proof.
  revert done w. induction agents as [|key agents IH]; intros done w Hn He; cbn;
    [by eexists|].
  intros [Hk Hnd]%NoDup_cons [Hfk Hfresh]%Forall_cons.
  unfold add_node. rewrite Hn, decide_False by done. cbn [bind].
  unfold add_edge. cbn [edges nodes entry_point]. rewrite He.
  rewrite decide_False; last first.
  { intros (a & [= <-] & Ha)%list_elem_of_fmap. apply Hfk. by right. }
  apply (IH (done ++ [node_name key])); cbn [nodes edges]; [done|by rewrite fmap_app|done|].
  rewrite Forall_forall in *. intros a Ha Hin.
  apply elem_of_cons in Hin as [->|Hin]; [apply (Hfresh _ Ha); by left|].
  apply elem_of_app in Hin as [Hin|Hin].
  - apply (Hfresh _ Ha). by right.
  - apply list_elem_of_singleton in Hin as ->. done.
Qed.

Lemma connect_analysts_edges (agents : list string) (w : StateGraph) :
  let A := node_name <$> agents in
  NoDup A -> Forall (fun a => (a, "risk_management_agent") ∉ edges w) A ->
  connect_analysts agents w =
  mkGraph (nodes w) (edges w ++ ((fun a => (a, "risk_management_agent")) <$> A))
    (entry_point w).
Proof.
  revert w. induction agents as [|key agents IH]; intros w; cbn.
  - intros _ _. rewrite app_nil_r. by destruct w.
  - intros [Hk Hnd]%NoDup_cons [Hfk Hfresh]%Forall_cons.
    unfold add_edge at 1. rewrite decide_False by done.
    rewrite IH; cbn [nodes edges entry_point]; [by rewrite <- app_assoc|done|].
    rewrite Forall_forall in *. intros a Ha Hin.
    apply elem_of_app in Hin as [Hin|Hin]; [by apply (Hfresh a)|].
    apply list_elem_of_singleton in Hin as [= ->]. done.
Qed.

Lemma add_edge_new (a b : string) (w : StateGraph) :
  (a, b) ∉ edges w ->
  add_edge a b w = mkGraph (nodes w) (edges w ++ [(a, b)]) (entry_point w).
Proof. intros Hnew. unfold add_edge. by rewrite decide_False. Qed.

Lemma not_fixed_inv (a : string) :
  a ∉ fixed_nodes ->
  a <> "start_node" /\ a <> "risk_management_agent" /\ a <> "portfolio_manager".
Proof.
  unfold fixed_nodes. rewrite !not_elem_of_cons. tauto.
Qed.

(** With fresh names the builder succeeds, with the graph [built]. *)
Lemma build_with (selected_agents : option (list string)) (agents : list string) :
  select_agents ANALYST_CONFIG selected_agents = agents ->
  fresh_names (node_name <$> agents) ->
  build_agent_workflow ANALYST_CONFIG selected_agents = Return (built (node_name <$> agents)).
Proof.
  intros Hsel [Hnd Hfresh]. unfold build_agent_workflow. rewrite Hsel. clear Hsel.
  remember (node_name <$> agents) as A eqn:EA.
  assert (forall a, a ∈ A -> a <> "start_node" /\ a <> "risk_management_agent" /\
                             a <> "portfolio_manager") as Hne.
  { intros a Ha. rewrite Forall_forall in Hfresh. by apply not_fixed_inv, Hfresh. }
  assert ("start_node" ∉ A) as Hs by (intros Hin; by destruct (Hne _ Hin) as (? & ? & ?)).
  assert ("risk_management_agent" ∉ A) as Hr
    by (intros Hin; by destruct (Hne _ Hin) as (? & ? & ?)).
  assert ("portfolio_manager" ∉ A) as Hp
    by (intros Hin; by destruct (Hne _ Hin) as (? & ? & ?)).
  change (add_node "start_node" new_graph) with (Return (mkGraph ["start_node"] [] None)).
  cbn [bind].
  destruct (add_analysts_fresh agents [] (mkGraph ["start_node"] [] None) eq_refl eq_refl)
    as [w1 Hw1].
  { by rewrite <- EA. }
  { rewrite <- EA, Forall_forall. by intros a Ha ->%list_elem_of_singleton. }
  rewrite Hw1. cbn [bind].
  apply (add_analysts_Return _ [] (mkGraph ["start_node"] [] None) _ eq_refl eq_refl)
    in Hw1 as (_ & _ & ->).
  rewrite <- EA. cbn [app entry_point].
  unfold add_node at 1. cbn [nodes edges entry_point]. rewrite decide_False; last first.
  { by intros [?|Hin]%elem_of_cons. }
  cbn [bind]. unfold add_node at 1. cbn [nodes edges entry_point].
  rewrite decide_False; last first.
  { intros [?|[Hin|Hin]%elem_of_app]%elem_of_cons; [done|done|].
    by apply list_elem_of_singleton in Hin. }
  cbn [bind]. rewrite connect_analysts_edges; rewrite <- ?EA; [|done|]; last first.
  { rewrite Forall_forall. intros a Ha. cbn [edges].
    intros (b & [= -> _] & _)%list_elem_of_fmap. done. }
  cbn [nodes edges entry_point]. f_equal. unfold built, built_edges.
  assert (forall x y, x <> "start_node" -> y <> "risk_management_agent" ->
            (x, y) ∉ ((fun a => ("start_node", a)) <$> A) ++
                     ((fun a => (a, "risk_management_agent")) <$> A)) as Hout.
  { intros x y Hx Hy [Hin|Hin]%elem_of_app;
      apply list_elem_of_fmap in Hin as (b & [= -> ->] & _); done. }
  assert (forall w : StateGraph,
            edges w = ((fun a => ("start_node", a)) <$> A) ++
                      ((fun a => (a, "risk_management_agent")) <$> A) ++
                      match A with
                      | [] => [("start_node", "risk_management_agent")]
                      | _ :: _ => []
                      end ->
            nodes w = "start_node" :: A ++ ["risk_management_agent"; "portfolio_manager"] ->
            set_entry_point "start_node"
              (add_edge "portfolio_manager" END
                 (add_edge "risk_management_agent" "portfolio_manager" w)) =
            mkGraph ("start_node" :: A ++ ["risk_management_agent"; "portfolio_manager"])
              (((fun a => ("start_node", a)) <$> A) ++
               ((fun a => (a, "risk_management_agent")) <$> A) ++
               match A with
               | [] => [("start_node", "risk_management_agent")]
               | _ :: _ => []
               end ++
               [("risk_management_agent", "portfolio_manager"); ("portfolio_manager", END)])
              (Some "start_node")) as Hlast.
  { intros w He Hn. unfold set_entry_point.
    assert (forall x y, x <> "start_node" -> y <> "risk_management_agent" ->
              (x, y) ∉ edges w) as Hw.
    { intros x y Hx Hy. rewrite He, app_assoc. intros [Hin|Hin]%elem_of_app.
      - by apply (Hout x y).
      - destruct A; [|by apply elem_of_nil in Hin].
        by apply list_elem_of_singleton in Hin as [= -> _]. }
    rewrite (add_edge_new "risk_management_agent" "portfolio_manager" w)
      by (by apply Hw).
    rewrite add_edge_new; cbn [nodes edges entry_point].
    - rewrite He, Hn. f_equal. by rewrite <- !app_assoc.
    - intros [Hin|Hin]%elem_of_app; [by apply Hw in Hin|].
      by apply list_elem_of_singleton in Hin. }
  destruct agents as [|key rest]; subst A.
  - rewrite (add_edge_new "start_node" "risk_management_agent")
      by (cbn; apply not_elem_of_nil).
    by apply Hlast.
  - apply Hlast; cbn [nodes edges fmap list_fmap].
    + by rewrite app_nil_r.
    + by rewrite <- app_assoc.
Qed.

Lemma build_fresh (selected_agents : option (list string)) :
  let A := node_name <$> select_agents ANALYST_CONFIG selected_agents in
  fresh_names A ->
  build_agent_workflow ANALYST_CONFIG selected_agents = Return (built A).
Proof. intros A. by apply build_with. Qed.

(** A graph the builder returns was built on fresh names. *)
Lemma build_Return (selected_agents : option (list string)) (g : StateGraph) :
  build_agent_workflow ANALYST_CONFIG selected_agents = Return g ->
  let A := node_name <$> select_agents ANALYST_CONFIG selected_agents in
  fresh_names A /\ g = built A.
Proof.
  intros Hg A. assert (fresh_names A) as Hfresh.
  { unfold build_agent_workflow in Hg.
    change (add_node "start_node" new_graph)
      with (Return (mkGraph ["start_node"] [] None)) in Hg. cbn [bind] in Hg.
    apply bind_Return in Hg as (w1 & Hw1 & Hg).
    apply (add_analysts_Return _ [] (mkGraph ["start_node"] [] None) _ eq_refl eq_refl)
      in Hw1 as (Hnd & Hst & ->).
    fold A in Hnd, Hst, Hg. cbn [app entry_point] in Hg.
    apply bind_Return in Hg as (w2 & Hw2 & Hg).
    unfold add_node in Hw2. cbn [nodes] in Hw2. case_decide as Hrisk; [done|].
    injection Hw2 as <-.
    apply bind_Return in Hg as (w3 & Hw3 & _).
    unfold add_node in Hw3. cbn [nodes] in Hw3. case_decide as Hpm; [done|].
    split; [done|]. rewrite Forall_forall in *. intros a Ha.
    unfold fixed_nodes. rewrite !not_elem_of_cons. repeat split.
    - intros ->. apply (Hst _ Ha). by left.
    - intros ->. apply Hrisk. by right.
    - intros ->. apply Hpm. right. apply elem_of_app. by left.
    - apply not_elem_of_nil. }
  split; [done|]. rewrite (build_fresh _ Hfresh) in Hg. by injection Hg.
Qed.

End shape.

(** *** The invariants of the graph [built] *)

Section invariants.
Variable A : list string.
Hypothesis fresh : fresh_names A.
Hypothesis not_END : END ∉ A.

Lemma fresh_ne (a : string) :
  a ∈ A ->
  a <> "start_node" /\ a <> "risk_management_agent" /\ a <> "portfolio_manager" /\ a <> END.
Proof.
  intros Ha. destruct fresh as [_ Hf]. rewrite Forall_forall in Hf.
  destruct (not_fixed_inv a (Hf a Ha)) as (? & ? & ?).
  repeat split; try done. by intros ->.
Qed.

Ltac by_source :=
  intros [? ?]; rewrite ?list_elem_of_fmap; cbn;
  try (intros (b & [= -> ->] & Hb); destruct (fresh_ne b Hb) as (? & ? & ? & ?));
  try done; try congruence.

Lemma built_analysis_nodes : analysis_nodes (built A) = A.
Proof.
  unfold analysis_nodes, built. cbn [nodes].
  rewrite filter_cons_False by (intros Hn; apply Hn; unfold fixed_nodes; by left).
  rewrite filter_app, filter_keep_all.
  - rewrite filter_drop_all; [by rewrite app_nil_r|].
    intros x Hx Hn. apply Hn. unfold fixed_nodes.
    apply elem_of_cons in Hx as [->|Hx]; [right; by left|].
    apply list_elem_of_singleton in Hx as ->. right; right; by left.
  - intros x Hx. destruct fresh as [_ Hf]. rewrite Forall_forall in Hf. by apply Hf.
Qed.

Lemma built_out_start :
  out_edges (built A) "start_node" =
  match A with
  | [] => [("start_node", "risk_management_agent")]
  | _ :: _ => (fun a => ("start_node", a)) <$> A
  end.
Proof.
  unfold out_edges, built, built_edges. cbn [edges]. rewrite !filter_app.
  rewrite (filter_keep_all _ ((fun a => ("start_node", a)) <$> A)) by by_source.
  rewrite (filter_drop_all _ ((fun a => (a, "risk_management_agent")) <$> A)) by by_source.
  destruct A; [done|]. cbn [app]. by rewrite app_nil_r.
Qed.

Lemma built_out_analyst (a : string) :
  a ∈ A -> out_edges (built A) a = [(a, "risk_management_agent")].
Proof.
  intros Ha. destruct (fresh_ne a Ha) as (Hs & Hr & Hp & He).
  unfold out_edges, built, built_edges. cbn [edges]. rewrite !filter_app.
  rewrite (filter_drop_all _ ((fun a => ("start_node", a)) <$> A)) by by_source.
  rewrite filter_source_one by (by destruct fresh).
  rewrite (filter_drop_all _ (match A with [] => _ | _ => _ end)).
  - rewrite filter_cons_False by (cbn; congruence).
    rewrite filter_cons_False by (cbn; congruence). done.
  - intros e He'. destruct A; [|by apply elem_of_nil in He'].
    by apply elem_of_nil in Ha.
Qed.

Lemma built_out_risk :
  out_edges (built A) "risk_management_agent" =
  [("risk_management_agent", "portfolio_manager")].
Proof.
  unfold out_edges, built, built_edges. cbn [edges]. rewrite !filter_app.
  rewrite (filter_drop_all _ ((fun a => ("start_node", a)) <$> A)) by by_source.
  rewrite (filter_drop_all _ ((fun a => (a, "risk_management_agent")) <$> A)) by by_source.
  rewrite (filter_drop_all _ (match A with [] => _ | _ => _ end)).
  - done.
  - intros e He'. destruct A; [|by apply elem_of_nil in He'].
    by apply list_elem_of_singleton in He' as ->.
Qed.

Lemma built_out_exit :
  out_edges (built A) "portfolio_manager" = [("portfolio_manager", END)].
Proof.
  unfold out_edges, built, built_edges. cbn [edges]. rewrite !filter_app.
  rewrite (filter_drop_all _ ((fun a => ("start_node", a)) <$> A)) by by_source.
  rewrite (filter_drop_all _ ((fun a => (a, "risk_management_agent")) <$> A)) by by_source.
  rewrite (filter_drop_all _ (match A with [] => _ | _ => _ end)).
  - done.
  - intros e He'. destruct A; [|by apply elem_of_nil in He'].
    by apply list_elem_of_singleton in He' as ->.
Qed.

(** The edges of [built A], one kind at a time. *)
Lemma built_edge_inv (x y : string) :
  edge (built A) x y ->
  (x = "start_node" /\ y ∈ A) \/
  (x ∈ A /\ y = "risk_management_agent") \/
  (A = [] /\ x = "start_node" /\ y = "risk_management_agent") \/
  (x = "risk_management_agent" /\ y = "portfolio_manager") \/
  (x = "portfolio_manager" /\ y = END).
Proof.
  unfold edge, built, built_edges. cbn [edges]. rewrite !elem_of_app.
  intros [Hin|[Hin|[Hin|Hin]]].
  - apply list_elem_of_fmap in Hin as (a & [= -> ->] & Ha). by left.
  - apply list_elem_of_fmap in Hin as (a & [= -> ->] & Ha). right. by left.
  - destruct A; [|by apply elem_of_nil in Hin].
    apply list_elem_of_singleton in Hin as [= -> ->]. right. right. by left.
  - apply elem_of_cons in Hin as [[= -> ->]|Hin]; [do 3 right; by left|].
    apply list_elem_of_singleton in Hin as [= -> ->]. do 4 right. done.
Qed.

Lemma built_single_exit (n : string) :
  (n, END) ∈ edges (built A) -> n = "portfolio_manager".
Proof.
  intros [[_ Hy]|[[_ Hy]|[(_ & _ & Hy)|[[_ Hy]|[Hx _]]]]]%built_edge_inv; try done.
Qed.

Lemma built_single_entry (n : string) :
  n ∈ nodes (built A) -> (in_edges (built A) n = [] <-> n = "start_node").
Proof.
  intros Hn. split.
  - intros Hin. unfold built in Hn. cbn [nodes] in Hn.
    apply elem_of_cons in Hn as [->|Hn]; [done|]. exfalso.
    assert (exists x, (x, n) ∈ edges (built A)) as [x Hx].
    { apply elem_of_app in Hn as [Hn|Hn].
      - exists "start_node". unfold built, built_edges. cbn [edges].
        apply elem_of_app. left. by apply (list_elem_of_fmap_2 (fun a => ("start_node", a))).
      - apply elem_of_cons in Hn as [->|Hn].
        + destruct A as [|a A'] eqn:EA.
          * exists "start_node". unfold built, built_edges. cbn. by left.
          * exists a. unfold built, built_edges. cbn [edges].
            apply elem_of_app. right. apply elem_of_app. left.
            apply (list_elem_of_fmap_2 (fun a => (a, "risk_management_agent"))). by left.
        + apply list_elem_of_singleton in Hn as ->.
          exists "risk_management_agent". unfold built, built_edges. cbn [edges].
          rewrite !elem_of_app. do 3 right. by left. }
    assert ((x, n) ∈ in_edges (built A) n) as Hmem by (by apply list_elem_of_filter).
    rewrite Hin in Hmem. by apply elem_of_nil in Hmem.
  - intros ->. apply filter_drop_all. intros [x y] Hxy Hy. cbn in Hy. subst y.
    apply built_edge_inv in Hxy as [[_ Hy]|[[_ Hy]|[(_ & _ & Hy)|[[_ Hy]|[_ Hy]]]]];
      try done.
    by destruct (fresh_ne _ Hy) as (? & _).
Qed.

(** Every edge leads to a node of higher rank. *)
Definition rank (n : string) : nat :=
  if decide (n = "start_node") then 0
  else if decide (n ∈ A) then 1
  else if decide (n = "risk_management_agent") then 2
  else if decide (n = "portfolio_manager") then 3
  else 4.

Lemma rank_start : rank "start_node" = 0.
Proof. unfold rank. by rewrite decide_True. Qed.

Lemma rank_analyst (a : string) : a ∈ A -> rank a = 1.
Proof.
  intros Ha. destruct (fresh_ne a Ha) as (Hs & _). unfold rank.
  rewrite decide_False by done. by rewrite decide_True.
Qed.

Lemma rank_risk : rank "risk_management_agent" = 2.
Proof.
  unfold rank. rewrite decide_False by done. rewrite decide_False; [done|].
  intros Hin. by destruct (fresh_ne _ Hin) as (_ & ? & _).
Qed.

Lemma rank_exit : rank "portfolio_manager" = 3.
Proof.
  unfold rank. rewrite decide_False by done. rewrite decide_False; [done|].
  intros Hin. by destruct (fresh_ne _ Hin) as (_ & _ & ? & _).
Qed.

Lemma rank_END : rank END = 4.
Proof. unfold rank. rewrite decide_False by done. by rewrite decide_False. Qed.

Lemma edge_rank (x y : string) : edge (built A) x y -> rank x < rank y.
Proof.
  intros [[-> Hy]|[[Hx ->]|[(_ & -> & ->)|[[-> ->]|[-> ->]]]]]%built_edge_inv.
  - rewrite (rank_analyst y Hy), rank_start. lia.
  - rewrite (rank_analyst x Hx), rank_risk. lia.
  - rewrite rank_risk, rank_start. lia.
  - rewrite rank_risk, rank_exit. lia.
  - rewrite rank_exit, rank_END. lia.
Qed.

Lemma built_acyclic : acyclic (built A).
Proof.
  assert (forall x y, tc (edge (built A)) x y -> rank x < rank y) as Hrank.
  { induction 1 as [x y Hxy|x y z Hxy _ IH].
    - by apply edge_rank.
    - apply edge_rank in Hxy. lia. }
  intros n Hn. apply Hrank in Hn. lia.
Qed.

End invariants.

(** *** The builder *)

#[local] Instance node_name_Inj : Inj (=) (=) node_name.
Proof. intros k1 k2. apply node_name_inj. Qed.

(** A registry the builder can serve in full: its keys are distinct (they
    are the keys of a dictionary), and none is [risk_management], whose
    node would take the name of the risk-management node. *)
Definition registry_ok (ANALYST_CONFIG : list string) : Prop :=
  NoDup ANALYST_CONFIG /\ "risk_management" ∉ ANALYST_CONFIG.

(** A selection that names no analyst twice. *)
Definition selection_ok (selected_agents : option (list string)) : Prop :=
  match selected_agents with
  | None => True
  | Some selected => NoDup selected
  end.

Lemma select_agents_registered ANALYST_CONFIG selected_agents :
  Forall (fun a => a ∈ ANALYST_CONFIG) (select_agents ANALYST_CONFIG selected_agents).
Proof.
  assert (Forall (fun a => a ∈ ANALYST_CONFIG) ANALYST_CONFIG) as Hall
    by (by apply Forall_forall).
  destruct selected_agents as [selected|]; [|done]. cbn.
  destruct (filter _ selected) as [|a l] eqn:E.
  - by destruct selected.
  - rewrite <- E. apply Forall_forall. by intros x [Hx _]%list_elem_of_filter.
Qed.

Lemma select_agents_NoDup ANALYST_CONFIG selected_agents :
  NoDup ANALYST_CONFIG -> selection_ok selected_agents ->
  NoDup (select_agents ANALYST_CONFIG selected_agents).
Proof.
  intros Hreg Hsel. destruct selected_agents as [selected|]; [|done]. cbn.
  destruct (filter _ selected) as [|a l] eqn:E.
  - destruct selected; [constructor | done].
  - rewrite <- E. by apply NoDup_filter.
Qed.

Lemma select_agents_fresh ANALYST_CONFIG selected_agents :
  registry_ok ANALYST_CONFIG -> selection_ok selected_agents ->
  fresh_names (node_name <$> select_agents ANALYST_CONFIG selected_agents).
Proof.
  intros [Hnd Hrisk] Hsel. split.
  - apply (NoDup_fmap_2 node_name). by apply select_agents_NoDup.
  - apply Forall_fmap. eapply Forall_impl; [apply select_agents_registered|].
    intros key Hkey. cbn. apply node_name_not_fixed. by intros ->.
Qed.

Lemma node_names_not_END (agents : list string) : END ∉ node_name <$> agents.
Proof. intros (key & E & _)%list_elem_of_fmap. by apply (node_name_not_END key). Qed.

(** C4: the selection policy of [build_agent_workflow].  Without a selection
    the analysis nodes are those of all registered analysts; a selection
    that is not empty but names no registered analyst is built as no
    selection is; an empty selection gives no analysis node, and an edge from
    the start node straight to risk management.  (A registry of distinct keys
    without the key [risk_management] is built without error.) *)
Theorem build_selection_policy (ANALYST_CONFIG : list string) :
  (forall g, build_agent_workflow ANALYST_CONFIG None = Return g ->
     analysis_nodes g = node_name <$> ANALYST_CONFIG) /\
  (forall selected, selected <> [] -> Forall (fun a => a ∉ ANALYST_CONFIG) selected ->
     build_agent_workflow ANALYST_CONFIG (Some selected) =
     build_agent_workflow ANALYST_CONFIG None) /\
  (exists g, build_agent_workflow ANALYST_CONFIG (Some []) = Return g /\
     analysis_nodes g = [] /\
     nodes g = ["start_node"; "risk_management_agent"; "portfolio_manager"] /\
     edges g = [("start_node", "risk_management_agent");
                ("risk_management_agent", "portfolio_manager");
                ("portfolio_manager", END)]) /\
  (registry_ok ANALYST_CONFIG ->
   exists g, build_agent_workflow ANALYST_CONFIG None = Return g).
Proof.
  repeat split.
  - intros g Hg. apply build_Return in Hg as [Hfresh ->].
    by apply built_analysis_nodes.
  - intros selected Hne Hnone.
    assert (select_agents ANALYST_CONFIG (Some selected) = ANALYST_CONFIG) as Hsel.
    { cbn. rewrite filter_drop_all.
      - by destruct selected.
      - rewrite Forall_forall in Hnone. intros x Hx. by apply Hnone. }
    unfold build_agent_workflow. by rewrite Hsel.
  - exists (built []). split; [|done].
    apply (build_with ANALYST_CONFIG (Some []) []); [done|]. split; constructor.
  - intros Hreg. eexists. apply build_fresh. by apply select_agents_fresh.
Qed.

(** C8: whatever the selection, a graph [build_agent_workflow] returns has as
    many edges out of the start node as it has analysis nodes, one to each -
    or the single edge to risk management when it has none; every analysis
    node has exactly one edge out, to risk management; risk management has
    exactly one edge out, to the portfolio manager; the start node is the
    entry point and the only node without an edge into it; the portfolio
    manager is the only node with an edge to [END], its only edge out; and no
    node reaches itself.  (On a registry of distinct keys without the key
    [risk_management], a selection that names no analyst twice is built
    without error.) *)
Theorem build_graph_invariants (ANALYST_CONFIG : list string)
    (selected_agents : option (list string)) :
  (forall g, build_agent_workflow ANALYST_CONFIG selected_agents = Return g ->
     (analysis_nodes g = [] ->
        out_edges g "start_node" = [("start_node", "risk_management_agent")]) /\
     (analysis_nodes g <> [] ->
        out_edges g "start_node" = (fun n => ("start_node", n)) <$> analysis_nodes g /\
        length (out_edges g "start_node") = length (analysis_nodes g)) /\
     (forall n, n ∈ analysis_nodes g -> out_edges g n = [(n, "risk_management_agent")]) /\
     out_edges g "risk_management_agent" = [("risk_management_agent", "portfolio_manager")] /\
     entry_point g = Some "start_node" /\
     (forall n, n ∈ nodes g -> in_edges g n = [] <-> n = "start_node") /\
     out_edges g "portfolio_manager" = [("portfolio_manager", END)] /\
     (forall n, (n, END) ∈ edges g -> n = "portfolio_manager") /\
     acyclic g) /\
  (registry_ok ANALYST_CONFIG -> selection_ok selected_agents ->
   exists g, build_agent_workflow ANALYST_CONFIG selected_agents = Return g).
Proof.
  split.
  - intros g Hg. apply build_Return in Hg as [Hfresh ->].
    pose proof (node_names_not_END (select_agents ANALYST_CONFIG selected_agents)) as Hend.
    set (A := node_name <$> select_agents ANALYST_CONFIG selected_agents) in *.
    rewrite (built_analysis_nodes A Hfresh), (built_out_start A Hfresh Hend).
    split; [by intros ->|].
    split; [intros Hne; split; [by destruct A | destruct A; [done | by rewrite length_fmap]]|].
    split; [intros n Hn; by apply built_out_analyst|].
    split; [by apply built_out_risk|].
    split; [done|].
    split; [intros n Hn; by apply built_single_entry|].
    split; [by apply built_out_exit|].
    split; [intros n; by apply built_single_exit | by apply built_acyclic].
  - intros Hreg Hsel. eexists. apply build_fresh. by apply select_agents_fresh.
Qed.

(** *** Concrete registries and selections *)

Definition registry : list string := ["ben_graham"; "fundamentals"; "technical_analyst"].

Lemma registry_is_ok : registry_ok registry.
Proof. split; by (apply (bool_decide_unpack _); vm_compute). Defined.

Example build_partial_invalid :
  build_agent_workflow registry (Some ["fundamentals"; "no_such_analyst"]) =
  Return (mkGraph
            ["start_node"; "fundamentals_agent"; "risk_management_agent"; "portfolio_manager"]
            [("start_node", "fundamentals_agent");
             ("fundamentals_agent", "risk_management_agent");
             ("risk_management_agent", "portfolio_manager");
             ("portfolio_manager", END)]
            (Some "start_node")).
Proof. reflexivity. Qed.

Example build_all_invalid :
  build_agent_workflow registry (Some ["no_such_analyst"]) =
  build_agent_workflow registry None /\
  build_agent_workflow registry (Some []) =
  Return (mkGraph ["start_node"; "risk_management_agent"; "portfolio_manager"]
            [("start_node", "risk_management_agent");
             ("risk_management_agent", "portfolio_manager");
             ("portfolio_manager", END)]
            (Some "start_node")).
Proof. split; reflexivity. Qed.

(** A selection that names an analyst twice is refused: the second
    [add_node] of the same name raises. *)
Example build_repeated_selection :
  build_agent_workflow registry (Some ["fundamentals"; "fundamentals"]) =
  Raise (ValueError "Node already present").
Proof. reflexivity. Qed.

Lemma build_selection_policy_witness :
  registry_ok registry /\
  exists g, build_agent_workflow registry None = Return g.
Proof.
  split; [exact registry_is_ok|].
  exact (proj2 (proj2 (proj2 (build_selection_policy registry))) registry_is_ok).
Defined.

Lemma build_graph_invariants_witness :
  let selected := Some ["fundamentals"; "no_such_analyst"] in
  let g := mkGraph
             ["start_node"; "fundamentals_agent"; "risk_management_agent"; "portfolio_manager"]
             [("start_node", "fundamentals_agent");
              ("fundamentals_agent", "risk_management_agent");
              ("risk_management_agent", "portfolio_manager");
              ("portfolio_manager", END)]
             (Some "start_node") in
  build_agent_workflow registry selected = Return g /\
  (forall n, n ∈ analysis_nodes g -> out_edges g n = [(n, "risk_management_agent")]) /\
  acyclic g.
Proof.
  intros selected g.
  assert (build_agent_workflow registry selected = Return g) as Hg by reflexivity.
  split; [exact Hg|].
  destruct (proj1 (build_graph_invariants registry selected) g Hg)
    as (_ & _ & Hn & _ & _ & _ & _ & _ & Hacyclic).
  split; [exact Hn | exact Hacyclic].
Defined.

End GraphFacts.

(** ** The fundamentals analyst *)

Module FundamentalsFacts.
Import Fundamentals.

(** The three signals. *)
Definition signals_allowed : list string := ["bullish"; "bearish"; "neutral"].

Definition has_metrics (provider : api) (end_date ticker : string) : bool :=
  match get_financial_metrics provider ticker end_date with
  | [] => false
  | _ :: _ => true
  end.

(** An entry as the state promises it. *)
Definition entry_ok (e : entry) : Prop :=
  signal e ∈ signals_allowed /\ (0 <= confidence e)%Q /\ (confidence e <= 100)%Q.

Lemma grade_allowed (high low : string) (n : nat) :
  high ∈ signals_allowed -> low ∈ signals_allowed -> grade high low n ∈ signals_allowed.
Proof.
  intros Hh Hl. unfold grade. destruct (2 <=? n); [done|].
  destruct (n =? 0); [done|]. unfold signals_allowed. do 2 right. left.
Qed.

Lemma bullish_allowed : "bullish" ∈ signals_allowed.
Proof. left. Qed.

Lemma bearish_allowed : "bearish" ∈ signals_allowed.
Proof. right. left. Qed.

Lemma neutral_allowed : "neutral" ∈ signals_allowed.
Proof. do 2 right. left. Qed.

Lemma dividend_signal_allowed total price eps years :
  dividend_signal total price eps years ∈ signals_allowed.
Proof.
  unfold dividend_signal. cbn zeta.
  destruct (2 <=? _); [apply bullish_allowed|].
  destruct (_ && _); [apply bearish_allowed | apply neutral_allowed].
Qed.

Lemma count_le (s : string) (signals : list string) : count s signals <= length signals.
Proof. apply length_filter. Qed.

(** The confidence for [m] agreeing signals out of five. *)
Lemma confidence_of_five (m : nat) :
  m <= 5 ->
  (0 <= round2 (inject_Z (Z.of_nat m) / inject_Z (Z.of_nat 5)) * 100)%Q /\
  (round2 (inject_Z (Z.of_nat m) / inject_Z (Z.of_nat 5)) * 100 <= 100)%Q.
Proof.
  intros Hm.
  assert (m = 0 \/ m = 1 \/ m = 2 \/ m = 3 \/ m = 4 \/ m = 5) as Hcases by lia.
  destruct Hcases as [->|[->|[->|[->|[->| ->]]]]]; split; by vm_compute.
Qed.

Lemma overall_ok (signals : list string) (reasoning : list (string * string)) :
  length signals = 5 -> entry_ok (overall signals reasoning).
Proof.
  intros Hlen. unfold entry_ok, overall. cbn [signal confidence]. split.
  - destruct (_ <? _); [apply bullish_allowed|].
    destruct (_ <? _); [apply bearish_allowed | apply neutral_allowed].
  - rewrite Hlen. apply confidence_of_five.
    pose proof (count_le "bullish" signals). pose proof (count_le "bearish" signals). lia.
Qed.

Section agent.
Variable provider : api.
Variable year_of_date : string -> option string.
Variable end_date : string.

Lemma analyse_ok (ticker : string) (metrics : FinancialMetrics) (e : entry) :
  analyse provider year_of_date ticker end_date metrics = Return e -> entry_ok e.
Proof.
  unfold analyse. intros (summary & _ & [= <-])%bind_Return. by apply overall_ok.
Qed.

Lemma analyse_returns (ticker : string) (metrics : FinancialMetrics) :
  is_Some (year_of_date end_date) ->
  exists e, analyse provider year_of_date ticker end_date metrics = Return e.
Proof.
  intros [year Hyear]. unfold analyse, dividend_summary. rewrite Hyear.
  destruct (get_dividend_history provider ticker); by eexists.
Qed.

(** The loop adds entries for tickers with metrics only, all of them as
    promised, and keeps what it was given. *)
Lemma analyse_all_Return (tickers : list string) (acc fa : gmap string entry) :
  analyse_all provider year_of_date tickers end_date acc = Return fa ->
  (forall t e, fa !! t = Some e ->
     acc !! t = Some e \/ (has_metrics provider end_date t = true /\ entry_ok e)) /\
  (forall t, is_Some (acc !! t) -> is_Some (fa !! t)) /\
  (forall t, t ∈ tickers -> has_metrics provider end_date t = true -> is_Some (fa !! t)).
Proof.
  revert acc. induction tickers as [|ticker rest IH]; intros acc; cbn [analyse_all].
  - intros [= <-]. split; [by left|]. split; [done|]. by intros t Ht%elem_of_nil.
  - destruct (get_financial_metrics provider ticker end_date) as [|metrics more] eqn:E.
    + intros Hrest. destruct (IH _ Hrest) as (H1 & H2 & H3).
      split; [done|]. split; [done|]. intros t [->|Ht]%elem_of_cons Hm; [|by apply H3].
      unfold has_metrics in Hm. by rewrite E in Hm.
    + intros (e & He & Hrest)%bind_Return. destruct (IH _ Hrest) as (H1 & H2 & H3).
      split; [|split].
      * intros t e' Hfa. destruct (H1 t e' Hfa) as [Hacc|Hnew]; [|by right].
        destruct (decide (ticker = t)) as [->|Hne].
        -- rewrite lookup_insert_eq in Hacc. injection Hacc as <-. right.
           split; [|by apply analyse_ok in He]. unfold has_metrics. by rewrite E.
        -- rewrite lookup_insert_ne in Hacc by done. by left.
      * intros t Ht. apply H2. destruct (decide (ticker = t)) as [->|Hne].
        -- rewrite lookup_insert_eq. by eexists.
        -- by rewrite lookup_insert_ne.
      * intros t [->|Ht]%elem_of_cons Hm; [|by apply H3].
        apply H2. rewrite lookup_insert_eq. by eexists.
Qed.

(** Tickers without metrics play no part in the run. *)
Lemma analyse_all_skips (tickers : list string) (acc : gmap string entry) :
  analyse_all provider year_of_date tickers end_date acc =
  analyse_all provider year_of_date
    (filter (fun t => has_metrics provider end_date t = true) tickers) end_date acc.
Proof.
  revert acc. induction tickers as [|ticker rest IH]; intros acc; [done|].
  rewrite filter_cons.
  destruct (decide (has_metrics provider end_date ticker = true)) as [Hm|Hm];
    unfold has_metrics in Hm; cbn [analyse_all];
    destruct (get_financial_metrics provider ticker end_date) as [|metrics more];
    try done.
  destruct (analyse _ _ _ _ _); [apply IH | done].
Qed.

Lemma analyse_all_returns (tickers : list string) (acc : gmap string entry) :
  is_Some (year_of_date end_date) ->
  exists fa, analyse_all provider year_of_date tickers end_date acc = Return fa.
Proof.
  intros Hyear. revert acc. induction tickers as [|ticker rest IH]; intros acc;
    cbn [analyse_all]; [by eexists|].
  destruct (get_financial_metrics provider ticker end_date) as [|metrics more]; [apply IH|].
  destruct (analyse_returns ticker metrics Hyear) as [e ->]. cbn [bind]. apply IH.
Qed.

End agent.

(** C9: [fundamentals_agent] passes over a ticker for which the provider has
    no financial metrics - the run is the one of the remaining tickers, and it
    completes whenever the end date is a date - and leaves no key for it in
    the analysis it stores under [fundamentals_agent]; every ticker with
    metrics gets an entry, whose signal is one of bullish, bearish and neutral
    and whose confidence lies between 0 and 100. *)
Theorem fundamentals_agent_entries (provider : api) (year_of_date : string -> option string)
    (tickers : list string) (end_date : string)
    (analyst_signals : gmap string (gmap string entry)) :
  (is_Some (year_of_date end_date) ->
   exists signals', fundamentals_agent provider year_of_date tickers end_date analyst_signals
                    = Return signals') /\
  fundamentals_agent provider year_of_date tickers end_date analyst_signals =
  fundamentals_agent provider year_of_date
    (filter (fun t => has_metrics provider end_date t = true) tickers)
    end_date analyst_signals /\
  (forall signals',
     fundamentals_agent provider year_of_date tickers end_date analyst_signals
       = Return signals' ->
     exists fa, signals' !! "fundamentals_agent" = Some fa /\
       (forall t, get_financial_metrics provider t end_date = [] -> fa !! t = None) /\
       (forall t, t ∈ tickers -> get_financial_metrics provider t end_date <> [] ->
          is_Some (fa !! t)) /\
       (forall t e, fa !! t = Some e ->
          signal e ∈ ["bullish"; "bearish"; "neutral"] /\
          (0 <= confidence e)%Q /\ (confidence e <= 100)%Q)).
Proof.
  split; [|split].
  - intros Hyear. unfold fundamentals_agent.
    destruct (analyse_all_returns provider year_of_date end_date tickers ∅ Hyear) as [fa ->].
    by eexists.
  - unfold fundamentals_agent. by rewrite analyse_all_skips.
  - intros signals' (fa & Hfa & [= <-])%bind_Return.
    exists fa. split; [apply lookup_insert_eq|].
    destruct (analyse_all_Return _ _ _ _ _ _ Hfa) as (H1 & _ & H3).
    split; [|split].
    + intros t Ht. destruct (fa !! t) as [e|] eqn:E; [|done].
      destruct (H1 t e E) as [Hacc|[Hm _]]; [by rewrite lookup_empty in Hacc|].
      unfold has_metrics in Hm. by rewrite Ht in Hm.
    + intros t Ht Hm. apply (H3 t Ht). unfold has_metrics.
      by destruct (get_financial_metrics provider t end_date).
    + intros t e E. destruct (H1 t e E) as [Hacc|[_ Hok]]; [by rewrite lookup_empty in Hacc|].
      exact Hok.
Qed.

(** *** The end-to-end scenario: data for AAA only *)

Definition metrics_AAA : FinancialMetrics :=
  {| return_on_equity := Some (20 # 100)%Q;
     net_margin := Some (25 # 100)%Q;
     operating_margin := None;
     revenue_growth := Some (5 # 100)%Q;
     earnings_growth := None;
     book_value_growth := None;
     current_ratio := Some (2 # 1)%Q;
     debt_to_equity := Some (3 # 10)%Q;
     free_cash_flow_per_share := Some (5 # 1)%Q;
     earnings_per_share := Some (4 # 1)%Q;
     price_to_earnings_ratio := Some (30 # 1)%Q;
     price_to_book_ratio := Some (2 # 1)%Q;
     price_to_sales_ratio := None |}.

Definition only_AAA : api :=
  {| get_financial_metrics := fun ticker _ =>
       if String.eqb ticker "AAA" then [metrics_AAA] else [];
     get_dividend_history := fun ticker =>
       if String.eqb ticker "AAA"
       then [ {| dividend_type := "CD"; cash_amount := (1 # 2)%Q;
                 ex_dividend_date := "2023-05-01" |};
              {| dividend_type := "CD"; cash_amount := (1 # 2)%Q;
                 ex_dividend_date := "2023-11-01" |} ]
       else [];
     get_prices := fun ticker _ _ =>
       if String.eqb ticker "AAA" then [ {| close := (20 # 1)%Q |} ] else [];
     search_line_items := fun ticker _ =>
       if String.eqb ticker "AAA"
       then [ {| annual_earnings_per_share := Some (2 # 1)%Q |} ] else [] |}.

(** The year of a well-formed date: its first four characters. *)
Definition leading_year (date : string) : option string := Some (Str.take 4 date).

Example scenario_run :
  exists signals' fa e,
    fundamentals_agent only_AAA leading_year ["AAA"; "BBB"] "2024-06-30" ∅ = Return signals' /\
    signals' !! "fundamentals_agent" = Some fa /\
    fa !! "AAA" = Some e /\ signal e = "bullish" /\ (confidence e == 60)%Q /\
    fa !! "BBB" = None.
Proof.
  eexists _, _, _. split; [reflexivity|]. split; [apply lookup_insert_eq|].
  split; [apply lookup_insert_eq|]. split; [reflexivity|]. split; [reflexivity|].
  by vm_compute.
Qed.

Lemma fundamentals_agent_entries_witness :
  is_Some (leading_year "2024-06-30") /\
  exists signals',
    fundamentals_agent only_AAA leading_year ["AAA"; "BBB"] "2024-06-30" ∅ = Return signals'.
Proof.
  assert (is_Some (leading_year "2024-06-30")) as Hyear by (by eexists).
  split; [exact Hyear|].
  exact (proj1 (fundamentals_agent_entries only_AAA leading_year ["AAA"; "BBB"]
                  "2024-06-30" ∅) Hyear).
Defined.

End FundamentalsFacts.

(* ===================================================================== *)
(** * Further properties *)
(* ===================================================================== *)

Lemma filter_ext_in {A} (P Q : A -> Prop)
    `{!forall x, Decision (P x), !forall x, Decision (Q x)} (l : list A) :
  (forall x, x ∈ l -> (P x <-> Q x)) -> filter P l = filter Q l.
Proof.
  induction l as [|a l IH]; intros Hl; [done|].
  assert (filter P l = filter Q l) as E.
  { apply IH. intros x Hx. apply Hl. by right. }
  destruct (decide (P a)) as [Ha|Ha].
  - rewrite !filter_cons_True; [by rewrite E | by apply Hl; [left|] | done].
  - rewrite !filter_cons_False; [done | | done].
    intros Hq. apply Ha. apply Hl; [left | done].
Qed.

(** ** The cache: what a set stores and what it leaves alone *)

Module CacheLaws.
Import Cache CacheFacts.
Section laws.
Context {V : Type} `{EqDecision V}.
Implicit Types (item : gmap string V) (items data old a b : list (gmap string V)).
Implicit Types (self : Cache V) (ticker : string) (k : kind).

Lemma key_values_app k items1 items2 :
  key_values k (items1 ++ items2) = key_values k items1 ++ key_values k items2.
Proof. apply fmap_app. Qed.

Lemma key_values_unseen_iff k old data (x : option V) :
  x ∈ key_values k (unseen (key_field k) old data) <->
  x ∈ key_values k data /\ x ∉ key_values k old.
Proof.
  unfold key_values, unseen. split.
  - intros (item & -> & [Hn Hin]%list_elem_of_filter)%list_elem_of_fmap.
    split; [|done]. by apply (list_elem_of_fmap_2 (fun o : gmap string V => o !! key_field k)).
  - intros [(item & -> & Hin)%list_elem_of_fmap Hn].
    apply (list_elem_of_fmap_2 (fun o : gmap string V => o !! key_field k)).
    by apply list_elem_of_filter.
Qed.

Lemma store_id k self ticker items :
  get k self ticker = Some items -> store k self ticker items = self.
Proof.
  destruct k, self; cbn; intros Hg; f_equal; by apply insert_id.
Qed.

(** X1: after a successful set the entity's entry holds exactly the
    uniqueness-field values that were stored before or that occur in the new
    records: no value is lost, none is invented. *)
Theorem set_keys_union k self ticker data self' :
  set k self ticker data = Return self' ->
  exists items', get k self' ticker = Some items' /\
    forall x, x ∈ key_values k items' <->
              x ∈ key_values k (default [] (get k self ticker)) \/ x ∈ key_values k data.
Proof.
  rewrite set_unfold. intros (merged & Hm & [= <-])%bind_Return.
  exists merged. split; [apply get_store_eq|]. intros x.
  apply merge_Return in Hm as [[F ->]|(old & -> & _ & _ & _ & ->)].
  - rewrite (falsy_true _ F). split; [by right|]. by intros [Hx%elem_of_nil|Hx].
  - simpl default. rewrite key_values_app, elem_of_app, key_values_unseen_iff.
    destruct (decide (x ∈ key_values k old)); tauto.
Qed.

(** X2: a set for one kind and entity leaves the entry of every other kind
    or entity as it was - also between financial metrics and line items, which
    share their uniqueness field. *)
Theorem set_frame k self ticker data self' k' ticker' :
  set k self ticker data = Return self' ->
  (k', ticker') <> (k, ticker) ->
  get k' self' ticker' = get k' self ticker'.
Proof.
  rewrite set_unfold. intros (merged & _ & [= <-])%bind_Return Hne.
  by apply get_store_ne.
Qed.

(** X3: the cache never refreshes a record.  Under a uniqueness-field value
    that is already stored, the entry holds after a set exactly the records it
    held before: a new record with that value is dropped, whatever its other
    fields say. *)
Theorem set_keeps_first k self ticker data self' old item :
  set k self ticker data = Return self' ->
  get k self ticker = Some old ->
  item !! key_field k ∈ key_values k old ->
  exists items', get k self' ticker = Some items' /\ (item ∈ items' <-> item ∈ old).
Proof.
  rewrite set_unfold. intros (merged & Hm & [= <-])%bind_Return Hget Hkey.
  exists merged. split; [apply get_store_eq|].
  rewrite Hget in Hm.
  apply merge_Return in Hm as [[F ->]|(old' & [= <-] & _ & _ & _ & ->)].
  - destruct old; [by apply elem_of_nil in Hkey | done].
  - rewrite elem_of_app. split; [|by left].
    intros [Hin|Hin]; [done|]. by apply list_elem_of_filter in Hin as [Hnot _].
Qed.

(** X4: two sets in a row store what one set of the concatenated batches
    stores, when the records of both carry the uniqueness field and no value
    of the first batch occurs in the second. *)
Theorem sets_compose k self ticker a b :
  Forall (has_key k) a -> Forall (has_key k) b ->
  (forall x, x ∈ key_values k a -> x ∉ key_values k b) ->
  (do self1 <- set k self ticker a; set k self1 ticker b) = set k self ticker (a ++ b).
Proof.
  intros Ha Hb Hdisj. rewrite !set_unfold.
  assert (forall l, unseen (key_field k) (l ++ unseen (key_field k) l a) b
                    = unseen (key_field k) l b) as Hskip.
  { intros l. apply filter_ext_in. intros item Hitem.
    change ((fun o : gmap string V => o !! key_field k) <$> ?l) with (key_values k l).
    rewrite key_values_app, not_elem_of_app, key_values_unseen_iff.
    split; [tauto|]. intros Hn. split; [done|]. intros [Hin _].
    apply (Hdisj _ Hin).
    by apply (list_elem_of_fmap_2 (fun o : gmap string V => o !! key_field k)). }
  destruct (falsy (get k self ticker)) eqn:F.
  - rewrite !merge_falsy by done. cbn [bind]. rewrite set_unfold, get_store_eq.
    destruct a as [|x a'].
    + rewrite merge_falsy by done. cbn [bind]. by rewrite store_store.
    + rewrite merge_present by done. cbn [bind]. rewrite store_store.
      specialize (Hskip []). cbn [app] in Hskip.
      assert (unseen (key_field k) [] (x :: a') = x :: a') as E0.
      { apply filter_keep_all. intros y _. apply not_elem_of_nil. }
      rewrite E0 in Hskip. rewrite Hskip.
      assert (unseen (key_field k) [] b = b) as ->; [|done].
      apply filter_keep_all. intros y _. apply not_elem_of_nil.
  - apply falsy_false in F as (old & Hget & Hne). rewrite Hget.
    destruct (present_or_absent (key_field k) old) as [Ho|Ho].
    + rewrite (merge_present old a), (merge_present old (a ++ b))
        by (done || by apply Forall_app).
      cbn [bind]. rewrite set_unfold, get_store_eq, merge_present.
      * cbn [bind]. rewrite store_store, Hskip. unfold unseen at 3.
        rewrite filter_app. by rewrite <- app_assoc.
      * intros [? _]%app_eq_nil. done.
      * apply Forall_app. split; [done|]. by apply unseen_present.
      * done.
    + rewrite !merge_absent; try done; apply Exists_app; by left.
Qed.

(** X5: a set with no record at all.  On an entity never set it leaves an
    empty entry, which [get] tells from no entry; on an entry whose records
    carry the uniqueness field it changes nothing in the cache. *)
Theorem set_empty_batch k self ticker :
  (get k self ticker = None ->
     exists self', set k self ticker [] = Return self' /\ get k self' ticker = Some [] /\
                   get k self' ticker <> get k self ticker) /\
  (forall old, get k self ticker = Some old -> Forall (has_key k) old ->
     set k self ticker [] = Return self).
Proof.
  split.
  - intros Hget. rewrite set_unfold, Hget, merge_falsy by done. cbn [bind].
    eexists. split; [done|]. rewrite get_store_eq. by split.
  - intros old Hget Hold. rewrite set_unfold, Hget.
    destruct old as [|o old'].
    + rewrite merge_falsy by done. cbn [bind]. by rewrite store_id.
    + rewrite merge_present by (done || constructor). cbn [bind].
      unfold unseen. rewrite filter_nil, app_nil_r. by rewrite store_id.
Qed.

End laws.
End CacheLaws.

Module CacheLawsExamples.
Import Cache CacheFacts CacheLaws CacheExamples.

(** A cache that holds one price record of AAPL and one line item. *)
Definition one_day : Cache string :=
  mkCache {[ "AAPL" := [bar "2024-01-02" "185.6"] ]} ∅
    {[ "AAPL" := [ {[ "report_period" := "2023-12-31" ]} ] ]} ∅ ∅ ∅.

Lemma set_keys_union_witness :
  let data := [bar "2024-01-02" "190.0"; bar "2024-01-03" "184.2"] in
  exists self', set Prices one_day "AAPL" data = Return self' /\
    exists items', get Prices self' "AAPL" = Some items' /\
      forall x, x ∈ key_values Prices items' <->
                x ∈ key_values Prices (default [] (get Prices one_day "AAPL")) \/
                x ∈ key_values Prices data.
Proof.
  intros data. eexists. split; [reflexivity|].
  apply (set_keys_union Prices one_day "AAPL" data). reflexivity.
Defined.

Lemma set_frame_witness :
  let data := [ ({[ "report_period" := "2023-12-31" ]} : gmap string string) ] in
  exists self', set FinancialMetrics one_day "AAPL" data = Return self' /\
    (LineItems, "AAPL") <> (FinancialMetrics, "AAPL") /\
    get LineItems self' "AAPL" = get LineItems one_day "AAPL".
Proof.
  intros data. eexists. split; [reflexivity|].
  assert ((LineItems, "AAPL") <> (FinancialMetrics, "AAPL")) as Hne by discriminate.
  split; [exact Hne|].
  exact (set_frame FinancialMetrics one_day "AAPL" data _ LineItems "AAPL" eq_refl Hne).
Defined.

Lemma set_keeps_first_witness :
  let old := [bar "2024-01-02" "185.6"] in
  let revised := bar "2024-01-02" "190.0" in
  exists self', set Prices one_day "AAPL" [revised] = Return self' /\
    get Prices one_day "AAPL" = Some old /\
    revised !! key_field Prices ∈ key_values Prices old /\
    exists items', get Prices self' "AAPL" = Some items' /\
                   (revised ∈ items' <-> revised ∈ old).
Proof.
  intros old revised. eexists. split; [reflexivity|].
  assert (get Prices one_day "AAPL" = Some old) as Hget by reflexivity.
  assert (revised !! key_field Prices ∈ key_values Prices old) as Hkey
    by (apply (bool_decide_unpack _); by vm_compute).
  split; [exact Hget|]. split; [exact Hkey|].
  exact (set_keeps_first Prices one_day "AAPL" [revised] _ old revised eq_refl Hget Hkey).
Defined.

Lemma sets_compose_witness :
  let a := [bar "2024-01-02" "185.6"; bar "2024-01-03" "184.2"] in
  let b := [bar "2024-01-04" "181.9"] in
  (Forall (has_key Prices) a /\ Forall (has_key Prices) b /\
   forall x, x ∈ key_values Prices a -> x ∉ key_values Prices b) /\
  (do self1 <- set Prices one_day "AAPL" a; set Prices self1 "AAPL" b)
  = set Prices one_day "AAPL" (a ++ b).
Proof.
  intros a b.
  assert (Forall (has_key Prices) a) as Ha by (repeat constructor; by eexists).
  assert (Forall (has_key Prices) b) as Hb by (repeat constructor; by eexists).
  assert (forall x, x ∈ key_values Prices a -> x ∉ key_values Prices b) as Hdisj.
  { apply Forall_forall. apply (bool_decide_unpack _). by vm_compute. }
  split; [by repeat split|].
  exact (sets_compose Prices one_day "AAPL" a b Ha Hb Hdisj).
Defined.

Lemma set_empty_batch_witness :
  let old := [bar "2024-01-02" "185.6"] in
  (get Prices one_day "MSFT" = None /\
   exists self', set Prices one_day "MSFT" [] = Return self' /\
                 get Prices self' "MSFT" = Some [] /\
                 get Prices self' "MSFT" <> get Prices one_day "MSFT") /\
  (get Prices one_day "AAPL" = Some old /\ Forall (has_key Prices) old /\
   set Prices one_day "AAPL" [] = Return one_day).
Proof.
  intros old.
  assert (get Prices one_day "MSFT" = None) as Hnone by reflexivity.
  assert (get Prices one_day "AAPL" = Some old) as Hget by reflexivity.
  assert (Forall (has_key Prices) old) as Hold by (repeat constructor; by eexists).
  split.
  - split; [exact Hnone|]. exact (proj1 (set_empty_batch Prices one_day "MSFT") Hnone).
  - split; [exact Hget|]. split; [exact Hold|].
    exact (proj2 (set_empty_batch Prices one_day "AAPL") old Hget Hold).
Defined.

End CacheLawsExamples.

(** ** The resilient invoker: the attempts and the fallback *)

Module LlmLaws.
Import Llm LlmFacts.

Section call.
Variable json_loads : string -> outcome value.
Variables (llm : provider) (info : option model_info).
Variables (prompt : string) (model_class : schema).
Variables (max_retries : nat) (default_factory : option (outcome instance)).

(** The loop stops at the first attempt that returns. *)
Lemma retry_first_success (len a k : nat) (inst : instance) :
  a <= k < a + len -> a + len = max_retries ->
  (forall j, j < k -> exists e,
     attempt_once json_loads llm info prompt model_class j = Raise e) ->
  attempt_once json_loads llm info prompt model_class k = Return inst ->
  retry json_loads llm info prompt model_class max_retries default_factory (seq a len) a
  = (Return inst, S k).
Proof.
  intros Hk Hsum Hfail Hok. revert a Hk Hsum.
  induction len as [|len IH]; intros a Hk Hsum; [lia|].
  cbn [seq retry]. destruct (decide (a = k)) as [->|Hne].
  - by rewrite Hok.
  - destruct (Hfail a) as [e ->]; [lia|].
    replace (a =? max_retries - 1) with false by (symmetry; apply Nat.eqb_neq; lia).
    apply (IH (S a)); lia.
Qed.

End call.

(** X6: [call_llm] returns the result of the first attempt that succeeds,
    and has then called the provider once per attempt made: after [k] failed
    attempts and a success, [k + 1] calls. *)
Theorem call_llm_first_success json_loads llm info prompt model_class max_retries
    default_factory (k : nat) (inst : instance) :
  k < max_retries ->
  (forall j, j < k -> exists e,
     attempt_once json_loads llm info prompt model_class j = Raise e) ->
  attempt_once json_loads llm info prompt model_class k = Return inst ->
  call_llm json_loads llm info prompt model_class max_retries default_factory
  = (Return inst, S k).
Proof.
  intros Hk Hfail Hok. unfold call_llm.
  apply (retry_first_success _ _ _ _ _ _ _ max_retries 0 k); [lia | lia | done..].
Qed.

(** X7: when every attempt fails and a fallback factory is supplied,
    [call_llm] hands back what the factory gives, unchecked - a value that
    does not conform to the schema, or the exception the factory raises.
    With [max_retries] zero the factory is not consulted: the synthesized
    default is returned, and the provider is never called. *)
Theorem call_llm_factory json_loads llm info prompt model_class max_retries
    (made : outcome instance) :
  (forall k, k < max_retries -> exists e,
     attempt_once json_loads llm info prompt model_class k = Raise e) ->
  call_llm json_loads llm info prompt model_class max_retries (Some made)
  = (if max_retries =? 0 then create_default_response model_class else made, max_retries).
Proof.
  intros Hfail. rewrite call_llm_all_fail by done. by destruct max_retries.
Qed.

(** X8: for a model without JSON mode an attempt succeeds exactly when the
    reply, once extracted, is a JSON object from which the model class can be
    built.  A reply that decodes to a list, a number, a string, a truth value
    or null is a failed attempt. *)
Theorem manual_attempt_needs_object json_loads llm info prompt model_class
    (k : nat) (inst : instance) :
  manual_json info = true ->
  attempt_once json_loads llm info prompt model_class k = Return inst <->
  exists content entries,
    invoke_text llm prompt k = Return content /\
    extract_json_from_response json_loads content = VDict entries /\
    construct model_class entries = Return inst.
Proof.
  intros Hmode. unfold attempt_once. rewrite Hmode. split.
  - intros (content & Hc & H)%bind_Return.
    destruct (extract_json_from_response json_loads content) as [| | | | | |entries|] eqn:E;
      try discriminate H.
    by exists content, entries.
  - intros (content & entries & -> & E & Hc). cbn [bind]. by rewrite E.
Qed.

Lemma find_tail (sub : string) (c : Ascii.ascii) (s : string) :
  Str.find sub (String c s) = None -> Str.find sub s = None.
Proof.
  cbn [Str.find]. destruct (String.prefix sub (String c s)); [done|].
  by destruct (Str.find sub s).
Qed.

Lemma find_drop (sub : string) (n : nat) (s : string) :
  Str.find sub s = None -> Str.find sub (Str.drop n s) = None.
Proof.
  revert s. induction n as [|n IH]; intros s Hs; [by destruct s|].
  destruct s as [|c s]; [done|]. cbn [Str.drop]. apply IH. by apply (find_tail sub c).
Qed.

Lemma find_None_prefix (sub s : string) :
  Str.find sub s = None -> String.prefix sub s = false.
Proof.
  destruct s as [|c s]; cbn [Str.find]; by destruct (String.prefix sub _).
Qed.

(** X9: the markup of a reasoning block is removed only where an opening
    tag is followed by a closing tag: a text without an opening tag, or
    without a closing tag, is left as it is. *)
Theorem strip_think_needs_both_tags (s : string) :
  Str.find "<think>" s = None \/ Str.find "</think>" s = None ->
  strip_think 0 s = s.
Proof.
  induction s as [|c s IH]; intros Hs; [done|].
  cbn [strip_think].
  destruct (String.prefix "<think>" (String c s)) eqn:P.
  - destruct Hs as [Hs|Hs]; [apply find_None_prefix in Hs; congruence|].
    by rewrite (find_drop "</think>" 7 _ Hs).
  - f_equal. apply IH. destruct Hs as [Hs|Hs]; [left | right]; by apply (find_tail _ c).
Qed.

Lemma construct_Raise (fields : schema) (kwargs : list (string * value)) (e : exn) :
  construct fields kwargs = Raise e -> e = ValidationError.
Proof.
  induction fields as [|[n a] fields IH]; cbn; [done|].
  destruct (dict_get kwargs n) as [v|]; [|by intros [= <-]].
  destruct (accepts a v); [|by intros [= <-]].
  destruct (construct fields kwargs) as [tl|e']; cbn; [done|].
  intros [= <-]. by apply IH.
Qed.




(** X11: on a text from which no reasoning block is removed, that holds no
    fenced block and has no white space around it,
    [extract_json_from_response] returns what [parse_json_response] returns -
    the decoded value, or [None] when the decoder raises, whatever it
    raises. *)
Theorem extract_agrees_with_parse (json_loads : string -> outcome value) (s : string) :
  strip_think 0 s = s ->
  fenced_json s = None ->
  Str.strip s = s ->
  Parsing.parse_json_response json_loads (VStr s)
  = Return (extract_json_from_response json_loads s).
Proof.
  intros Htags Hfence Hstrip. unfold extract_json_from_response.
  rewrite Htags, Hstrip, Hfence. cbn [bind].
  unfold try_content, Parsing.parse_json_response, try_except.
  destruct (json_loads s) as [v|e]; [done|]. by destruct e.
Qed.

(** A provider whose first two replies hold no JSON and whose third holds
    the JSON object of the extraction scenario. *)
Definition flaky : provider :=
  {| invoke_text := fun _ attempt =>
       Return (if attempt <? 2 then "Sorry, no answer yet." else scenario_response);
     invoke_structured := fun _ _ _ => Raise ProviderError |}.

Definition verdict_model : schema :=
  [ ("signal", ALiteral (LStr "bullish") [LStr "bearish"; LStr "neutral"]) ].

Definition no_json_mode : option model_info := Some {| has_json_mode := false |}.

Lemma call_llm_first_success_witness :
  2 < 3 /\
  (forall j, j < 2 -> exists e,
     attempt_once Json.loads flaky no_json_mode "prompt" verdict_model j = Raise e) /\
  call_llm Json.loads flaky no_json_mode "prompt" verdict_model 3 None
  = (Return [("signal", VStr "bullish")], 3).
Proof.
  assert (forall j, j < 2 -> exists e,
            attempt_once Json.loads flaky no_json_mode "prompt" verdict_model j = Raise e)
    as Hfail.
  { intros j Hj. assert (j = 0 \/ j = 1) as [->| ->] by lia; by eexists. }
  split; [lia|]. split; [exact Hfail|].
  apply (call_llm_first_success Json.loads flaky no_json_mode "prompt" verdict_model 3 None 2);
    [lia | exact Hfail | reflexivity].
Defined.

Lemma call_llm_factory_witness :
  (forall k, k < 3 -> exists e,
     attempt_once Json.loads dead None "prompt" signal_model k = Raise e) /\
  call_llm Json.loads dead None "prompt" signal_model 3 (Some (Return []))
  = (Return [], 3) /\
  call_llm Json.loads dead None "prompt" signal_model 3 (Some (Raise ProviderError))
  = (Raise ProviderError, 3).
Proof.
  assert (forall k, k < 3 -> exists e,
            attempt_once Json.loads dead None "prompt" signal_model k = Raise e) as Hfail
    by (intros k _; by eexists).
  split; [exact Hfail|]. split.
  - exact (call_llm_factory Json.loads dead None "prompt" signal_model 3 (Return []) Hfail).
  - exact (call_llm_factory Json.loads dead None "prompt" signal_model 3
             (Raise ProviderError) Hfail).
Defined.

Lemma manual_attempt_needs_object_witness :
  manual_json no_json_mode = true /\
  attempt_once Json.loads flaky no_json_mode "prompt" verdict_model 2
  = Return [("signal", VStr "bullish")].
Proof.
  assert (manual_json no_json_mode = true) as Hmode by reflexivity.
  split; [exact Hmode|].
  apply (proj2 (manual_attempt_needs_object Json.loads flaky no_json_mode "prompt"
                  verdict_model 2 [("signal", VStr "bullish")] Hmode)).
  exists scenario_response, [("signal", VStr "bullish")]. by repeat split.
Defined.


Lemma extract_agrees_with_parse_witness :
  let s := "[1, 2]" in
  strip_think 0 s = s /\
  fenced_json s = None /\ Str.strip s = s /\
  Parsing.parse_json_response Json.loads (VStr s)
  = Return (extract_json_from_response Json.loads s).
Proof.
  intros s.
  assert (strip_think 0 s = s) as Htags by reflexivity.
  assert (fenced_json s = None) as Hfence by reflexivity.
  assert (Str.strip s = s) as Hstrip by reflexivity.
  split; [exact Htags|]. split; [exact Hfence|]. split; [exact Hstrip|].
  exact (extract_agrees_with_parse Json.loads s Htags Hfence Hstrip).
Defined.

Lemma strip_think_needs_both_tags_witness :
  let s := "<think>still thinking" in
  (Str.find "<think>" s = None \/ Str.find "</think>" s = None) /\ strip_think 0 s = s.
Proof.
  intros s.
  assert (Str.find "<think>" s = None \/ Str.find "</think>" s = None) as Hs
    by (right; reflexivity).
  split; [exact Hs | exact (strip_think_needs_both_tags s Hs)].
Defined.

End LlmLaws.

(** ** The workflow graph: selections, reachability, size *)

Module GraphLaws.
Import Graph GraphFacts.

#[local] Instance node_name_injective : Inj (=) (=) node_name.
Proof. intros k1 k2. apply node_name_inj. Qed.

Lemma select_agents_some (ANALYST_CONFIG selected : list string) :
  filter (fun a => a ∈ ANALYST_CONFIG) selected <> [] ->
  select_agents ANALYST_CONFIG (Some selected) = filter (fun a => a ∈ ANALYST_CONFIG) selected.
Proof. cbn. by destruct (filter _ selected). Qed.

Lemma select_agents_none (ANALYST_CONFIG selected : list string) :
  filter (fun a => a ∈ ANALYST_CONFIG) selected = [] ->
  select_agents ANALYST_CONFIG (Some selected) =
  match selected with [] => [] | _ :: _ => ANALYST_CONFIG end.
Proof. cbn. intros ->. by destruct selected. Qed.

(** X12: of a selection that names at least one registered analyst, the
    graph holds the analysis nodes of the registered identifiers, in the order
    of the selection; the identifiers that are not registered are dropped
    without an error. *)
Theorem build_drops_unregistered (ANALYST_CONFIG selected : list string) (g : StateGraph) :
  filter (fun a => a ∈ ANALYST_CONFIG) selected <> [] ->
  build_agent_workflow ANALYST_CONFIG (Some selected) = Return g ->
  analysis_nodes g = node_name <$> filter (fun a => a ∈ ANALYST_CONFIG) selected.
Proof.
  intros Hsome Hg. apply build_Return in Hg as [Hfresh ->].
  rewrite select_agents_some in * by done. by apply built_analysis_nodes.
Qed.

(** X13: on a registry of distinct keys without the key [risk_management],
    a selection is built exactly when no registered analyst is named twice in
    it; identifiers that are not registered may repeat. *)
Theorem build_refuses_repeats (ANALYST_CONFIG selected : list string) :
  registry_ok ANALYST_CONFIG ->
  (exists g, build_agent_workflow ANALYST_CONFIG (Some selected) = Return g) <->
  NoDup (filter (fun a => a ∈ ANALYST_CONFIG) selected).
Proof.
  intros [Hnd Hrisk]. split.
  - intros [g Hg]. apply build_Return in Hg as [[Hfresh _] _].
    apply NoDup_fmap_1 in Hfresh.
    destruct (filter (fun a => a ∈ ANALYST_CONFIG) selected) as [|a l] eqn:E;
      [constructor|].
    rewrite select_agents_some in Hfresh by (by rewrite E). by rewrite E in Hfresh.
  - intros Hsel. eexists. apply build_fresh. split.
    + apply (NoDup_fmap_2 node_name).
      destruct (filter (fun a => a ∈ ANALYST_CONFIG) selected) as [|a l] eqn:E.
      * rewrite select_agents_none by done. destruct selected; [constructor | done].
      * rewrite select_agents_some by (by rewrite E). by rewrite E.
    + apply Forall_fmap. eapply Forall_impl; [apply select_agents_registered|].
      intros key Hkey. cbn. apply node_name_not_fixed. by intros ->.
Qed.

Section reach.
Variable A : list string.

Lemma edge_start_analyst (a : string) : a ∈ A -> edge (built A) "start_node" a.
Proof.
  intros Ha. unfold edge, built, built_edges. cbn [edges]. apply elem_of_app. left.
  by apply (list_elem_of_fmap_2 (fun a => ("start_node", a))).
Qed.

Lemma edge_analyst_risk (a : string) : a ∈ A -> edge (built A) a "risk_management_agent".
Proof.
  intros Ha. unfold edge, built, built_edges. cbn [edges].
  apply elem_of_app. right. apply elem_of_app. left.
  by apply (list_elem_of_fmap_2 (fun a => (a, "risk_management_agent"))).
Qed.

Lemma edge_start_risk : A = [] -> edge (built A) "start_node" "risk_management_agent".
Proof. intros ->. unfold edge, built, built_edges. cbn. by left. Qed.

Lemma edge_risk_exit : edge (built A) "risk_management_agent" "portfolio_manager".
Proof.
  unfold edge, built, built_edges. cbn [edges]. rewrite !elem_of_app. do 3 right. by left.
Qed.

Lemma edge_exit_END : edge (built A) "portfolio_manager" END.
Proof.
  unfold edge, built, built_edges. cbn [edges]. rewrite !elem_of_app. do 3 right.
  right. by left.
Qed.

Lemma risk_reaches_END : tc (edge (built A)) "risk_management_agent" END.
Proof.
  eapply tc_l; [apply edge_risk_exit|]. apply tc_once, edge_exit_END.
Qed.

Lemma start_reaches_risk : tc (edge (built A)) "start_node" "risk_management_agent".
Proof.
  destruct (decide (A = [])) as [E|E].
  - by apply tc_once, edge_start_risk.
  - assert (exists a, a ∈ A) as [a Ha].
    { destruct A as [|a A']; [done|]. exists a. by left. }
    eapply tc_l; [by apply edge_start_analyst|]. by apply tc_once, edge_analyst_risk.
Qed.

Lemma built_reach (n : string) :
  n ∈ nodes (built A) ->
  rtc (edge (built A)) "start_node" n /\ tc (edge (built A)) n END.
Proof.
  unfold built at 1. cbn [nodes]. intros [->|[Hn|Hn]%elem_of_app]%elem_of_cons.
  - split; [done|]. eapply tc_transitive; [apply start_reaches_risk | apply risk_reaches_END].
  - split.
    + by apply rtc_once, edge_start_analyst.
    + eapply tc_l; [by apply edge_analyst_risk | apply risk_reaches_END].
  - apply elem_of_cons in Hn as [->|Hn].
    + split; [apply tc_rtc, start_reaches_risk | apply risk_reaches_END].
    + apply list_elem_of_singleton in Hn as ->. split.
      * apply tc_rtc. eapply tc_r; [apply start_reaches_risk | apply edge_risk_exit].
      * apply tc_once, edge_exit_END.
Qed.

Lemma built_sizes :
  length (nodes (built A)) = 3 + length A /\
  length (workflow_edges (built A)) =
    match A with [] => 4 | _ :: _ => 2 * length A + 3 end.
Proof.
  unfold workflow_edges, built, built_edges. cbn [nodes edges entry_point]; split.
  - cbn. rewrite length_app. cbn. lia.
  - rewrite !length_app, !length_fmap. destruct A; cbn; lia.
Qed.

(** The edges of a built graph are pairwise distinct, the one from [START]
    included: their number is the size of the set langgraph holds. *)
Lemma built_edges_NoDup :
  fresh_names A -> START ∉ A -> NoDup (workflow_edges (built A)).
Proof.
  intros [Hnd Hfresh] Hstart.
  assert (forall a, a ∈ A -> a <> "start_node" /\ a <> "risk_management_agent" /\
                             a <> "portfolio_manager") as Hne.
  { intros a Ha. rewrite Forall_forall in Hfresh. by apply not_fixed_inv, Hfresh. }
  unfold workflow_edges, built, built_edges. cbn [edges entry_point].
  rewrite <- !app_assoc.
  apply NoDup_app. split; [|split].
  - apply (NoDup_fmap_2 (fun a => ("start_node", a))); first [done | by intros x y [= ->]].
  - intros e (a & -> & Ha)%list_elem_of_fmap. rewrite !elem_of_app.
    intros [Hin|[Hin|Hin]].
    + apply list_elem_of_fmap in Hin as (b & [= <- _] & Hb). by destruct (Hne _ Hb).
    + destruct A; [by apply elem_of_nil in Ha | by apply elem_of_nil in Hin].
    + rewrite ?elem_of_app, ?elem_of_cons, ?elem_of_nil in Hin.
      repeat (destruct Hin as [Hin|Hin]); done || discriminate Hin.
  - apply NoDup_app. split; [|split].
    + apply (NoDup_fmap_2 (fun a => (a, "risk_management_agent")));
        first [done | by intros x y [= ->]].
    + intros e (a & -> & Ha)%list_elem_of_fmap. rewrite !elem_of_app.
      destruct (Hne _ Ha) as (Hs & Hr & Hp).
      intros [Hin|Hin].
      * destruct A; [by apply elem_of_nil in Ha | by apply elem_of_nil in Hin].
      * rewrite ?elem_of_app, ?elem_of_cons, ?elem_of_nil in Hin.
      repeat (destruct Hin as [Hin|Hin]); done || discriminate Hin.
    + apply NoDup_app. split; [|split].
      * destruct A; [apply NoDup_singleton | constructor].
      * intros e He. rewrite ?elem_of_app, ?elem_of_cons, ?elem_of_nil.
        destruct A; [|by apply elem_of_nil in He].
        apply list_elem_of_singleton in He as ->. intros Hin.
        repeat (destruct Hin as [Hin|Hin]); done || discriminate Hin.
      * apply (bool_decide_unpack _). by vm_compute.
Qed.

End reach.

(** X14: in a graph [build_agent_workflow] returns every node lies on a
    path from the start node to [END]: it is reached from the start node, and
    from it [END] is reached. *)
Theorem build_every_node_on_path (ANALYST_CONFIG : list string)
    (selected_agents : option (list string)) (g : StateGraph) (n : string) :
  build_agent_workflow ANALYST_CONFIG selected_agents = Return g ->
  n ∈ nodes g ->
  rtc (edge g) "start_node" n /\ tc (edge g) n END.
Proof.
  intros Hg Hn. apply build_Return in Hg as [_ ->]. by apply built_reach.
Qed.

(** X15: a graph [build_agent_workflow] returns has three nodes beside its
    analysis nodes, and its set of edges - the edge from [START] that
    [set_entry_point] adds among them - holds two edges for every analysis
    node beside the three of [START], risk management and the portfolio
    manager; four edges in all when it has no analysis node. *)
Theorem build_sizes (ANALYST_CONFIG : list string)
    (selected_agents : option (list string)) (g : StateGraph) :
  build_agent_workflow ANALYST_CONFIG selected_agents = Return g ->
  length (nodes g) = 3 + length (analysis_nodes g) /\
  NoDup (workflow_edges g) /\
  length (workflow_edges g) =
    match analysis_nodes g with [] => 4 | _ :: _ => 2 * length (analysis_nodes g) + 3 end.
Proof.
  intros Hg. apply build_Return in Hg as [Hfresh ->].
  rewrite built_analysis_nodes by done.
  split; [apply built_sizes|]. split; [|apply built_sizes].
  apply built_edges_NoDup; [done|].
  intros (key & E & _)%list_elem_of_fmap.
  pose proof (node_name_last key) as Hlast. rewrite <- E in Hlast. discriminate Hlast.
Qed.

Lemma select_agents_Permutation (ANALYST_CONFIG selected selected' : list string) :
  selected ≡ₚ selected' ->
  select_agents ANALYST_CONFIG (Some selected) ≡ₚ select_agents ANALYST_CONFIG (Some selected').
Proof.
  intros HP.
  assert (filter (fun a => a ∈ ANALYST_CONFIG) selected ≡ₚ
          filter (fun a => a ∈ ANALYST_CONFIG) selected') as HF by (by rewrite HP).
  destruct (filter (fun a => a ∈ ANALYST_CONFIG) selected) as [|a l] eqn:E.
  - apply Permutation_nil_l in HF. rewrite !select_agents_none by done.
    destruct selected as [|x xs].
    + by apply Permutation_nil_l in HP as <-.
    + destruct selected'; [by apply Permutation_nil_r in HP | done].
  - rewrite !select_agents_some; [by rewrite E | | by rewrite E].
    intros E'. rewrite E' in HF. by apply Permutation_nil_r in HF.
Qed.

Lemma built_edges_Permutation (A A' : list string) :
  A ≡ₚ A' -> built_edges A ≡ₚ built_edges A'.
Proof.
  intros HP. unfold built_edges.
  assert (match A with
          | [] => [("start_node", "risk_management_agent")]
          | _ :: _ => []
          end =
          match A' with
          | [] => [("start_node", "risk_management_agent")]
          | _ :: _ => []
          end) as ->.
  { destruct A as [|a l].
    - by apply Permutation_nil_l in HP as <-.
    - destruct A'; [by apply Permutation_nil_r in HP | done]. }
  by rewrite HP.
Qed.

(** X16: the order in which a selection names the analysts shapes no graph:
    when a selection is built, every rearrangement of it is built too, with
    the same nodes, the same edges and the same entry point. *)
Theorem build_order_irrelevant (ANALYST_CONFIG selected selected' : list string)
    (g : StateGraph) :
  selected ≡ₚ selected' ->
  build_agent_workflow ANALYST_CONFIG (Some selected) = Return g ->
  exists g', build_agent_workflow ANALYST_CONFIG (Some selected') = Return g' /\
             nodes g ≡ₚ nodes g' /\ edges g ≡ₚ edges g' /\
             entry_point g = entry_point g'.
Proof.
  intros HP Hg. apply build_Return in Hg as [[Hnd Hfix] ->].
  pose proof (select_agents_Permutation ANALYST_CONFIG _ _ HP) as HA.
  eexists. split.
  - apply build_fresh. split; by rewrite <- HA.
  - unfold built. cbn [nodes edges entry_point].
    split; [by rewrite HA|]. split; [|done].
    apply built_edges_Permutation. by rewrite HA.
Qed.

Lemma build_drops_unregistered_witness :
  let selected := ["no_such_analyst"; "technical_analyst"; "ben_graham"] in
  exists g,
    filter (fun a => a ∈ registry) selected <> [] /\
    build_agent_workflow registry (Some selected) = Return g /\
    analysis_nodes g = node_name <$> filter (fun a => a ∈ registry) selected.
Proof.
  intros selected. eexists.
  assert (filter (fun a => a ∈ registry) selected <> []) as Hsome by (by vm_compute).
  split; [exact Hsome|]. split; [reflexivity|].
  exact (build_drops_unregistered registry selected _ Hsome eq_refl).
Defined.

Lemma build_refuses_repeats_witness :
  let selected := ["no_such_analyst"; "fundamentals"; "no_such_analyst"] in
  registry_ok registry /\
  ((exists g, build_agent_workflow registry (Some selected) = Return g) <->
   NoDup (filter (fun a => a ∈ registry) selected)).
Proof.
  intros selected. split; [exact registry_is_ok|].
  exact (build_refuses_repeats registry selected registry_is_ok).
Defined.

Lemma build_every_node_on_path_witness :
  exists g,
    build_agent_workflow registry (Some ["fundamentals"]) = Return g /\
    "fundamentals_agent" ∈ nodes g /\
    rtc (edge g) "start_node" "fundamentals_agent" /\ tc (edge g) "fundamentals_agent" END.
Proof.
  eexists. split; [reflexivity|].
  assert ("fundamentals_agent" ∈
          ["start_node"; "fundamentals_agent"; "risk_management_agent"; "portfolio_manager"])
    as Hn by (right; left).
  split; [exact Hn|].
  exact (build_every_node_on_path registry (Some ["fundamentals"]) _ "fundamentals_agent"
           eq_refl Hn).
Defined.

Lemma build_sizes_witness :
  exists g,
    build_agent_workflow registry None = Return g /\
    length (nodes g) = 3 + length (analysis_nodes g) /\
    NoDup (workflow_edges g) /\
    length (workflow_edges g) =
      match analysis_nodes g with [] => 4 | _ :: _ => 2 * length (analysis_nodes g) + 3 end.
Proof.
  eexists. split; [reflexivity|]. exact (build_sizes registry None _ eq_refl).
Defined.

(** The three analysts of the registry: six nodes, nine edges. *)
Example build_sizes_run :
  exists g, build_agent_workflow registry None = Return g /\
            length (nodes g) = 6 /\ length (workflow_edges g) = 9 /\
            (START, "start_node") ∈ workflow_edges g.
Proof.
  eexists. split; [reflexivity|]. split; [reflexivity|]. split; [reflexivity|].
  apply (bool_decide_unpack _). by vm_compute.
Qed.

Lemma build_order_irrelevant_witness :
  let selected := ["fundamentals"; "ben_graham"] in
  let selected' := ["ben_graham"; "fundamentals"] in
  exists g,
    selected ≡ₚ selected' /\
    build_agent_workflow registry (Some selected) = Return g /\
    exists g', build_agent_workflow registry (Some selected') = Return g' /\
               nodes g ≡ₚ nodes g' /\ edges g ≡ₚ edges g' /\
               entry_point g = entry_point g'.
Proof.
  intros selected selected'. eexists.
  assert (selected ≡ₚ selected') as HP by apply Permutation_swap.
  split; [exact HP|]. split; [reflexivity|].
  exact (build_order_irrelevant registry selected selected' _ HP eq_refl).
Defined.

End GraphLaws.

(** ** The fundamentals analyst: confidence, dividends, aborted runs *)

Module FundamentalsLaws.
Import Fundamentals FundamentalsFacts.

(** The confidence for [m] agreeing signals out of five: twenty points each. *)
Lemma confidence_value (m : nat) :
  m <= 5 ->
  (round2 (inject_Z (Z.of_nat m) / inject_Z (Z.of_nat 5)) * 100
   == inject_Z (20 * Z.of_nat m))%Q.
Proof.
  intros Hm.
  assert (m = 0 \/ m = 1 \/ m = 2 \/ m = 3 \/ m = 4 \/ m = 5) as Hcases by lia.
  destruct Hcases as [->|[->|[->|[->|[->| ->]]]]]; by vm_compute.
Qed.

Lemma count_two (signals : list string) :
  count "bullish" signals + count "bearish" signals <= length signals.
Proof.
  unfold count. induction signals as [|s signals IH]; [done|].
  rewrite !filter_cons. cbn [length].
  destruct (decide (s = "bullish")) as [->|Hb].
  - rewrite decide_False by done. cbn [length]. lia.
  - destruct (decide (s = "bearish")); cbn [length]; lia.
Qed.

Section agent.
Variable provider : api.
Variable year_of_date : string -> option string.
Variable end_date : string.

(** X17: the entry of a ticker reports the strict majority between its
    bullish and its bearish sub-signals - neutral on a tie - and a confidence
    of twenty points for every sub-signal on the larger side, the neutral
    sub-signals counting for nothing. *)
Theorem analyse_majority (ticker : string) (metrics : FinancialMetrics) (e : entry) :
  analyse provider year_of_date ticker end_date metrics = Return e ->
  let sub_signals := snd <$> reasoning e in
  let bullish := count "bullish" sub_signals in
  let bearish := count "bearish" sub_signals in
  length sub_signals = 5 /\
  (confidence e == inject_Z (20 * Z.of_nat (Nat.max bullish bearish)))%Q /\
  (signal e = "bullish" <-> bearish < bullish) /\
  (signal e = "bearish" <-> bullish < bearish) /\
  (signal e = "neutral" <-> bullish = bearish).
Proof.
  unfold analyse. intros (summary & _ & [= <-])%bind_Return.
  cbn [reasoning signal confidence overall zip zip_with fmap list_fmap snd length].
  set (signals := [_; _; _; _; _]).
  pose proof (count_two signals) as Hle. change (length signals) with 5 in Hle.
  split; [done|]. split; [apply confidence_value; lia|].
  destruct (count "bearish" signals <? count "bullish" signals) eqn:E1.
  - apply Nat.ltb_lt in E1. repeat split; try done; try lia.
  - apply Nat.ltb_ge in E1.
    destruct (count "bullish" signals <? count "bearish" signals) eqn:E2.
    + apply Nat.ltb_lt in E2. repeat split; try done; try lia.
    + apply Nat.ltb_ge in E2. repeat split; try done; try lia.
Qed.

(** X18: the reasoning of an entry names the five sub-analyses, in the
    order they are made, each with one of the three signals. *)
Theorem analyse_reasoning_shape (ticker : string) (metrics : FinancialMetrics) (e : entry) :
  analyse provider year_of_date ticker end_date metrics = Return e ->
  fst <$> reasoning e =
    ["profitability_signal"; "growth_signal"; "financial_health_signal";
     "price_ratios_signal"; "dividend_signal"] /\
  Forall (fun s => s ∈ signals_allowed) (snd <$> reasoning e).
Proof.
  unfold analyse. intros (summary & _ & [= <-])%bind_Return.
  cbn [reasoning overall zip zip_with fmap list_fmap fst snd]. split; [done|].
  repeat (apply Forall_cons_2; [|]); [..|apply Forall_nil_2].
  - apply grade_allowed; [apply bullish_allowed | apply bearish_allowed].
  - apply grade_allowed; [apply bullish_allowed | apply bearish_allowed].
  - apply grade_allowed; [apply bullish_allowed | apply bearish_allowed].
  - apply grade_allowed; [apply bearish_allowed | apply bullish_allowed].
  - apply dividend_signal_allowed.
Qed.

End agent.

(** A dividend the analysis counts: a cash dividend of positive amount that
    carries a date. *)
Definition qualifies (div : Dividend) : bool :=
  String.eqb (dividend_type div) "CD" && gt (cash_amount div) 0%Q &&
  negb (String.eqb (ex_dividend_date div) "").

(** Yearly totals that are all positive. *)
Definition positive (by_year : list (string * Q)) : Prop :=
  Forall (fun yt => (0 < snd yt)%Q) by_year.

Lemma gt_zero (x : Q) : gt x 0%Q = true -> (0 < x)%Q.
Proof.
  unfold gt. intros H%negb_true_iff. apply Qnot_le_lt. intros Hle.
  apply Qle_bool_iff in Hle. congruence.
Qed.

Lemma add_to_year_positive (by_year : list (string * Q)) (year : string) (amount : Q) :
  positive by_year -> (0 < amount)%Q -> positive (add_to_year by_year year amount).
Proof.
  intros Hpos Ha. induction Hpos as [|[y total] rest Hy Hrest IH]; cbn [add_to_year].
  - constructor; [cbn; lra | constructor].
  - cbn in Hy. destruct (String.eqb y year); constructor; try done. cbn. lra.
Qed.

Lemma add_to_year_nonempty (by_year : list (string * Q)) (year : string) (amount : Q) :
  add_to_year by_year year amount <> [].
Proof. destruct by_year as [|[y total] rest]; cbn; [done|]. by destruct (String.eqb y year). Qed.

Lemma group_by_year_positive (history : list Dividend) (by_year : list (string * Q)) :
  positive by_year -> positive (group_by_year history by_year).
Proof.
  revert by_year. induction history as [|div rest IH]; intros by_year Hpos; [done|].
  cbn [group_by_year]. fold (qualifies div).
  destruct (qualifies div) eqn:E; [|by apply IH].
  apply IH, add_to_year_positive; [done|].
  apply gt_zero. unfold qualifies in E.
  by apply andb_true_iff in E as [[_ E]%andb_true_iff _].
Qed.

Lemma group_by_year_empty (history : list Dividend) (by_year : list (string * Q)) :
  group_by_year history by_year = [] <->
  by_year = [] /\ Forall (fun div => qualifies div = false) history.
Proof.
  revert by_year. induction history as [|div rest IH]; intros by_year.
  - cbn. split; [by intros -> | by intros [-> _]].
  - cbn [group_by_year]. fold (qualifies div). rewrite Forall_cons.
    destruct (qualifies div) eqn:E; rewrite IH.
    + split; [intros [Hne _]; by apply add_to_year_nonempty in Hne | by intros [_ [? _]]].
    + tauto.
Qed.

Lemma lookup_year_positive (by_year : list (string * Q)) (year : string) :
  positive by_year -> year ∈ fst <$> by_year -> (0 < lookup_year by_year year)%Q.
Proof.
  intros Hpos. induction Hpos as [|[y total] rest Hy _ IH]; cbn.
  - by intros ?%elem_of_nil.
  - intros Hin. destruct (String.eqb y year) eqn:E; [done|].
    apply IH. apply elem_of_cons in Hin as [->|Hin]; [|done].
    by rewrite String.eqb_refl in E.
Qed.

Lemma insert_desc_elem (x year : string) (sorted : list string) :
  x ∈ insert_desc year sorted <-> x = year \/ x ∈ sorted.
Proof.
  induction sorted as [|y rest IH]; cbn.
  - rewrite list_elem_of_singleton, elem_of_nil. tauto.
  - destruct (String.leb y year); rewrite !elem_of_cons; [done|]. rewrite IH. tauto.
Qed.

Lemma sorted_desc_elem (x : string) (years : list string) :
  x ∈ sorted_desc years <-> x ∈ years.
Proof.
  induction years as [|y rest IH]; cbn; [done|].
  by rewrite insert_desc_elem, IH, elem_of_cons.
Qed.

Lemma latest_total_positive (by_year : list (string * Q)) (current_year_str : string) :
  by_year <> [] -> positive by_year -> (0 < latest_total by_year current_year_str)%Q.
Proof.
  intros Hne Hpos. unfold latest_total.
  destruct (filter _ (sorted_desc (fst <$> by_year))) as [|year more] eqn:E.
  - destruct (sorted_desc (fst <$> by_year)) as [|first more] eqn:S.
    + destruct by_year as [|[y total] rest]; [done|].
      assert (y ∈ sorted_desc (fst <$> (y, total) :: rest)) as Hin
        by (apply sorted_desc_elem; left).
      rewrite S in Hin. by apply elem_of_nil in Hin.
    + apply lookup_year_positive; [done|]. apply sorted_desc_elem. rewrite S. left.
  - apply lookup_year_positive; [done|]. apply sorted_desc_elem.
    assert (year ∈ year :: more) as Hin by left. rewrite <- E in Hin.
    by apply list_elem_of_filter in Hin as [_ Hin].
Qed.

Lemma dividend_signal_zero (current_price latest_annual_eps : option Q) :
  dividend_signal 0 current_price latest_annual_eps 0 = "bearish".
Proof.
  unfold dividend_signal, dividend_score.
  by destruct (truthy current_price), (truthy latest_annual_eps), (above latest_annual_eps 0).
Qed.

Lemma dividend_signal_positive (total : Q) (current_price latest_annual_eps : option Q)
    (years : nat) :
  (0 < total)%Q -> dividend_signal total current_price latest_annual_eps years <> "bearish".
Proof.
  intros Hpos. unfold dividend_signal. cbn zeta.
  assert (Qeq_bool total 0 = false) as ->.
  { destruct (Qeq_bool total 0) eqn:E; [|done]. apply Qeq_bool_iff in E. lra. }
  rewrite andb_false_r. by destruct (2 <=? _).
Qed.

(** *** The years of the dividend block *)

(** The year under which the loop files a dividend. *)
Definition year_of (div : Dividend) : string := Str.take 4 (ex_dividend_date div).

(** The dividends of a history that the loop counts. *)
Definition counted (history : list Dividend) : list Dividend :=
  filter (fun div => qualifies div = true) history.

Lemma add_to_year_keys (by_year : list (string * Q)) (year : string) (amount : Q) :
  fst <$> add_to_year by_year year amount =
  if decide (year ∈ fst <$> by_year) then fst <$> by_year else (fst <$> by_year) ++ [year].
Proof.
  induction by_year as [|[y total] rest IH]; cbn [add_to_year].
  - by rewrite decide_False by apply not_elem_of_nil.
  - destruct (String.eqb y year) eqn:E.
    + apply String.eqb_eq in E as ->. by rewrite decide_True by (cbn; left).
    + apply String.eqb_neq in E. cbn [fmap list_fmap fst] in *. rewrite IH.
      destruct (decide (year ∈ fst <$> rest)) as [Hin|Hin].
      * by rewrite decide_True by (by right).
      * rewrite decide_False; [done|]. by intros [?|?]%elem_of_cons.
Qed.

Lemma group_by_year_keys (history : list Dividend) (by_year : list (string * Q)) :
  NoDup (fst <$> by_year) ->
  NoDup (fst <$> group_by_year history by_year) /\
  forall year, year ∈ fst <$> group_by_year history by_year <->
               year ∈ fst <$> by_year \/ year ∈ year_of <$> counted history.
Proof.
  revert by_year. induction history as [|div rest IH]; intros by_year Hnd.
  - split; [done|]. intros year. cbn. rewrite elem_of_nil. tauto.
  - cbn [group_by_year]. fold (qualifies div). fold (year_of div). unfold counted.
    rewrite filter_cons. destruct (qualifies div) eqn:E.
    + rewrite decide_True by done.
      destruct (IH (add_to_year by_year (year_of div) (cash_amount div))) as [IH1 IH2].
      { rewrite add_to_year_keys. case_decide as Hin; [done|].
        apply NoDup_app. split; [done|]. split; [|apply NoDup_singleton].
        by intros y Hy ->%list_elem_of_singleton. }
      split; [done|]. intros year. rewrite IH2, add_to_year_keys.
      cbn [fmap list_fmap]. rewrite elem_of_cons. fold (counted rest).
      case_decide as Hin.
      * split; [tauto|]. intros [?|[->|?]]; tauto.
      * rewrite elem_of_app, list_elem_of_singleton. tauto.
    + rewrite decide_False by congruence. by apply IH.
Qed.

(** *** The yearly totals, whatever the arithmetic *)

Section any_arithmetic.
Context {D F : Type}.
Variables (kind : D -> string) (cash : D -> F) (date : D -> string).
Variables (zero : F) (add : F -> F -> F) (is_positive : F -> bool).

Abbreviation counts := (Dividends.counted kind cash date is_positive).
Abbreviation files := (Dividends.add_to_year zero add).
Abbreviation groups := (Dividends.group_by_year kind cash date zero add is_positive).

(** The amounts of the counted dividends of a year, in the order of the
    history. *)
Definition year_amounts (history : list D) (year : string) : list F :=
  cash <$> filter (fun div => counts div = true /\ Str.take 4 (date div) = year) history.

Lemma get_add_to_year (by_year : list (string * F)) (year' year : string) (amount : F) :
  Dividends.get (files by_year year' amount) year =
  if String.eqb year' year
  then Some (add (default zero (Dividends.get by_year year)) amount)
  else Dividends.get by_year year.
Proof.
  induction by_year as [|[y total] rest IH]; cbn [Dividends.add_to_year Dividends.get].
  - by destruct (String.eqb year' year).
  - destruct (String.eqb y year') eqn:E; cbn [Dividends.get].
    + apply String.eqb_eq in E as ->. by destruct (String.eqb year' year).
    + destruct (String.eqb y year) eqn:E'; [|exact IH].
      apply String.eqb_eq in E' as ->. rewrite String.eqb_sym in E. by rewrite E.
Qed.

Lemma get_group_by_year (history : list D) (by_year : list (string * F)) (year : string) :
  Dividends.get (groups history by_year) year =
  match year_amounts history year with
  | [] => Dividends.get by_year year
  | amounts => Some (foldl add (default zero (Dividends.get by_year year)) amounts)
  end.
Proof.
  revert by_year. induction history as [|div rest IH]; intros by_year; [done|].
  cbn [Dividends.group_by_year]. unfold year_amounts in *. rewrite filter_cons.
  destruct (counts div) eqn:E.
  - rewrite IH, get_add_to_year.
    destruct (String.eqb (Str.take 4 (date div)) year) eqn:Y.
    + apply String.eqb_eq in Y. rewrite decide_True by done.
      cbn [fmap list_fmap foldl default].
      by destruct (cash <$> filter _ rest).
    + apply String.eqb_neq in Y. rewrite decide_False by (by intros [_ ?]). done.
  - rewrite decide_False by (intros [? _]; congruence). apply IH.
Qed.

(** X19: the total the loop files under a year is what adding the amounts of
    the counted dividends of that year - the cash dividends of positive amount
    with a date whose first four characters are the year - gives, one after
    the other in the order of the history, starting from 0.0; a year without
    a counted dividend is not filed.  This holds whatever the addition is, so
    for the addition of floats, which rounds, as well. *)
Theorem yearly_totals (history : list D) (year : string) :
  Dividends.get (groups history []) year =
  match year_amounts history year with
  | [] => None
  | amounts => Some (foldl add zero amounts)
  end.
Proof. by rewrite get_group_by_year. Qed.

End any_arithmetic.

(** With the rationals and their addition, the loop is the one of the
    analyst. *)
Lemma add_to_year_rational (by_year : list (string * Q)) (year : string) (amount : Q) :
  add_to_year by_year year amount = Dividends.add_to_year 0%Q Qplus by_year year amount.
Proof.
  induction by_year as [|[y total] rest IH]; cbn; [done|]. by rewrite IH.
Qed.

Lemma group_by_year_rational (history : list Dividend) (by_year : list (string * Q)) :
  group_by_year history by_year =
  Dividends.group_by_year dividend_type cash_amount ex_dividend_date 0%Q Qplus
    (fun amount => gt amount 0%Q) history by_year.
Proof.
  revert by_year. induction history as [|div rest IH]; intros by_year; [done|].
  cbn [group_by_year Dividends.group_by_year]. unfold Dividends.counted.
  by rewrite !IH, add_to_year_rational.
Qed.

(** Three amounts of one year: the total is the sum from the left. *)
Example yearly_totals_run (F : Type) (zero a b c : F) (add : F -> F -> F) :
  Dividends.get
    (Dividends.group_by_year fst (fun div => snd (snd div)) (fun div => fst (snd div))
       zero add (fun _ => true)
       [("CD", ("2023-02-01", a)); ("SD", ("2023-03-01", b));
        ("CD", ("2023-08-01", b)); ("CD", ("2022-08-01", a)); ("CD", ("2023-11-01", c))] [])
    "2023"
  = Some (add (add (add zero a) b) c).
Proof. reflexivity. Qed.

(** *** The order of the years *)

Lemma compare_le_trans (s1 s2 s3 : string) :
  String.compare s1 s2 <> Gt -> String.compare s2 s3 <> Gt -> String.compare s1 s3 <> Gt.
Proof.
  revert s2 s3. induction s1 as [|c1 s1 IH]; intros [|c2 s2] [|c3 s3];
    cbn [String.compare]; try done.
  unfold Ascii.compare.
  destruct (N.compare_spec (N_of_ascii c1) (N_of_ascii c2)) as [E12|L12|G12]; [| |done];
    destruct (N.compare_spec (N_of_ascii c2) (N_of_ascii c3)) as [E23|L23|G23]; try done.
  - rewrite E12, E23, N.compare_refl. apply IH.
  - rewrite E12, (proj2 (N.compare_lt_iff _ _) L23). done.
  - rewrite <- E23, (proj2 (N.compare_lt_iff _ _) L12). done.
  - assert (N_of_ascii c1 < N_of_ascii c3)%N as L13 by lia.
    rewrite (proj2 (N.compare_lt_iff _ _) L13). done.
Qed.

Lemma leb_trans (s1 s2 s3 : string) :
  String.leb s1 s2 = true -> String.leb s2 s3 = true -> String.leb s1 s3 = true.
Proof.
  unfold String.leb. intros H1 H2. pose proof (compare_le_trans s1 s2 s3) as H.
  destruct (String.compare s1 s2), (String.compare s2 s3), (String.compare s1 s3);
    try done; exfalso; by apply H.
Qed.

Lemma leb_refl (s : string) : String.leb s s = true.
Proof. by destruct (String.leb_total s s). Qed.

(** From the latest year to the earliest. *)
Fixpoint descending (years : list string) : Prop :=
  match years with
  | [] => True
  | year :: rest => Forall (fun y => String.leb y year = true) rest /\ descending rest
  end.

Lemma insert_desc_descending (year : string) (sorted : list string) :
  descending sorted -> descending (insert_desc year sorted).
Proof.
  induction sorted as [|y rest IH]; cbn [insert_desc descending]; [done|].
  intros [Hy Hrest]. destruct (String.leb y year) eqn:E; cbn [descending].
  - split; [|done]. constructor; [done|].
    eapply Forall_impl; [exact Hy|]. intros z Hz. cbn in Hz. by apply (leb_trans z y year).
  - split; [|by apply IH]. apply Forall_forall. intros z [->|Hz]%insert_desc_elem.
    + destruct (String.leb_total y year); [congruence | done].
    + rewrite Forall_forall in Hy. by apply Hy.
Qed.

Lemma sorted_desc_descending (years : list string) : descending (sorted_desc years).
Proof.
  induction years as [|y rest IH]; cbn; [done|]. by apply insert_desc_descending.
Qed.

Lemma filter_descending (P : string -> Prop) `{!forall y, Decision (P y)}
    (years : list string) :
  descending years -> descending (filter P years).
Proof.
  induction years as [|y rest IH]; cbn [descending]; [done|]. intros [Hy Hrest].
  rewrite filter_cons. destruct (decide (P y)); [|by apply IH].
  cbn [descending]. split; [|by apply IH].
  apply Forall_forall. intros z [_ Hz]%list_elem_of_filter.
  rewrite Forall_forall in Hy. by apply Hy.
Qed.

Lemma descending_head (year : string) (rest : list string) (y : string) :
  descending (year :: rest) -> y ∈ year :: rest -> String.leb y year = true.
Proof.
  intros [Hy _] [->|Hin]%elem_of_cons; [apply leb_refl|].
  rewrite Forall_forall in Hy. by apply Hy.
Qed.

(** X20: the total that stands for the latest full year is the total filed
    under the latest of the years before the current one; when no year on
    file is before the current one, it is the total of the latest year on
    file. *)
Theorem latest_total_year (by_year : list (string * Q)) (current_year_str : string) :
  by_year <> [] ->
  let past := filter (fun y => String.ltb y current_year_str = true) (fst <$> by_year) in
  exists year,
    latest_total by_year current_year_str = lookup_year by_year year /\
    year ∈ fst <$> by_year /\
    (past <> [] -> year ∈ past /\ forall y, y ∈ past -> String.leb y year = true) /\
    (past = [] -> forall y, y ∈ fst <$> by_year -> String.leb y year = true).
Proof.
  intros Hne past. unfold latest_total.
  pose proof (sorted_desc_descending (fst <$> by_year)) as Hdesc.
  assert (forall y, y ∈ past <->
            y ∈ filter (fun y => String.ltb y current_year_str = true)
                  (sorted_desc (fst <$> by_year))) as Hpast.
  { intros y. unfold past. by rewrite !list_elem_of_filter, sorted_desc_elem. }
  destruct (filter _ (sorted_desc (fst <$> by_year))) as [|year more] eqn:E.
  - assert (past = []) as Hnone.
    { destruct past as [|y ys]; [done|]. exfalso.
      apply (not_elem_of_nil y), Hpast. left. }
    destruct (sorted_desc (fst <$> by_year)) as [|first more] eqn:S.
    + destruct by_year as [|[y total] rest]; [done|]. exfalso.
      apply (not_elem_of_nil y). rewrite <- S. apply sorted_desc_elem. left.
    + exists first. split; [done|]. split; [apply sorted_desc_elem; rewrite S; left|].
      split; [done|]. intros _ y Hy. apply (descending_head first more); [done|].
      rewrite <- S. by apply sorted_desc_elem.
  - exists year.
    assert (year ∈ past) as Hyear by (apply Hpast; left).
    split; [done|]. split; [by apply list_elem_of_filter in Hyear as [_ ?]|].
    split; [|intros Hnone; rewrite Hnone in Hyear; by apply elem_of_nil in Hyear].
    intros _. split; [done|]. intros y Hy. apply (descending_head year more).
    + rewrite <- E. by apply filter_descending.
    + by apply Hpast.
Qed.

Section runs.
Variable provider : api.
Variable year_of_date : string -> option string.
Variable end_date : string.

Lemma dividend_summary_bearish (history : list Dividend) (summary : Q * nat)
    (current_price latest_annual_eps : option Q) :
  dividend_summary year_of_date history end_date = Return summary ->
  dividend_signal (fst summary) current_price latest_annual_eps (snd summary) = "bearish" <->
  Forall (fun div => qualifies div = false) history.
Proof.
  unfold dividend_summary. destruct history as [|div rest].
  - intros [= <-]. cbn [fst snd]. by rewrite dividend_signal_zero.
  - destruct (year_of_date end_date) as [current_year_str|]; [|done].
    pose proof (group_by_year_empty (div :: rest) []) as Hempty.
    assert (positive (group_by_year (div :: rest) [])) as Hpos
      by (apply group_by_year_positive; constructor).
    cbn zeta. remember (group_by_year (div :: rest) []) as groups eqn:G. clear G.
    intros [= <-]. cbn [fst snd]. destruct groups as [|g more].
    + change (latest_total [] current_year_str) with 0%Q. cbn [length].
      rewrite dividend_signal_zero. split; [intros _; by apply Hempty | done].
    + split.
      * intros Hb. exfalso. revert Hb. apply dividend_signal_positive.
        by apply latest_total_positive.
      * intros Hall. pose proof (proj2 Hempty (conj eq_refl Hall)) as Hnil.
        discriminate Hnil.
Qed.

(** X21: the dividend sub-signal of a ticker is bearish exactly when its
    dividend history holds no cash dividend of positive amount with a date -
    whatever the price and the earnings per share are. *)
Theorem analyse_dividend_bearish (ticker : string) (metrics : FinancialMetrics) (e : entry) :
  analyse provider year_of_date ticker end_date metrics = Return e ->
  ("dividend_signal", "bearish") ∈ reasoning e <->
  Forall (fun div => qualifies div = false) (get_dividend_history provider ticker).
Proof.
  unfold analyse. intros (summary & Hsum & [= <-])%bind_Return.
  cbn [reasoning overall zip zip_with].
  etransitivity; [|eapply dividend_summary_bearish; exact Hsum].
  rewrite !elem_of_cons, elem_of_nil. split.
  - intros [H|[H|[H|[H|[H|[]]]]]]; [discriminate H..|].
    injection H as H. symmetry. exact H.
  - intros Hb. do 4 right. left. f_equal. symmetry. exact Hb.
Qed.

(** X22: the number of years the dividend block reports is the number of
    distinct years among the counted dividends of the history. *)
Theorem dividend_years_counted (history : list Dividend) (total : Q) (years : nat) :
  dividend_summary year_of_date history end_date = Return (total, years) ->
  years = length (remove_dups (year_of <$> counted history)).
Proof.
  unfold dividend_summary. destruct history as [|div rest]; [by intros [= _ <-]|].
  destruct (year_of_date end_date) as [current_year_str|]; [|done].
  destruct (group_by_year_keys (div :: rest) []) as [Hnd Hkeys]; [constructor|].
  cbn zeta. remember (group_by_year (div :: rest) []) as groups eqn:G. clear G.
  intros [= _ <-]. rewrite <- (length_fmap fst).
  apply Permutation_length, NoDup_Permutation; [done | apply NoDup_remove_dups|].
  intros year. rewrite Hkeys, elem_of_remove_dups. cbn. rewrite elem_of_nil. tauto.
Qed.

(** The exception of [strptime]. *)
Definition time_error : exn := ValueError "time data does not match format".

(** A ticker on which the run stops: it has financial metrics and a dividend
    history, and the end date is not a date. *)
Definition stops (ticker : string) : Prop :=
  get_financial_metrics provider ticker end_date <> [] /\
  get_dividend_history provider ticker <> [] /\
  year_of_date end_date = None.

Lemma analyse_Raise (ticker : string) (metrics : FinancialMetrics) (e : exn) :
  analyse provider year_of_date ticker end_date metrics = Raise e <->
  get_dividend_history provider ticker <> [] /\ year_of_date end_date = None /\
  e = time_error.
Proof.
  unfold analyse, dividend_summary.
  destruct (get_dividend_history provider ticker) as [|div rest]; cbn [bind].
  - split; [done | by intros [? _]].
  - destruct (year_of_date end_date); cbn [bind].
    + split; [done | by intros (_ & ? & _)].
    + split; [by intros [= <-] | by intros (_ & _ & ->)].
Qed.

Lemma analyse_all_Raise (tickers : list string) (acc : gmap string entry) (e : exn) :
  analyse_all provider year_of_date tickers end_date acc = Raise e <->
  (exists ticker, ticker ∈ tickers /\ stops ticker) /\ e = time_error.
Proof.
  revert acc. induction tickers as [|ticker rest IH]; intros acc; cbn [analyse_all].
  - split; [done|]. by intros [(t & Ht%elem_of_nil & _) _].
  - destruct (get_financial_metrics provider ticker end_date) as [|metrics more] eqn:M.
    + rewrite IH. split; intros [(t & Ht & Hs) ->]; (split; [|done]); exists t.
      * split; [by right | done].
      * split; [|done]. apply elem_of_cons in Ht as [->|Ht]; [|done].
        destruct Hs as [Hm _]. by rewrite M in Hm.
    + destruct (analyse provider year_of_date ticker end_date metrics) as [e0|e0] eqn:A;
        cbn [bind].
      * rewrite IH. split; intros [(t & Ht & Hs) ->]; (split; [|done]); exists t.
        -- split; [by right | done].
        -- split; [|done]. apply elem_of_cons in Ht as [->|Ht]; [|done].
           destruct Hs as (_ & Hd & Hy).
           assert (analyse provider year_of_date ticker end_date metrics = Raise time_error)
             as A' by (by apply analyse_Raise).
           congruence.
      * apply analyse_Raise in A as (Hd & Hy & ->). split.
        -- intros [= <-]. split; [|done]. exists ticker. split; [left|].
           split; [by rewrite M | done].
        -- by intros [_ ->].
Qed.

(** X23: the run of the analyst is aborted exactly when the end date is not
    a date and some ticker of the list has financial metrics and a dividend
    history; what it raises is a [ValueError].  An end date that is not a date
    goes unnoticed as long as no analysed ticker has a dividend history. *)
Theorem fundamentals_agent_aborts (tickers : list string)
    (analyst_signals : gmap string (gmap string entry)) :
  ((exists e, fundamentals_agent provider year_of_date tickers end_date analyst_signals
              = Raise e) <->
   year_of_date end_date = None /\
   exists ticker, ticker ∈ tickers /\
     get_financial_metrics provider ticker end_date <> [] /\
     get_dividend_history provider ticker <> []) /\
  (forall e, fundamentals_agent provider year_of_date tickers end_date analyst_signals
             = Raise e -> exists msg, e = ValueError msg).
Proof.
  unfold fundamentals_agent.
  destruct (analyse_all provider year_of_date tickers end_date ∅) as [fa|e0] eqn:E;
    cbn [bind].
  - split; [|done]. split; [by intros [e ?]|].
    intros (Hy & t & Ht & Hm & Hd). exfalso.
    assert (analyse_all provider year_of_date tickers end_date ∅ = Raise time_error) as E'.
    { apply analyse_all_Raise. split; [|done]. by exists t. }
    congruence.
  - apply analyse_all_Raise in E as [(t & Ht & Hm & Hd & Hy) ->]. split.
    + split; [|by eexists]. intros _. split; [done|]. by exists t.
    + intros e [= <-]. by eexists.
Qed.

(** What the loop stores for a ticker. *)
Definition entry_of (ticker : string) : option entry :=
  match get_financial_metrics provider ticker end_date with
  | [] => None
  | metrics :: _ =>
      match analyse provider year_of_date ticker end_date metrics with
      | Return e => Some e
      | Raise _ => None
      end
  end.

Lemma analyse_all_lookup (tickers : list string) (acc fa : gmap string entry) (t : string) :
  analyse_all provider year_of_date tickers end_date acc = Return fa ->
  fa !! t = if decide (t ∈ tickers /\ get_financial_metrics provider t end_date <> [])
            then entry_of t else acc !! t.
Proof.
  revert acc. induction tickers as [|ticker rest IH]; intros acc; cbn [analyse_all].
  - intros [= <-]. rewrite decide_False; [done|]. by intros [?%elem_of_nil _].
  - destruct (get_financial_metrics provider ticker end_date) as [|metrics more] eqn:M.
    + intros Hrest. rewrite (IH _ Hrest).
      destruct (decide (t ∈ rest /\ _)) as [[Hin Hm]|Hn].
      * rewrite decide_True; [done|]. split; [by right | done].
      * rewrite decide_False; [done|]. intros [[->|Hin]%elem_of_cons Hm]; [|by apply Hn].
        by rewrite M in Hm.
    + destruct (analyse provider year_of_date ticker end_date metrics) as [e0|e0] eqn:A;
        [|done].
      cbn [bind]. intros Hrest. rewrite (IH _ Hrest).
      destruct (decide (t ∈ rest /\ _)) as [[Hin Hm]|Hn].
      * rewrite decide_True; [done|]. split; [by right | done].
      * destruct (decide (t = ticker)) as [->|Hne].
        -- rewrite lookup_insert_eq, decide_True by (split; [left | by rewrite M]).
           unfold entry_of. by rewrite M, A.
        -- rewrite lookup_insert_ne by done. rewrite decide_False; [done|].
           intros [[->|Hin]%elem_of_cons Hm]; [done | by apply Hn].
Qed.

(** X24: what the analyst returns depends on which tickers the list holds,
    not on their order, nor on how often one is listed. *)
Theorem fundamentals_agent_tickers_as_set (tickers tickers' : list string)
    (analyst_signals : gmap string (gmap string entry)) :
  (forall t, t ∈ tickers <-> t ∈ tickers') ->
  fundamentals_agent provider year_of_date tickers end_date analyst_signals =
  fundamentals_agent provider year_of_date tickers' end_date analyst_signals.
Proof.
  intros Hsame. unfold fundamentals_agent.
  destruct (analyse_all provider year_of_date tickers end_date ∅) as [fa|e] eqn:E;
    destruct (analyse_all provider year_of_date tickers' end_date ∅) as [fa'|e'] eqn:E';
    cbn [bind].
  - do 2 f_equal. apply map_eq. intros t.
    rewrite (analyse_all_lookup _ _ _ t E), (analyse_all_lookup _ _ _ t E').
    destruct (decide (t ∈ tickers /\ _)) as [[Hin Hm]|Hn].
    + rewrite decide_True; [done|]. split; [by apply Hsame | done].
    + rewrite decide_False; [done|]. intros [Hin Hm]. apply Hn. split; [by apply Hsame | done].
  - exfalso. apply analyse_all_Raise in E' as [(t & Ht & Hs) _].
    assert (analyse_all provider year_of_date tickers end_date ∅ = Raise time_error) as E''.
    { apply analyse_all_Raise. split; [|done]. exists t. split; [by apply Hsame | done]. }
    congruence.
  - exfalso. apply analyse_all_Raise in E as [(t & Ht & Hs) _].
    assert (analyse_all provider year_of_date tickers' end_date ∅ = Raise time_error) as E''.
    { apply analyse_all_Raise. split; [|done]. exists t. split; [by apply Hsame | done]. }
    congruence.
  - apply analyse_all_Raise in E as [_ ->]. by apply analyse_all_Raise in E' as [_ ->].
Qed.

End runs.

Lemma analyse_majority_witness :
  exists e,
    analyse only_AAA leading_year "AAA" "2024-06-30" metrics_AAA = Return e /\
    let sub_signals := snd <$> reasoning e in
    let bullish := count "bullish" sub_signals in
    let bearish := count "bearish" sub_signals in
    length sub_signals = 5 /\
    (confidence e == inject_Z (20 * Z.of_nat (Nat.max bullish bearish)))%Q /\
    (signal e = "bullish" <-> bearish < bullish) /\
    (signal e = "bearish" <-> bullish < bearish) /\
    (signal e = "neutral" <-> bullish = bearish).
Proof.
  eexists. split; [reflexivity|].
  exact (analyse_majority only_AAA leading_year "2024-06-30" "AAA" metrics_AAA _ eq_refl).
Defined.

Lemma analyse_reasoning_shape_witness :
  exists e,
    analyse only_AAA leading_year "AAA" "2024-06-30" metrics_AAA = Return e /\
    fst <$> reasoning e =
      ["profitability_signal"; "growth_signal"; "financial_health_signal";
       "price_ratios_signal"; "dividend_signal"] /\
    Forall (fun s => s ∈ signals_allowed) (snd <$> reasoning e).
Proof.
  eexists. split; [reflexivity|].
  exact (analyse_reasoning_shape only_AAA leading_year "2024-06-30" "AAA" metrics_AAA _
           eq_refl).
Defined.

(** A provider whose only dividend on record is a stock dividend. *)
Definition stock_dividend_only : api :=
  {| get_financial_metrics := fun _ _ => [metrics_AAA];
     get_dividend_history := fun _ =>
       [ {| dividend_type := "SD"; cash_amount := (1 # 2)%Q;
            ex_dividend_date := "2023-05-01" |} ];
     get_prices := fun _ _ _ => [ {| close := (20 # 1)%Q |} ];
     search_line_items := fun _ _ => [] |}.

Lemma analyse_dividend_bearish_witness :
  exists e,
    analyse stock_dividend_only leading_year "AAA" "2024-06-30" metrics_AAA = Return e /\
    (("dividend_signal", "bearish") ∈ reasoning e <->
     Forall (fun div => qualifies div = false)
       (get_dividend_history stock_dividend_only "AAA")).
Proof.
  eexists. split; [reflexivity|].
  exact (analyse_dividend_bearish stock_dividend_only leading_year "2024-06-30" "AAA"
           metrics_AAA _ eq_refl).
Defined.

(** With an end date that is no date, the run on the provider of the
    scenario is aborted by AAA, which has a dividend history; alone, BBB,
    which has no data, goes through. *)
Example fundamentals_agent_aborts_run :
  fundamentals_agent only_AAA (fun _ => None) ["BBB"; "AAA"] "yesterday" ∅
  = Raise time_error /\
  fundamentals_agent only_AAA (fun _ => None) ["BBB"] "yesterday" ∅
  = Return {[ "fundamentals_agent" := ∅ ]}.
Proof. split; reflexivity. Qed.

Lemma dividend_years_counted_witness :
  let history := get_dividend_history only_AAA "AAA" in
  exists total years,
    dividend_summary leading_year history "2024-06-30" = Return (total, years) /\
    years = length (remove_dups (year_of <$> counted history)).
Proof.
  intros history. eexists _, _. split; [reflexivity|].
  exact (dividend_years_counted leading_year "2024-06-30" history _ _ eq_refl).
Defined.

Lemma latest_total_year_witness :
  let by_year := [("2022", 1%Q); ("2024", (1 # 2)%Q); ("2023", 2%Q)] in
  let past := filter (fun y => String.ltb y "2024" = true) (fst <$> by_year) in
  by_year <> [] /\
  exists year,
    latest_total by_year "2024" = lookup_year by_year year /\
    year ∈ fst <$> by_year /\
    (past <> [] -> year ∈ past /\ forall y, y ∈ past -> String.leb y year = true) /\
    (past = [] -> forall y, y ∈ fst <$> by_year -> String.leb y year = true).
Proof.
  intros by_year past.
  assert (by_year <> []) as Hne by discriminate.
  split; [exact Hne|]. exact (latest_total_year by_year "2024" Hne).
Defined.

Example latest_total_run :
  latest_total [("2022", 1%Q); ("2024", (1 # 2)%Q); ("2023", 2%Q)] "2024" = 2%Q /\
  latest_total [("2024", (1 # 2)%Q)] "2024" = (1 # 2)%Q.
Proof. split; reflexivity. Qed.

Lemma fundamentals_agent_tickers_as_set_witness :
  let tickers := ["AAA"; "BBB"; "AAA"] in
  let tickers' := ["BBB"; "AAA"] in
  (forall t, t ∈ tickers <-> t ∈ tickers') /\
  fundamentals_agent only_AAA leading_year tickers "2024-06-30" ∅ =
  fundamentals_agent only_AAA leading_year tickers' "2024-06-30" ∅.
Proof.
  intros tickers tickers'.
  assert (forall t, t ∈ tickers <-> t ∈ tickers') as Hsame.
  { intros t. unfold tickers, tickers'. rewrite !elem_of_cons, elem_of_nil. tauto. }
  split; [exact Hsame|].
  exact (fundamentals_agent_tickers_as_set only_AAA leading_year "2024-06-30"
           tickers tickers' ∅ Hsame).
Defined.

End FundamentalsLaws.

(** ** The command line: the ticker list *)

Module MainFacts.
Import Main.

(** The number of commas of a string. *)
Definition commas (s : string) : nat :=
  length (filter (fun c => c = ","%char) (String.list_ascii_of_string s)).

(** No comma among the code points of a string. *)
Definition comma_free (s : string) : Prop := ","%char ∉ String.list_ascii_of_string s.

(** Nothing for [lstrip] to remove. *)
Definition stripped_left (s : string) : Prop :=
  match s with
  | EmptyString => True
  | String c _ => Str.is_space c = false
  end.

Lemma split_comma_cons (s : string) :
  exists segment rest, split_comma s = segment :: rest.
Proof.
  induction s as [|c s (segment & rest & IH)]; cbn [split_comma]; [by eexists _, _|].
  destruct (Ascii.eqb c ","); [by eexists _, _|]. rewrite IH. by eexists _, _.
Qed.

Lemma split_comma_length (s : string) : length (split_comma s) = S (commas s).
Proof.
  unfold commas. induction s as [|c s IH]; [done|].
  cbn [split_comma String.list_ascii_of_string]. rewrite filter_cons.
  destruct (Ascii.eqb c ",") eqn:E.
  - apply Ascii.eqb_eq in E as ->. rewrite decide_True by done. cbn [length]. by rewrite IH.
  - apply Ascii.eqb_neq in E. rewrite decide_False by done.
    destruct (split_comma_cons s) as (segment & rest & Hs). by rewrite Hs in *.
Qed.

(** Joining the segments with commas gives the string back. *)
Lemma split_comma_join (s : string) : String.concat "," (split_comma s) = s.
Proof.
  induction s as [|c s IH]; [done|]. cbn [split_comma].
  destruct (split_comma_cons s) as (segment & rest & Hs). rewrite Hs in *.
  destruct (Ascii.eqb c ",") eqn:E.
  - apply Ascii.eqb_eq in E as ->.
    change (String.concat "," ("" :: segment :: rest))
      with ("" +:+ "," +:+ String.concat "," (segment :: rest)).
    by rewrite IH.
  - destruct rest as [|next rest]; [cbn in *; by rewrite IH|].
    change (String.concat "," (String c segment :: next :: rest))
      with (String c (segment +:+ "," +:+ String.concat "," (next :: rest))).
    f_equal. exact IH.
Qed.

Lemma split_comma_free (s : string) : Forall comma_free (split_comma s).
Proof.
  induction s as [|c s IH]; cbn [split_comma].
  - constructor; [|constructor]. apply not_elem_of_nil.
  - destruct (Ascii.eqb c ",") eqn:E.
    + constructor; [apply not_elem_of_nil | done].
    + apply Ascii.eqb_neq in E.
      destruct (split_comma s) as [|segment rest].
      * constructor; [|constructor]. unfold comma_free. cbn.
        rewrite list_elem_of_singleton. congruence.
      * apply Forall_cons in IH as [Hseg Hrest]. constructor; [|done].
        unfold comma_free in *. cbn. rewrite elem_of_cons. intros [?|?]; [congruence | done].
Qed.

Lemma lstrip_chars (c : Ascii.ascii) (s : string) :
  c ∈ String.list_ascii_of_string (Str.lstrip s) -> c ∈ String.list_ascii_of_string s.
Proof.
  induction s as [|d s IH]; cbn [Str.lstrip]; [done|].
  destruct (Str.is_space d); [|done]. intros Hc. cbn. right. by apply IH.
Qed.

Lemma rstrip_chars (c : Ascii.ascii) (s : string) :
  c ∈ String.list_ascii_of_string (Str.rstrip s) -> c ∈ String.list_ascii_of_string s.
Proof.
  induction s as [|d s IH]; cbn [Str.rstrip]; [done|].
  destruct (Str.rstrip s) as [|e r].
  - destruct (Str.is_space d); cbn; [by intros ?%elem_of_nil|].
    intros ->%list_elem_of_singleton. left.
  - cbn [String.list_ascii_of_string]. intros [->|Hc]%elem_of_cons; [left | right; by apply IH].
Qed.

Lemma lstrip_stripped (s : string) : stripped_left (Str.lstrip s).
Proof.
  induction s as [|c s IH]; cbn [Str.lstrip]; [done|].
  by destruct (Str.is_space c) eqn:E.
Qed.

Lemma stripped_lstrip (s : string) : stripped_left s -> Str.lstrip s = s.
Proof. destruct s as [|c s]; cbn; [done|]. by intros ->. Qed.

Lemma stripped_rstrip (s : string) : stripped_left s -> stripped_left (Str.rstrip s).
Proof.
  destruct s as [|c s]; cbn [Str.rstrip stripped_left]; [done|]. intros Hc.
  destruct (Str.rstrip s); [by rewrite Hc | done].
Qed.

Lemma rstrip_idempotent (s : string) : Str.rstrip (Str.rstrip s) = Str.rstrip s.
Proof.
  induction s as [|c s IH]; [done|]. cbn [Str.rstrip].
  destruct (Str.rstrip s) as [|d r] eqn:E.
  - destruct (Str.is_space c) eqn:Hc; [done|]. cbn. by rewrite Hc.
  - change (Str.rstrip (String c (String d r)))
      with (match Str.rstrip (String d r) with
            | EmptyString => if Str.is_space c then EmptyString else String c EmptyString
            | String e r' => String c (String e r')
            end).
    by rewrite IH.
Qed.

Lemma strip_idempotent (s : string) : Str.strip (Str.strip s) = Str.strip s.
Proof.
  unfold Str.strip.
  rewrite (stripped_lstrip (Str.rstrip (Str.lstrip s)))
    by apply stripped_rstrip, lstrip_stripped.
  apply rstrip_idempotent.
Qed.

(** X25: the ticker list of the command line has one ticker for every
    comma of the argument and one more - an empty segment gives an empty
    ticker, which is passed on - and every ticker is free of commas and has no
    white space left at either end. *)
Theorem parse_tickers_shape (tickers : string) :
  length (parse_tickers tickers) = S (commas tickers) /\
  Forall (fun ticker => Str.strip ticker = ticker /\ comma_free ticker)
    (parse_tickers tickers).
Proof.
  unfold parse_tickers. split; [by rewrite length_fmap, split_comma_length|].
  apply Forall_fmap. eapply Forall_impl; [apply split_comma_free|].
  intros segment Hfree. cbn. split; [apply strip_idempotent|].
  intros Hc. apply Hfree. unfold Str.strip in Hc. by apply lstrip_chars, rstrip_chars.
Qed.

Example parse_tickers_run :
  parse_tickers " AAPL, MSFT ,,NVDA " = ["AAPL"; "MSFT"; ""; "NVDA"].
Proof. reflexivity. Qed.

End MainFacts.
